(** * The session-analytics hook of the expressjs-monorepo plugin

    A shallow embedding of [hooks/analytics.sh] (the Node script behind the
    analytics hook, in its latest version): the CSV ledger discipline, the
    schema migration, the prompt classifier, the tiered cost calculator and
    the turn/tool state machine, followed by the properties established
    about them.

    Conventions of the embedding.
    - A JavaScript string is the list of its UTF-16 code units ([list N]);
      [lit] turns a literal into one.  Indexing, [length], [===] and the
      character classes of the regular expressions are then exactly the
      source's.
    - An integral JavaScript number (turn number, counter, epoch
      milliseconds, size) is a [Z].  A number holding a USD amount is an
      exact rational [Q]: the rounding of IEEE doubles is outside the model.
    - A JavaScript object used as a dictionary keyed by session is a [gmap];
      the in-flight tool map, whose key order the code relies on, is an
      association list in insertion order.
    - Every event carries its session identifier, and a session's state
      file is found under that identifier.
    - File-system calls succeed, so no handler throws; the debug log is
      not modelled.  What the engine reads from outside (clock, git,
      transcript files) comes in through an [environment]. *)

From Stdlib Require Import ZArith NArith QArith Lqa List Ascii String Bool Lia.
From Stdlib Require Import DecimalString DecimalPos DecimalZ.
From stdpp Require Import gmap list.

Close Scope Q_scope.
Local Open Scope N_scope.

(* ====================================================================== *)
(** ** JavaScript strings *)
(* ====================================================================== *)

Abbreviation jsstring := (list N).

(** A string literal of the source, as its code units. *)
Definition lit (s : string) : jsstring :=
  map N_of_ascii (list_ascii_of_string s).

Definition QUOTE : N := 34.
Definition COMMA : N := 44.
Definition NEWLINE : N := 10.
Definition APOSTROPHE : N := 39.
Definition EQUALS : N := 61.
Definition UNDERSCORE : N := 95.

(** [str.includes(c)] for a one-character needle. *)
Definition includes (c : N) (str : jsstring) : bool :=
  existsb (N.eqb c) str.

(** [a.join(sep)]. *)
Definition join (sep : jsstring) (parts : list jsstring) : jsstring :=
  match parts with
  | [] => []
  | p :: ps => p ++ flat_map (fun q => sep ++ q) ps
  end.

(** [s.split(c)] for a one-character separator. *)
Fixpoint split (sep : N) (s : jsstring) : list jsstring :=
  match s with
  | [] => [[]]
  | c :: rest =>
      if c =? sep then [] :: split sep rest
      else match split sep rest with
           | l :: ls => (c :: l) :: ls
           | [] => [[c]]
           end
  end.

(** White space and line terminators, the characters [trim] strips. *)
Definition isWhiteSpace (c : N) : bool :=
  (c =? 9) || (c =? 10) || (c =? 11) || (c =? 12) || (c =? 13) || (c =? 32)
  || (c =? 160) || (c =? 5760) || ((8192 <=? c) && (c <=? 8202))
  || (c =? 8232) || (c =? 8233) || (c =? 8239) || (c =? 8287)
  || (c =? 12288) || (c =? 65279).

Fixpoint trimStart (s : jsstring) : jsstring :=
  match s with
  | [] => []
  | c :: rest => if isWhiteSpace c then trimStart rest else s
  end.

Definition trimEnd (s : jsstring) : jsstring := rev (trimStart (rev s)).

Definition trim (s : jsstring) : jsstring := trimEnd (trimStart s).

(** Truthiness of a string: the empty string is falsy. *)
Definition truthy (s : jsstring) : bool :=
  match s with [] => false | _ => true end.

(** [String(n)] for an integral number. *)
Definition String_of_Z (z : Z) : jsstring :=
  lit (NilZero.string_of_int (Z.to_int z)).

(* ====================================================================== *)
(** ** Ledger writer: escaping, row building, row parsing *)
(* ====================================================================== *)

(** The character class of [/^[=+\-@\t\r]/]. *)
Definition isFormulaTrigger (c : N) : bool :=
  (c =? 61) || (c =? 43) || (c =? 45) || (c =? 64) || (c =? 9) || (c =? 13).

Definition startsWithFormulaTrigger (str : jsstring) : bool :=
  match str with
  | [] => false
  | c :: _ => isFormulaTrigger c
  end.

(** The global replace of [escapeCSV]: every double quote is doubled. *)
Definition doubleQuotes (str : jsstring) : jsstring :=
  flat_map (fun c => if c =? QUOTE then [QUOTE; QUOTE] else [c]) str.

(** The first step of [escapeCSV]: a leading formula character gets an
    apostrophe in front. *)
Definition neutralize (str : jsstring) : jsstring :=
  if (0 <? length str)%nat && startsWithFormulaTrigger str
  then APOSTROPHE :: str
  else str.

Definition needsQuoting (str : jsstring) : bool :=
  includes COMMA str || includes QUOTE str || includes NEWLINE str.

(** [escapeCSV(value)]; [None] stands for [null] and [undefined], [Some s]
    for a value whose [String(value)] is [s]. *)
Definition escapeCSV (value : option jsstring) : jsstring :=
  match value with
  | None => []
  | Some v =>
      let str := neutralize v in
      if needsQuoting str
      then QUOTE :: doubleQuotes str ++ [QUOTE]
      else str
  end.

(** [buildCSVRow(values)]. *)
Definition buildCSVRow (values : list (option jsstring)) : jsstring :=
  join [COMMA] (map escapeCSV values).

(** The loop of [parseCSVRow]: [row] is what remains from index [i] on;
    [result], [current] and [inQuotes] are the loop's variables. *)
Fixpoint parseCSVRow_from (row : jsstring) (result : list jsstring)
    (current : jsstring) (inQuotes : bool) : list jsstring :=
  match row with
  | [] => result ++ [current]
  | char :: rest =>
      if char =? QUOTE then
        match rest with
        | nextChar :: rest' =>
            if inQuotes && (nextChar =? QUOTE)
            then parseCSVRow_from rest' result (current ++ [QUOTE]) inQuotes
            else parseCSVRow_from rest result current (negb inQuotes)
        | [] => parseCSVRow_from rest result current (negb inQuotes)
        end
      else if (char =? COMMA) && negb inQuotes
      then parseCSVRow_from rest (result ++ [current]) [] inQuotes
      else parseCSVRow_from rest result (current ++ [char]) inQuotes
  end.

Definition parseCSVRow (row : jsstring) : list jsstring :=
  parseCSVRow_from row [] [] false.

(* ====================================================================== *)
(** ** Ledger writer: header check and schema migration *)
(* ====================================================================== *)

(** [CONFIG.CSV_HEADERS], keyed as in the source. *)
Definition CSV_HEADERS : list (jsstring * jsstring) :=
  [ (lit "sessions", lit "session_id,user_id,repo_url,repo_name,branch,head_commit,started_at,ended_at,turn_count,total_cost_usd,interrupted_turns");
    (lit "turns", lit "session_id,user_id,turn_number,started_at,ended_at,tool_count,total_cost_usd,was_interrupted");
    (lit "commits", lit "commit_sha,session_id,user_id,repo_name,branch,commit_message,author_email,committed_at,files_changed,insertions,deletions,total_loc_changed");
    (lit "tools", lit "session_id,user_id,turn_number,tool_name,started_at,completed_at,success,processing_time_ms,input_size,output_size");
    (lit "costs", lit "session_id,user_id,turn_number,message_id,model,input_tokens,output_tokens,total_tokens,input_cost_usd,output_cost_usd,total_cost_usd,timestamp");
    (lit "prompts", lit "session_id,user_id,turn_number,category,subcategory,prompt_length,timestamp");
    (lit "gitOps", lit "session_id,user_id,operation_type,branch,remote,timestamp,success");
    (lit "compactions", lit "session_id,user_id,turn_number,timestamp,tokens_before,tokens_after,reduction_tokens,reduction_percent,compaction_type,trigger_reason") ].

(** The files of the data directory: path to content. *)
Abbreviation filesystem := (gmap jsstring jsstring).

(** [appendCSV(filePath, data)]: [fs.appendFile] creates the file when it
    is absent. *)
Definition appendCSV (filePath data : jsstring) (fs : filesystem)
    : filesystem :=
  <[filePath := default [] (fs !! filePath) ++ data ++ [NEWLINE]]> fs.

(** [array.indexOf(x)]: the first position holding [x], or -1. *)
Fixpoint indexOf_from (x : jsstring) (l : list jsstring) (i : Z) : Z :=
  match l with
  | [] => (-1)%Z
  | y :: ys => if decide (y = x) then i else indexOf_from x ys (i + 1)%Z
  end.

Definition indexOf (x : jsstring) (l : list jsstring) : Z :=
  indexOf_from x l 0%Z.

(** One element of [newValues] in the migration loop: the old value at
    [oldIndex] when the index is not negative and the value is there and
    not empty, the empty string otherwise. *)
Definition migratedValue (oldValues : list jsstring) (oldIndex : Z)
    : jsstring :=
  if (0 <=? oldIndex)%Z
  then match oldValues !! Z.to_nat oldIndex with
       | Some v => if truthy v then v else []
       | None => []
       end
  else [].

(** The lines of a file as the migration reads them: split at newlines,
    blank lines dropped. *)
Definition nonBlankLines (content : jsstring) : list jsstring :=
  filter (fun line => truthy (trim line) = true) (split NEWLINE content).

Definition backupPathOf (filePath : jsstring) (now : Z) : jsstring :=
  filePath ++ lit ".bak-" ++ String_of_Z now.

Definition migrateLine (columnMapping : list Z) (line : jsstring)
    : jsstring :=
  let oldValues := parseCSVRow line in
  let newValues := map (fun oldIndex => migratedValue oldValues oldIndex)
                       columnMapping in
  buildCSVRow (map Some newValues).

(** [migrateCSVIfNeeded(filePath, expectedHeader)]; [now] is the clock
    reading that names the backup.  A file that cannot be read leaves the
    file system as it is (the source catches the error and logs it). *)
Definition migrateCSVIfNeeded (now : Z) (filePath expectedHeader : jsstring)
    (fs : filesystem) : filesystem :=
  match fs !! filePath with
  | None => fs
  | Some content =>
      match nonBlankLines content with
      | [] => appendCSV filePath expectedHeader fs
      | existingHeader :: rows =>
          if decide (existingHeader = expectedHeader) then fs
          else
            let oldColumns := parseCSVRow existingHeader in
            let newColumns := parseCSVRow expectedHeader in
            let columnMapping :=
              map (fun newCol => indexOf newCol oldColumns) newColumns in
            let fs1 := <[backupPathOf filePath now := content]> fs in
            let migratedLines :=
              expectedHeader :: map (migrateLine columnMapping) rows in
            <[filePath := join [NEWLINE] migratedLines ++ [NEWLINE]]> fs1
      end
  end.

(** The body run by [ensureCSVHeaders] for one entry of the header table. *)
Definition ensureCSVHeader (now : Z) (filePath header : jsstring)
    (fs : filesystem) : filesystem :=
  match fs !! filePath with
  | None => appendCSV filePath header fs
  | Some _ => migrateCSVIfNeeded now filePath header fs
  end.

(** [ensureCSVHeaders]: every entry of the table, each on its own file;
    [files] gives the path of each key. *)
Definition ensureCSVHeaders (now : Z) (files : jsstring -> jsstring)
    (fs : filesystem) : filesystem :=
  fold_left (fun fs kh => ensureCSVHeader now (files kh.1) kh.2 fs)
            CSV_HEADERS fs.

(* ====================================================================== *)
(** ** Event classifier *)
(* ====================================================================== *)

(** The regular expressions of [PROMPT_PATTERNS] all have the shape
    [/\b(w1|w2|...)\b/i] with literal alternatives, so [test] holds exactly
    when, at some position, one alternative matches letter for letter up
    to case between two word boundaries. *)

(** The class [\w]. *)
Definition isWordChar (c : N) : bool :=
  ((48 <=? c) && (c <=? 57)) || ((65 <=? c) && (c <=? 90))
  || ((97 <=? c) && (c <=? 122)) || (c =? 95).

Definition isWordCharAt (c : option N) : bool :=
  match c with Some c => isWordChar c | None => false end.

(** [\b] between the character before and the character after. *)
Definition isWordBoundary (before after : option N) : bool :=
  xorb (isWordCharAt before) (isWordCharAt after).

(** Case folding of the [i] flag, on the characters that can equal one of
    the pattern's: only the letters A-Z fold onto a-z. *)
Definition foldCase (c : N) : N :=
  if (65 <=? c) && (c <=? 90) then c + 32 else c.

(** Match the literal [pattern] at the head of [text]; the result is the
    last character consumed and the rest of the text. *)
Fixpoint matchLiteral (pattern : jsstring) (last : option N)
    (text : jsstring) : option (option N * jsstring) :=
  match pattern with
  | [] => Some (last, text)
  | p :: pattern' =>
      match text with
      | [] => None
      | t :: text' =>
          if foldCase t =? foldCase p
          then matchLiteral pattern' (Some t) text'
          else None
      end
  end.

(** One alternative between word boundaries, at the current position. *)
Definition matchWordAt (before : option N) (text : jsstring)
    (alternative : jsstring) : bool :=
  isWordBoundary before (head text)
  && match matchLiteral alternative before text with
     | Some (last, rest) => isWordBoundary last (head rest)
     | None => false
     end.

Fixpoint testFrom (alternatives : list jsstring) (before : option N)
    (text : jsstring) : bool :=
  existsb (matchWordAt before text) alternatives
  || match text with
     | [] => false
     | t :: text' => testFrom alternatives (Some t) text'
     end.

(** [pattern.test(text)] for a pattern of the shape above. *)
Definition test (alternatives : list string) (text : jsstring) : bool :=
  testFrom (map lit alternatives) None text.

Module PROMPT_PATTERNS.
Definition featureDev : list string :=
  ["add"; "create"; "implement"; "build"; "new feature"; "develop";
   "initialise"; "initialize"]%string.
Definition bugFix : list string :=
  ["fix"; "bug"; "error"; "issue"; "broken"; "not working"; "doesn't work";
   "doesnt work"]%string.
Definition testing : list string :=
  ["test"; "testing"; "spec"; "unit test"; "integration test"; "e2e";
   "verify"; "validate"; "behaviour"; "behavior"]%string.
Definition refactoring : list string :=
  ["refactor"; "cleanup"; "clean up"; "reorganize"; "reorganise";
   "restructure"; "improve"; "optimize"; "optimise"]%string.
Definition documentation : list string :=
  ["document"; "documentation"; "comment"; "readme"; "docs"; "explain";
   "describe"; "summarise"; "summarize"]%string.
Definition codeUnderstanding : list string :=
  ["what"; "how"; "why"; "where"; "when"; "explain"; "understand";
   "show me"; "tell me"; "can you"; "could you"; "would you"; "find";
   "analyse"; "analyze"]%string.
Definition explanation : list string :=
  ["how does"; "how is"; "explain"; "understand"]%string.
Definition navigation : list string :=
  ["find"; "search"; "where"; "locate"]%string.
Definition debugging : list string :=
  ["debug"; "debugger"; "breakpoint"; "trace"; "inspect"; "investigate";
   "troubleshoot"]%string.
Definition codeReview : list string :=
  ["review"; "check"; "verify"; "validate"; "look at"; "examine";
   "analyse"; "analyze"]%string.
Definition configuration : list string :=
  ["config"; "configure"; "setup"; "set up"; "install"; "deploy";
   "initialise"; "initialize"]%string.
Definition versionControl : list string :=
  ["commit"; "push"; "pull"; "merge"; "branch"; "git"; "pr";
   "pull request"; "rebase"]%string.
End PROMPT_PATTERNS.

(** [categorizePrompt(promptText)]: the pair (category, subcategory). *)
Definition categorizePrompt (promptText : jsstring) : jsstring * jsstring :=
  if test PROMPT_PATTERNS.featureDev promptText then
    if test PROMPT_PATTERNS.testing promptText
    then (lit "feature_development", lit "with_tests")
    else (lit "feature_development", lit "implementation")
  else if test PROMPT_PATTERNS.bugFix promptText then
    if test PROMPT_PATTERNS.testing promptText
    then (lit "bug_fix", lit "with_tests")
    else (lit "bug_fix", lit "fix")
  else if test PROMPT_PATTERNS.testing promptText then
    (lit "testing", lit "writing_tests")
  else if test PROMPT_PATTERNS.refactoring promptText then
    (lit "refactoring", lit "code_improvement")
  else if test PROMPT_PATTERNS.documentation promptText then
    (lit "documentation", lit "writing_docs")
  else if test PROMPT_PATTERNS.codeUnderstanding promptText then
    if test PROMPT_PATTERNS.explanation promptText
    then (lit "code_understanding", lit "explanation")
    else if test PROMPT_PATTERNS.navigation promptText
    then (lit "code_understanding", lit "navigation")
    else (lit "code_understanding", lit "question")
  else if test PROMPT_PATTERNS.debugging promptText then
    (lit "debugging", lit "investigation")
  else if test PROMPT_PATTERNS.codeReview promptText then
    (lit "code_review", lit "review")
  else if test PROMPT_PATTERNS.configuration promptText then
    (lit "configuration", lit "setup")
  else if test PROMPT_PATTERNS.versionControl promptText then
    (lit "version_control", lit "git_operations")
  else (lit "general", lit "other").

(* ====================================================================== *)
(** ** Cost calculator *)
(* ====================================================================== *)

(** Rates in USD per million tokens. *)
Record rates := {
  input : Q;
  output : Q;
  cacheWrite : Q;
  cacheRead : Q
}.

(** An entry of [CONFIG.PRICING]: both tiers, or the old format with the
    rates directly in the entry. *)
Inductive modelPricing :=
  | Tiered (standard extended : rates)
  | Direct (pricing : rates).

Definition SONNET_4_5 : jsstring :=
  lit "eu.anthropic.claude-sonnet-4-5-20250929-v1:0".
Definition HAIKU_3 : jsstring :=
  lit "eu.anthropic.claude-3-haiku-20240307-v1:0".

Definition sonnetPricing : modelPricing :=
  Tiered {| input := 3.30; output := 16.50;
            cacheWrite := 4.125; cacheRead := 0.33 |}
         {| input := 6.60; output := 24.75;
            cacheWrite := 8.25; cacheRead := 0.66 |}%Q.

Definition haikuPricing : modelPricing :=
  Tiered {| input := 0.25; output := 1.25;
            cacheWrite := 0.3125; cacheRead := 0.025 |}
         {| input := 0.50; output := 1.875;
            cacheWrite := 0.625; cacheRead := 0.05 |}%Q.

(** [CONFIG.PRICING]. *)
Definition PRICING : list (jsstring * modelPricing) :=
  [ (SONNET_4_5, sonnetPricing); (HAIKU_3, haikuPricing) ].

Definition DEFAULT_MODEL : jsstring := SONNET_4_5.
Definition EXTENDED_CONTEXT_THRESHOLD : Z := 200000.

(** Property lookup in an object literal given as its list of entries
    (own properties: a model is never named after a property that objects
    inherit, such as [constructor]). *)
Fixpoint property {A} (key : jsstring) (entries : list (jsstring * A))
    : option A :=
  match entries with
  | [] => None
  | (k, v) :: rest => if decide (k = key) then Some v else property key rest
  end.

(** The token counts of a transcript entry; a field may be absent. *)
Record usage := {
  input_tokens : option Z;
  output_tokens : option Z;
  cache_creation_input_tokens : option Z;
  cache_read_input_tokens : option Z
}.

(** [x || 0] on an integral number that may be absent. *)
Definition orZero (x : option Z) : Z :=
  match x with Some n => n | None => 0%Z end.

(** [x || 0] on an amount. *)
Definition orZeroQ (x : Q) : Q :=
  if Qeq_bool x 0 then 0%Q else x.

Record costs := {
  input_cost_usd : Q;
  output_cost_usd : Q;
  cache_write_cost_usd : Q;
  cache_read_cost_usd : Q;
  total_cost_usd : Q
}.

Definition totalInputTokens (u : usage) : Z :=
  (orZero (input_tokens u) + orZero (cache_creation_input_tokens u)
   + orZero (cache_read_input_tokens u))%Z.

(** The tier selection of [calculateTokenCost]. *)
Definition selectPricing (entry : modelPricing) (u : usage) : rates :=
  match entry with
  | Tiered standard extended =>
      if (totalInputTokens u >? EXTENDED_CONTEXT_THRESHOLD)%Z
      then extended else standard
  | Direct pricing => pricing
  end.

(** The entry selected for a model name: its own, or the default model's
    when the name is absent or unknown. *)
Definition modelPricingOf (modelName : option jsstring)
    : option modelPricing :=
  match modelName ≫= (fun m => property m PRICING) with
  | Some p => Some p
  | None => property DEFAULT_MODEL PRICING
  end.

(** The second half of [calculateTokenCost]: the four category costs at
    the selected rates, each per million tokens, and their sum. *)
Definition costsAt (pricing : rates) (u : usage) : costs :=
  let inputCost :=
    (inject_Z (orZero (input_tokens u)) / 1000000 * input pricing)%Q in
  let outputCost :=
    (inject_Z (orZero (output_tokens u)) / 1000000 * output pricing)%Q in
  let cacheWriteCost :=
    (inject_Z (orZero (cache_creation_input_tokens u)) / 1000000
     * cacheWrite pricing)%Q in
  let cacheReadCost :=
    (inject_Z (orZero (cache_read_input_tokens u)) / 1000000
     * cacheRead pricing)%Q in
  {| input_cost_usd := inputCost;
     output_cost_usd := outputCost;
     cache_write_cost_usd := cacheWriteCost;
     cache_read_cost_usd := cacheReadCost;
     total_cost_usd :=
       (inputCost + outputCost + cacheWriteCost + cacheReadCost)%Q |}.

(** [calculateTokenCost(usage, modelName)]; [None] when neither the model
    nor the default model is in the table (the source then throws). *)
Definition calculateTokenCost (u : usage) (modelName : option jsstring)
    : option costs :=
  match modelPricingOf modelName with
  | None => None
  | Some modelPricing => Some (costsAt (selectPricing modelPricing u) u)
  end.

(* ====================================================================== *)
(** ** Events, environment and the state of the engine *)
(* ====================================================================== *)

(** The event object read from standard input.  Only the fields the engine
    probes are kept; an absent field is [None].  The session identifier is
    the one the host runtime puts on every event.  [tool_input_size] and
    [tool_output_size] are the lengths of the JSON text of [tool_input] and
    [tool_output] (of an empty object when the field is absent), and
    [tool_input_command] is [tool_input.command]. *)
Record eventData := {
  hook_event_name : option jsstring;
  tool_name : option jsstring;
  session_id : jsstring;
  prompt : option jsstring;
  tool_input_size : Z;
  tool_input_command : option jsstring;
  tool_output_size : Z;
  success : option bool;
  transcript_path : option jsstring;
  was_interrupted : bool;
  tokens_before : option Z;
  context_window_before : option Z;
  tokens_after : option Z;
  context_window_after : option Z;
  compaction_type : option jsstring;
  type_ : option jsstring;
  trigger_reason : option jsstring;
  reason : option jsstring
}.

(** A value handed to [buildCSVRow] by a handler. *)
Inductive cell :=
  | CStr (s : jsstring)
  | CInt (z : Z)
  | CUsd (q : Q)
  | CFixed (digits : nat) (q : Q)
  | CUndefined.

Abbreviation row := (list cell).

(** The text of a ledger line.  The two conversions of non-integral
    numbers to text are left to the JavaScript engine. *)
Section Rendering.

(** [String(x)] for a number holding an amount. *)
Variable numberToString : Q -> jsstring.

(** [x.toFixed(digits)]. *)
Variable toFixed : nat -> Q -> jsstring.

(** The argument of [escapeCSV] for a cell. *)
Definition cellValue (c : cell) : option jsstring :=
  match c with
  | CStr s => Some s
  | CInt z => Some (String_of_Z z)
  | CUsd q => Some (numberToString q)
  | CFixed digits q => Some (toFixed digits q)
  | CUndefined => None
  end.

Definition lineOf (data : row) : jsstring :=
  buildCSVRow (map cellValue data).

End Rendering.

(** One line of a transcript, already parsed: [entry.type], the usage and
    identity of [entry.message], and the epoch time of [entry.timestamp]. *)
Record transcriptEntry := {
  entry_type : jsstring;
  entry_usage : option usage;
  entry_id : option jsstring;
  entry_model : option jsstring;
  entry_time : Z
}.

Record repoInfo := {
  url : jsstring;
  name : jsstring;
  branch : jsstring;
  headCommit : jsstring
}.

(** What one handler run reads from outside the engine: the clock, the
    identity resolved at initialization, the random session identifier,
    and the parsed lines of a transcript file (none for a missing file).
    [gitOperationRow] is the row [handleGitOperations] builds for a shell
    command ([None] when the command is no git push, pull, fetch, clone or
    merge) and [gitCommitRow] the row [handleGitCommand] builds from the
    answers of git after a commit command ([None] otherwise): regular
    expressions over the command and calls to git, taken here as given. *)
Record environment := {
  now : Z;
  userId : jsstring;
  repo : repoInfo;
  generateSessionId : jsstring;
  readTranscript : jsstring -> list transcriptEntry;
  gitOperationRow : jsstring -> jsstring -> option row;
  gitCommitRow : jsstring -> jsstring -> option row
}.

(** [this.currentTurn[sessionId]]. *)
Record turn := {
  number : Z;
  startTime : Z;
  toolCount : Z;
  turnCost : Q;
  totalSessionCost : Q
}.

(** An entry of the in-flight map, [startData] in the source. *)
Module StartData.
Record t := {
  toolName : jsstring;
  turnNumber : Z;
  startTime : Z;
  inputSize : Z
}.
End StartData.

Abbreviation toolStart := StartData.t.

(** The in-flight map of one session, in key order.  Its keys are never
    array indices (each holds an underscore), so the key order of the
    object is the order of insertion, also after a round trip through the
    state file. *)
Abbreviation inflight := (list (jsstring * toolStart)).

Fixpoint getKey (key : jsstring) (m : inflight) : option toolStart :=
  match m with
  | [] => None
  | (k, v) :: rest => if decide (k = key) then Some v else getKey key rest
  end.

(** [m[key] = v]: in place when the key exists, at the end otherwise. *)
Fixpoint setKey (key : jsstring) (v : toolStart) (m : inflight) : inflight :=
  match m with
  | [] => [(key, v)]
  | (k, v') :: rest =>
      if decide (k = key) then (k, v) :: rest
      else (k, v') :: setKey key v rest
  end.

(** [delete m[key]]. *)
Definition deleteKey (key : jsstring) (m : inflight) : inflight :=
  filter (fun kv => kv.1 <> key) m.

Definition keys (m : inflight) : list jsstring := map fst m.

(** The content of a state file. *)
Record sessionState := {
  state_currentTurn : turn;
  state_toolStartData : inflight;
  state_toolCounter : Z
}.

(** The three dictionaries of the [SimpleAnalytics] object. *)
Record memory := {
  currentTurn : gmap jsstring turn;
  toolStartData : gmap jsstring inflight;
  toolCounter : gmap jsstring Z
}.

(** The eight ledgers, each the list of rows appended so far. *)
Inductive ledgerName :=
  | sessions | turns | commits | tools | costsLedger | prompts | gitOps
  | compactions.

Record ledgers := {
  sessions_csv : list row;
  turns_csv : list row;
  commits_csv : list row;
  tool_usage_csv : list row;
  costs_csv : list row;
  prompts_csv : list row;
  git_operations_csv : list row;
  compactions_csv : list row
}.

Definition ledger (f : ledgerName) (l : ledgers) : list row :=
  match f with
  | sessions => sessions_csv l
  | turns => turns_csv l
  | commits => commits_csv l
  | tools => tool_usage_csv l
  | costsLedger => costs_csv l
  | prompts => prompts_csv l
  | gitOps => git_operations_csv l
  | compactions => compactions_csv l
  end.

(** The world of the engine: the object's dictionaries, the state
    directory (session to state file), the ledgers and the error stream. *)
Record world := {
  mem : memory;
  stateDir : gmap jsstring sessionState;
  files : ledgers;
  stderr : list jsstring
}.

Definition emptyMemory : memory :=
  {| currentTurn := ∅; toolStartData := ∅; toolCounter := ∅ |}.

Definition emptyLedgers : ledgers :=
  {| sessions_csv := []; turns_csv := []; commits_csv := [];
     tool_usage_csv := []; costs_csv := []; prompts_csv := [];
     git_operations_csv := []; compactions_csv := [] |}.

Definition initialWorld : world :=
  {| mem := emptyMemory; stateDir := ∅; files := emptyLedgers; stderr := [] |}.

Definition withMem (m : memory) (w : world) : world :=
  {| mem := m; stateDir := stateDir w; files := files w; stderr := stderr w |}.

Definition withStateDir (d : gmap jsstring sessionState) (w : world) : world :=
  {| mem := mem w; stateDir := d; files := files w; stderr := stderr w |}.

Definition withFiles (l : ledgers) (w : world) : world :=
  {| mem := mem w; stateDir := stateDir w; files := l; stderr := stderr w |}.

(** [console.error(message)]. *)
Definition consoleError (message : jsstring) (w : world) : world :=
  {| mem := mem w; stateDir := stateDir w; files := files w;
     stderr := stderr w ++ [message] |}.

Definition setCurrentTurn (sessionId : jsstring) (t : turn) (w : world)
    : world :=
  withMem {| currentTurn := <[sessionId := t]> (currentTurn (mem w));
             toolStartData := toolStartData (mem w);
             toolCounter := toolCounter (mem w) |} w.

Definition setToolStartData (sessionId : jsstring) (m : inflight) (w : world)
    : world :=
  withMem {| currentTurn := currentTurn (mem w);
             toolStartData := <[sessionId := m]> (toolStartData (mem w));
             toolCounter := toolCounter (mem w) |} w.

Definition setToolCounter (sessionId : jsstring) (n : Z) (w : world)
    : world :=
  withMem {| currentTurn := currentTurn (mem w);
             toolStartData := toolStartData (mem w);
             toolCounter := <[sessionId := n]> (toolCounter (mem w)) |} w.

(** [appendCSV(this.files.f, buildCSVRow(data))]: the ledger keeps the
    values handed to [buildCSVRow]; [lineOf] below gives the line that
    reaches the file. *)
Definition appendRow (f : ledgerName) (data : row) (w : world) : world :=
  let l := files w in
  withFiles
    match f with
    | sessions =>
        {| sessions_csv := sessions_csv l ++ [data];
           turns_csv := turns_csv l; commits_csv := commits_csv l;
           tool_usage_csv := tool_usage_csv l; costs_csv := costs_csv l;
           prompts_csv := prompts_csv l;
           git_operations_csv := git_operations_csv l;
           compactions_csv := compactions_csv l |}
    | turns =>
        {| sessions_csv := sessions_csv l;
           turns_csv := turns_csv l ++ [data]; commits_csv := commits_csv l;
           tool_usage_csv := tool_usage_csv l; costs_csv := costs_csv l;
           prompts_csv := prompts_csv l;
           git_operations_csv := git_operations_csv l;
           compactions_csv := compactions_csv l |}
    | commits =>
        {| sessions_csv := sessions_csv l;
           turns_csv := turns_csv l; commits_csv := commits_csv l ++ [data];
           tool_usage_csv := tool_usage_csv l; costs_csv := costs_csv l;
           prompts_csv := prompts_csv l;
           git_operations_csv := git_operations_csv l;
           compactions_csv := compactions_csv l |}
    | tools =>
        {| sessions_csv := sessions_csv l;
           turns_csv := turns_csv l; commits_csv := commits_csv l;
           tool_usage_csv := tool_usage_csv l ++ [data];
           costs_csv := costs_csv l; prompts_csv := prompts_csv l;
           git_operations_csv := git_operations_csv l;
           compactions_csv := compactions_csv l |}
    | costsLedger =>
        {| sessions_csv := sessions_csv l;
           turns_csv := turns_csv l; commits_csv := commits_csv l;
           tool_usage_csv := tool_usage_csv l;
           costs_csv := costs_csv l ++ [data]; prompts_csv := prompts_csv l;
           git_operations_csv := git_operations_csv l;
           compactions_csv := compactions_csv l |}
    | prompts =>
        {| sessions_csv := sessions_csv l;
           turns_csv := turns_csv l; commits_csv := commits_csv l;
           tool_usage_csv := tool_usage_csv l; costs_csv := costs_csv l;
           prompts_csv := prompts_csv l ++ [data];
           git_operations_csv := git_operations_csv l;
           compactions_csv := compactions_csv l |}
    | gitOps =>
        {| sessions_csv := sessions_csv l;
           turns_csv := turns_csv l; commits_csv := commits_csv l;
           tool_usage_csv := tool_usage_csv l; costs_csv := costs_csv l;
           prompts_csv := prompts_csv l;
           git_operations_csv := git_operations_csv l ++ [data];
           compactions_csv := compactions_csv l |}
    | compactions =>
        {| sessions_csv := sessions_csv l;
           turns_csv := turns_csv l; commits_csv := commits_csv l;
           tool_usage_csv := tool_usage_csv l; costs_csv := costs_csv l;
           prompts_csv := prompts_csv l;
           git_operations_csv := git_operations_csv l;
           compactions_csv := compactions_csv l ++ [data] |}
    end w.

(* ====================================================================== *)
(** ** Event validation *)
(* ====================================================================== *)

Inductive validation :=
  | Valid
  | Invalid (error : jsstring).

Definition validEvents : list jsstring :=
  [lit "UserPromptSubmit"; lit "PreToolUse"; lit "PostToolUse";
   lit "PreCompact"; lit "Stop"].

(** Truthiness of a string field that may be absent. *)
Definition present (field : option jsstring) : bool :=
  match field with Some s => truthy s | None => false end.

(** [validateEventData(eventData)]. *)
Definition validateEventData (eventData : eventData) : validation :=
  match hook_event_name eventData with
  | None => Invalid (lit "hook_event_name is required and must be a string")
  | Some hook_event_name =>
      if negb (truthy hook_event_name)
      then Invalid (lit "hook_event_name is required and must be a string")
      else if negb (bool_decide (hook_event_name ∈ validEvents))
      then Invalid (lit "Unknown hook_event_name: " ++ hook_event_name)
      else if (bool_decide (hook_event_name = lit "PreToolUse")
               || bool_decide (hook_event_name = lit "PostToolUse"))
              && negb (present (tool_name eventData))
      then Invalid (hook_event_name ++ lit " requires tool_name")
      else Valid
  end.

(* ====================================================================== *)
(** ** Session state store *)
(* ====================================================================== *)

(** [loadTurnState(sessionId)]. *)
Definition loadTurnState (sessionId : jsstring) (w : world) : world :=
  match stateDir w !! sessionId with
  | Some state =>
      withMem
        {| currentTurn :=
             <[sessionId := state_currentTurn state]> (currentTurn (mem w));
           toolStartData :=
             <[sessionId := state_toolStartData state]>
               (toolStartData (mem w));
           toolCounter :=
             <[sessionId := state_toolCounter state]> (toolCounter (mem w)) |}
        w
  | None => w
  end.

(** [saveTurnState(sessionId)]: nothing is written without a current
    turn. *)
Definition saveTurnState (sessionId : jsstring) (w : world) : world :=
  match currentTurn (mem w) !! sessionId with
  | Some t =>
      let state :=
        {| state_currentTurn := t;
           state_toolStartData :=
             default [] (toolStartData (mem w) !! sessionId);
           state_toolCounter :=
             default 0%Z (toolCounter (mem w) !! sessionId) |} in
      withStateDir (<[sessionId := state]> (stateDir w)) w
  | None => w
  end.

(** The guard that opens four of the handlers: load the state of the
    session unless a current turn is already in memory. *)
Definition ensureLoaded (sessionId : jsstring) (w : world) : world :=
  match currentTurn (mem w) !! sessionId with
  | Some _ => w
  | None => loadTurnState sessionId w
  end.

(** [cleanupSession(sessionId)]: memory only, the state file stays. *)
Definition cleanupSession (sessionId : jsstring) (w : world) : world :=
  withMem {| currentTurn := delete sessionId (currentTurn (mem w));
             toolStartData := delete sessionId (toolStartData (mem w));
             toolCounter := delete sessionId (toolCounter (mem w)) |} w.

(* ====================================================================== *)
(** ** Turn/tool state machine *)
(* ====================================================================== *)

Definition boolCell (b : bool) : cell := CInt (if b then 1 else 0)%Z.

(** [getCurrentTurnNumber(sessionId)]. *)
Definition getCurrentTurnNumber (sessionId : jsstring) (w : world) : Z :=
  match currentTurn (mem w) !! sessionId with
  | Some t => if (number t =? 0)%Z then 1%Z else number t
  | None => 1%Z
  end.

(** [writeTurnData(sessionId, endTime, wasInterrupted)]. *)
Definition writeTurnData (env : environment) (sessionId : jsstring)
    (endTime : Z) (wasInterrupted : bool) (w : world) : world :=
  match currentTurn (mem w) !! sessionId with
  | None => w
  | Some t =>
      appendRow turns
        [CStr sessionId; CStr (userId env); CInt (number t);
         CInt (startTime t); CInt endTime; CInt (toolCount t);
         CUsd (orZeroQ (turnCost t)); boolCell wasInterrupted] w
  end.

(** [handleTurnStart(sessionId, eventData)]. *)
Definition handleTurnStart (env : environment) (sessionId : jsstring)
    (eventData : eventData) (w : world) : world :=
  let w := ensureLoaded sessionId w in
  let w :=
    match currentTurn (mem w) !! sessionId with
    | Some _ => writeTurnData env sessionId (now env) false w
    | None => w
    end in
  let current :=
    match currentTurn (mem w) !! sessionId with
    | None =>
        {| number := 1; startTime := now env; toolCount := 0;
           turnCost := 0; totalSessionCost := 0 |}
    | Some t =>
        {| number := number t + 1; startTime := now env; toolCount := 0;
           turnCost := 0; totalSessionCost := totalSessionCost t |}
    end in
  let w := setCurrentTurn sessionId current w in
  let w := saveTurnState sessionId w in
  match prompt eventData with
  | Some prompt =>
      if truthy (trim prompt) then
        let '(category, subcategory) := categorizePrompt prompt in
        appendRow prompts
          [CStr sessionId; CStr (userId env); CInt (number current);
           CStr category; CStr subcategory;
           CInt (Z.of_nat (length (trim prompt))); CInt (now env)] w
      else w
  | None => w
  end.

(** [handleGitOperations(sessionId, command)]. *)
Definition handleGitOperations (env : environment) (sessionId command : jsstring)
    (w : world) : world :=
  match gitOperationRow env sessionId command with
  | Some gitOpData => appendRow gitOps gitOpData w
  | None => w
  end.

(** [handleGitCommand(sessionId, command)]. *)
Definition handleGitCommand (env : environment) (sessionId command : jsstring)
    (w : world) : world :=
  match gitCommitRow env sessionId command with
  | Some commitData => appendRow commits commitData w
  | None => w
  end.

(** The key under which [handleToolStart] stores an invocation. *)
Definition toolKeyOf (sessionId toolName : jsstring) (counter : Z)
    : jsstring :=
  sessionId ++ lit "_" ++ toolName ++ lit "_" ++ String_of_Z counter.

(** [handleToolStart(sessionId, toolName, eventData)]. *)
Definition handleToolStart (env : environment) (sessionId toolName : jsstring)
    (eventData : eventData) (w : world) : world :=
  let w := ensureLoaded sessionId w in
  let turnNumber := getCurrentTurnNumber sessionId w in
  let w :=
    match currentTurn (mem w) !! sessionId with
    | Some t =>
        setCurrentTurn sessionId
          {| number := number t; startTime := startTime t;
             toolCount := toolCount t + 1; turnCost := turnCost t;
             totalSessionCost := totalSessionCost t |} w
    | None => w
    end in
  let counter := (default 0 (toolCounter (mem w) !! sessionId) + 1)%Z in
  let w := setToolCounter sessionId counter w in
  let toolKey := toolKeyOf sessionId toolName counter in
  let w :=
    setToolStartData sessionId
      (setKey toolKey
         {| StartData.toolName := toolName;
            StartData.turnNumber := turnNumber;
            StartData.startTime := now env;
            StartData.inputSize := tool_input_size eventData |}
         (default [] (toolStartData (mem w) !! sessionId))) w in
  let w := saveTurnState sessionId w in
  if bool_decide (toolName = lit "Bash")
     && present (tool_input_command eventData)
  then handleGitOperations env sessionId
         (default [] (tool_input_command eventData)) w
  else w.

(** The search of [handleToolEnd]: the keys in reverse order, the first
    whose entry carries the tool name. *)
Definition findMatchingKey (toolName : jsstring) (m : inflight)
    : option jsstring :=
  find (fun key =>
          match getKey key m with
          | Some startData => bool_decide (StartData.toolName startData = toolName)
          | None => false
          end)
       (rev (keys m)).

Definition noMatchWarning (toolName sessionId : jsstring) : jsstring :=
  lit "[Analytics Warning] No matching tool start found for tool: "
  ++ toolName ++ lit ", session: " ++ sessionId
  ++ lit ". Tool completion data dropped.".

(** [handleToolEnd(sessionId, toolName, eventData)]. *)
Definition handleToolEnd (env : environment) (sessionId toolName : jsstring)
    (eventData : eventData) (w : world) : world :=
  let w := ensureLoaded sessionId w in
  let matchingKey :=
    match toolStartData (mem w) !! sessionId with
    | Some m => findMatchingKey toolName m
    | None => None
    end in
  match matchingKey, toolStartData (mem w) !! sessionId with
  | Some matchingKey, Some m =>
      match truthy matchingKey, getKey matchingKey m with
      | true, Some startData =>
          let processingTime := (now env - StartData.startTime startData)%Z in
          let outputSize := tool_output_size eventData in
          let toolData :=
            [CStr sessionId; CStr (userId env);
             CInt (StartData.turnNumber startData); CStr toolName;
             CInt (StartData.startTime startData); CInt (now env);
             CStr (if default true (success eventData)
                   then lit "1" else lit "0");
             CInt processingTime; CInt (StartData.inputSize startData);
             CInt outputSize] in
          let w := appendRow tools toolData w in
          let w := setToolStartData sessionId (deleteKey matchingKey m) w in
          let w :=
            if bool_decide (toolName = lit "Bash")
               && negb (StartData.inputSize startData =? 0)%Z
               && present (tool_input_command eventData)
            then handleGitCommand env sessionId
                   (default [] (tool_input_command eventData)) w
            else w in
          saveTurnState sessionId w
      | _, _ =>
          (* an empty key is falsy; a key found by the search has an entry *)
          consoleError (noMatchWarning toolName sessionId) w
      end
  | _, _ => consoleError (noMatchWarning toolName sessionId) w
  end.

(** [a || b || 0] on token counts that may be absent. *)
Definition firstNonZero (a b : option Z) : Z :=
  if (orZero a =? 0)%Z then orZero b else orZero a.

Definition firstPresent (a b : option jsstring) (fallback : jsstring)
    : jsstring :=
  if present a then default [] a
  else if present b then default [] b else fallback.

(** [handleCompaction(sessionId, eventData)]: the turn number is read
    from memory as it is, no state is loaded. *)
Definition handleCompaction (env : environment) (sessionId : jsstring)
    (eventData : eventData) (w : world) : world :=
  let turnNumber := getCurrentTurnNumber sessionId w in
  let tokensBefore :=
    firstNonZero (tokens_before eventData) (context_window_before eventData) in
  let tokensAfter :=
    firstNonZero (tokens_after eventData) (context_window_after eventData) in
  let reductionTokens := (tokensBefore - tokensAfter)%Z in
  let reductionPercent :=
    if (0 <? tokensBefore)%Z
    then CFixed 2 (inject_Z reductionTokens / inject_Z tokensBefore * 100)%Q
    else CInt 0 in
  let compactionType :=
    firstPresent (compaction_type eventData) (type_ eventData) (lit "auto") in
  let triggerReason :=
    firstPresent (trigger_reason eventData) (reason eventData)
      (lit "threshold") in
  appendRow compactions
    [CStr sessionId; CStr (userId env); CInt turnNumber; CInt (now env);
     CInt tokensBefore; CInt tokensAfter; CInt reductionTokens;
     reductionPercent; CStr compactionType; CStr triggerReason] w.

(** A record of [parseTranscriptTokens]. *)
Record tokenRecord := {
  message_id : option jsstring;
  record_input_tokens : Z;
  record_output_tokens : Z;
  total_tokens : Z;
  model_name : option jsstring;
  timestamp : Z;
  record_costs : costs
}.

(** [parseTranscriptTokens(transcriptPath)]: one record per assistant
    entry with usage; an entry whose cost cannot be computed is skipped. *)
Definition parseTranscriptTokens (env : environment)
    (transcriptPath : jsstring) : list tokenRecord :=
  flat_map
    (fun entry =>
       if bool_decide (entry_type entry = lit "assistant") then
         match entry_usage entry with
         | Some usage =>
             match calculateTokenCost usage (entry_model entry) with
             | Some costs =>
                 [{| message_id := entry_id entry;
                     record_input_tokens := orZero (input_tokens usage);
                     record_output_tokens := orZero (output_tokens usage);
                     total_tokens :=
                       (orZero (input_tokens usage)
                        + orZero (output_tokens usage))%Z;
                     model_name := entry_model entry;
                     timestamp := entry_time entry;
                     record_costs := costs |}]
             | None => []
             end
         | None => []
         end
       else [])
    (readTranscript env transcriptPath).

(** [updateSessionRecord(sessionId, turnCount, totalCost, wasInterrupted,
    endTime)]. *)
Definition updateSessionRecord (env : environment) (sessionId : jsstring)
    (turnCount : Z) (totalCost : Q) (wasInterrupted : bool) (endTime : Z)
    (w : world) : world :=
  let startTime :=
    match currentTurn (mem w) !! sessionId with
    | Some t => if (startTime t =? 0)%Z then CStr [] else CInt (startTime t)
    | None => CStr []
    end in
  appendRow sessions
    [CStr sessionId; CStr (userId env); CStr (url (repo env));
     CStr (name (repo env)); CStr (branch (repo env));
     CStr (headCommit (repo env)); startTime; CInt endTime; CInt turnCount;
     CFixed 10 totalCost; boolCell wasInterrupted] w.

(** [handleSessionEnd(sessionId, eventData)]. *)
Definition handleSessionEnd (env : environment) (sessionId : jsstring)
    (eventData : eventData) (w : world) : world :=
  let w := ensureLoaded sessionId w in
  let turnNumber := getCurrentTurnNumber sessionId w in
  let w :=
    match present (transcript_path eventData),
          currentTurn (mem w) !! sessionId with
    | true, Some t =>
        let tokenRecords :=
          parseTranscriptTokens env (default [] (transcript_path eventData)) in
        match last tokenRecords with
        | Some latestRecord =>
            let costData :=
              [CStr sessionId; CStr (userId env); CInt turnNumber;
               CStr (if present (message_id latestRecord)
                     then default [] (message_id latestRecord) else []);
               CStr (if present (model_name latestRecord)
                     then default [] (model_name latestRecord)
                     else DEFAULT_MODEL);
               CInt (record_input_tokens latestRecord);
               CInt (record_output_tokens latestRecord);
               CInt (total_tokens latestRecord);
               CUsd (orZeroQ (input_cost_usd (record_costs latestRecord)));
               CUsd (orZeroQ (output_cost_usd (record_costs latestRecord)));
               CUsd (orZeroQ (total_cost_usd (record_costs latestRecord)));
               CInt (if (timestamp latestRecord =? 0)%Z then now env
                     else timestamp latestRecord)] in
            let w := appendRow costsLedger costData w in
            let w :=
              setCurrentTurn sessionId
                {| number := number t; startTime := startTime t;
                   toolCount := toolCount t;
                   turnCost :=
                     orZeroQ (total_cost_usd (record_costs latestRecord));
                   totalSessionCost :=
                     (totalSessionCost t
                      + orZeroQ (total_cost_usd (record_costs latestRecord)))%Q
                |} w in
            saveTurnState sessionId w
        | None => w
        end
    | _, _ => w
    end in
  let totalCost :=
    match currentTurn (mem w) !! sessionId with
    | Some t => orZeroQ (totalSessionCost t)
    | None => 0%Q
    end in
  let w :=
    updateSessionRecord env sessionId turnNumber totalCost
      (was_interrupted eventData) (now env) w in
  cleanupSession sessionId w.

(* ====================================================================== *)
(** ** Event dispatcher *)
(* ====================================================================== *)

(** [processHookEvent(eventData)]. *)
Definition processHookEvent (env : environment) (eventData : eventData)
    (w : world) : world :=
  match validateEventData eventData with
  | Invalid error =>
      consoleError (lit "[Analytics Error] Invalid event data: " ++ error) w
  | Valid =>
      let hook_event_name := default [] (hook_event_name eventData) in
      let session_id := session_id eventData in
      if bool_decide (hook_event_name = lit "UserPromptSubmit") then
        handleTurnStart env session_id eventData w
      else if bool_decide (hook_event_name = lit "PreToolUse")
              && present (tool_name eventData) then
        handleToolStart env
          (if truthy session_id then session_id else generateSessionId env)
          (default [] (tool_name eventData)) eventData w
      else if bool_decide (hook_event_name = lit "PostToolUse")
              && present (tool_name eventData) then
        handleToolEnd env session_id (default [] (tool_name eventData))
          eventData w
      else if bool_decide (hook_event_name = lit "PreCompact") then
        handleCompaction env session_id eventData w
      else if bool_decide (hook_event_name = lit "Stop") then
        handleSessionEnd env session_id eventData w
      else w
  end.

(** A run of the engine: events handled one after the other, each with
    its own environment, and process restarts, which lose the memory and
    keep the state directory and the ledgers. *)
Inductive action :=
  | Handle (env : environment) (eventData : eventData)
  | Restart.

Definition step (w : world) (a : action) : world :=
  match a with
  | Handle env eventData => processHookEvent env eventData w
  | Restart => withMem emptyMemory w
  end.

Definition run (actions : list action) (w : world) : world :=
  fold_left step actions w.

(** The turn numbers of the Turn rows of one session, in ledger order. *)
Definition turnNumbersOf (sessionId : jsstring) (rows : list row) : list Z :=
  flat_map
    (fun r =>
       match r with
       | CStr s :: _ :: CInt n :: _ =>
           if decide (s = sessionId) then [n] else []
       | _ => []
       end)
    rows.

(* ====================================================================== *)
(** ** Notions and sample inputs used in the statements below *)
(* ====================================================================== *)

(** Every rate of [extended] is strictly above its rate in [standard]. *)
Definition ratesBelow (standard extended : rates) : Prop :=
  (input standard < input extended)%Q
  /\ (output standard < output extended)%Q
  /\ (cacheWrite standard < cacheWrite extended)%Q
  /\ (cacheRead standard < cacheRead extended)%Q.

(** The example prompt of the specification. *)
Definition examplePrompt : jsstring :=
  lit "fix the broken login validation and add a test".

Definition exampleUsage (inputTokens : Z) : usage :=
  {| input_tokens := Some inputTokens; output_tokens := Some 1000%Z;
     cache_creation_input_tokens := Some 50000%Z;
     cache_read_input_tokens := None |}.

Definition blankEvent : eventData :=
  {| hook_event_name := None; tool_name := None; session_id := lit "s1";
     prompt := None; tool_input_size := 2; tool_input_command := None;
     tool_output_size := 2; success := None; transcript_path := None;
     was_interrupted := false; tokens_before := None;
     context_window_before := None; tokens_after := None;
     context_window_after := None; compaction_type := None; type_ := None;
     trigger_reason := None; reason := None |}.

Definition withKind (kind : string) (e : eventData) : eventData :=
  {| hook_event_name := Some (lit kind); tool_name := tool_name e;
     session_id := session_id e; prompt := prompt e;
     tool_input_size := tool_input_size e;
     tool_input_command := tool_input_command e;
     tool_output_size := tool_output_size e; success := success e;
     transcript_path := transcript_path e;
     was_interrupted := was_interrupted e;
     tokens_before := tokens_before e;
     context_window_before := context_window_before e;
     tokens_after := tokens_after e;
     context_window_after := context_window_after e;
     compaction_type := compaction_type e; type_ := type_ e;
     trigger_reason := trigger_reason e; reason := reason e |}.

Definition withTool (tool : string) (e : eventData) : eventData :=
  {| hook_event_name := hook_event_name e; tool_name := Some (lit tool);
     session_id := session_id e; prompt := prompt e;
     tool_input_size := tool_input_size e;
     tool_input_command := tool_input_command e;
     tool_output_size := tool_output_size e; success := success e;
     transcript_path := transcript_path e;
     was_interrupted := was_interrupted e;
     tokens_before := tokens_before e;
     context_window_before := context_window_before e;
     tokens_after := tokens_after e;
     context_window_after := context_window_after e;
     compaction_type := compaction_type e; type_ := type_ e;
     trigger_reason := trigger_reason e; reason := reason e |}.

Definition exampleEnv (t : Z) : environment :=
  {| now := t; userId := lit "dev@example.org";
     repo := {| url := lit "unknown"; name := lit "unknown";
                branch := lit "unknown"; headCommit := lit "unknown" |};
     generateSessionId := lit "session_0_x";
     readTranscript := fun _ => [];
     gitOperationRow := fun _ _ => None;
     gitCommitRow := fun _ _ => None |}.

(** The Tool Invocation row written for a completion at [now env]. *)
Definition toolRow (env : environment) (sessionId toolName : jsstring)
    (eventData : eventData) (startData : toolStart) : row :=
  [CStr sessionId; CStr (userId env);
   CInt (StartData.turnNumber startData); CStr toolName;
   CInt (StartData.startTime startData); CInt (now env);
   CStr (if default true (success eventData) then lit "1" else lit "0");
   CInt (now env - StartData.startTime startData);
   CInt (StartData.inputSize startData);
   CInt (tool_output_size eventData)].

Definition withPrompt (text : string) (e : eventData) : eventData :=
  {| hook_event_name := hook_event_name e; tool_name := tool_name e;
     session_id := session_id e; prompt := Some (lit text);
     tool_input_size := tool_input_size e;
     tool_input_command := tool_input_command e;
     tool_output_size := tool_output_size e; success := success e;
     transcript_path := transcript_path e;
     was_interrupted := was_interrupted e;
     tokens_before := tokens_before e;
     context_window_before := context_window_before e;
     tokens_after := tokens_after e;
     context_window_after := context_window_after e;
     compaction_type := compaction_type e; type_ := type_ e;
     trigger_reason := trigger_reason e; reason := reason e |}.

Definition withTranscript (path : string) (e : eventData) : eventData :=
  {| hook_event_name := hook_event_name e; tool_name := tool_name e;
     session_id := session_id e; prompt := prompt e;
     tool_input_size := tool_input_size e;
     tool_input_command := tool_input_command e;
     tool_output_size := tool_output_size e; success := success e;
     transcript_path := Some (lit path);
     was_interrupted := was_interrupted e;
     tokens_before := tokens_before e;
     context_window_before := context_window_before e;
     tokens_after := tokens_after e;
     context_window_after := context_window_after e;
     compaction_type := compaction_type e; type_ := type_ e;
     trigger_reason := trigger_reason e; reason := reason e |}.

(** An environment whose transcript holds one assistant entry. *)
Definition transcriptEnv (t : Z) : environment :=
  {| now := t; userId := lit "dev@example.org";
     repo := {| url := lit "unknown"; name := lit "unknown";
                branch := lit "unknown"; headCommit := lit "unknown" |};
     generateSessionId := lit "session_0_x";
     readTranscript := fun _ =>
       [{| entry_type := lit "assistant";
           entry_usage := Some (exampleUsage 150000);
           entry_id := Some (lit "msg_1");
           entry_model := Some HAIKU_3;
           entry_time := 940 |}];
     gitOperationRow := fun _ _ => None;
     gitCommitRow := fun _ _ => None |}.

(** A sample history of session s1, every event in a fresh process: a
    prompt, a stop that prices a transcript, a second prompt, then three
    tool starts (Bash, Read, Bash). *)
Definition sampleRun : list action :=
  [ Restart;
    Handle (exampleEnv 50)
      (withPrompt "add a login page" (withKind "UserPromptSubmit" blankEvent));
    Restart;
    Handle (transcriptEnv 950)
      (withTranscript "/tmp/t.jsonl" (withKind "Stop" blankEvent));
    Restart;
    Handle (exampleEnv 1000)
      (withPrompt "now fix it" (withKind "UserPromptSubmit" blankEvent));
    Restart;
    Handle (exampleEnv 1100)
      (withTool "Bash" (withKind "PreToolUse" blankEvent));
    Restart;
    Handle (exampleEnv 1200)
      (withTool "Read" (withKind "PreToolUse" blankEvent));
    Restart;
    Handle (exampleEnv 1300)
      (withTool "Bash" (withKind "PreToolUse" blankEvent));
    Restart ].

Definition sampleWorld : world := run sampleRun initialWorld.

Definition sampleStart (tool : string) (time : Z) : toolStart :=
  {| StartData.toolName := lit tool; StartData.turnNumber := 2;
     StartData.startTime := time; StartData.inputSize := 2 |}.

(** The invariant behind the turn numbering.  For every session: a current
    turn held in memory has the number of the turn in the state file; the
    Turn rows written so far for the session are numbered 1 to [k]; and the
    state file, when there is one, holds the turn number [k + 1]. *)
Definition turnsInvariant (w : world) : Prop :=
  forall s : jsstring,
    (forall t, currentTurn (mem w) !! s = Some t ->
       exists state, stateDir w !! s = Some state
                     /\ number (state_currentTurn state) = number t)
    /\ exists k : nat,
         turnNumbersOf s (ledger turns (files w)) = map Z.of_nat (seq 1 k)
         /\ match stateDir w !! s with
            | Some state => number (state_currentTurn state) = Z.of_nat (S k)
            | None => k = 0%nat
            end.

(** The part of the world the invariant reads. *)
Definition turnView (w : world)
    : gmap jsstring turn * gmap jsstring sessionState * list row :=
  (currentTurn (mem w), stateDir w, ledger turns (files w)).

(** What a migrated row holds, given what is done to a carried value
    ([carry]): as many values as the new header has columns; under a
    column the old header lacks, the empty string; under a column the old
    header has, first at position [p], the carried value of the old row at
    [p] (the empty string when the old row is too short). *)
Definition carriedOver (carry : jsstring -> jsstring)
    (oldColumns newColumns oldValues newValues : list jsstring) : Prop :=
  length newValues = length newColumns
  /\ forall (j : nat) (column : jsstring),
       newColumns !! j = Some column ->
       (column ∉ oldColumns -> newValues !! j = Some [])
       /\ (forall p : nat,
             oldColumns !! p = Some column ->
             (forall q : nat, (q < p)%nat -> oldColumns !! q <> Some column) ->
             newValues !! j = Some (carry (default [] (oldValues !! p)))).

(** The outcome of a migration, read from the two file contents with the
    line reader and the row parser of the source: the new file starts
    with the expected header, has as many rows as the old one, and each
    row carries the values of the old row at the same position. *)
Definition migrationOutcome (carry : jsstring -> jsstring)
    (oldContent newContent expectedHeader : jsstring) : Prop :=
  exists (existingHeader : jsstring) (rows rows' : list jsstring),
    nonBlankLines oldContent = existingHeader :: rows
    /\ nonBlankLines newContent = expectedHeader :: rows'
    /\ length rows' = length rows
    /\ forall (i : nat) (line line' : jsstring),
         rows !! i = Some line -> rows' !! i = Some line' ->
         carriedOver carry (parseCSVRow existingHeader)
           (parseCSVRow expectedHeader) (parseCSVRow line)
           (parseCSVRow line').

(** A header the migration can write back and read again: one line, not
    blank, of at least two columns. *)
Definition wellFormedHeader (header : jsstring) : bool :=
  negb (includes NEWLINE header) && truthy (trim header)
  && (2 <=? length (parseCSVRow header))%nat.

(** A commit ledger written under an older header (with a ticket column)
    by a writer that left a leading minus sign alone. *)
Definition oldCommitsHeader : jsstring :=
  lit "commit_sha,session_id,user_id,ticket_id,repo_name,branch,commit_message,author_email,committed_at,files_changed,insertions,deletions,total_loc_changed".

Definition oldCommitsRow : jsstring :=
  lit "abc123,s1,dev@example.org,PROJ-1,repo,main,-fix typo,dev@example.org,1700000000000,1,1,0,1".

Definition oldCommitsFile : jsstring :=
  oldCommitsHeader ++ [NEWLINE] ++ oldCommitsRow ++ [NEWLINE].

Definition newCommitsHeader : jsstring :=
  lit "commit_sha,session_id,user_id,repo_name,branch,commit_message,author_email,committed_at,files_changed,insertions,deletions,total_loc_changed".

Definition commitsPath : jsstring := lit ".claude/analytics/commits.csv".

Definition sampleFiles : filesystem := {[ commitsPath := oldCommitsFile ]}.

Definition migratedCommitsRow : jsstring :=
  lit "abc123,s1,dev@example.org,repo,main,'-fix typo,dev@example.org,1700000000000,1,1,0,1".

Definition migratedCommitsFile : jsstring :=
  newCommitsHeader ++ [NEWLINE] ++ migratedCommitsRow ++ [NEWLINE].

(** The shape [handleToolStart] gives the in-flight map of session [s]:
    every key is made from the session, the tool name of its entry and a
    counter value, and the counter values go up along the map, above [lo]
    and up to [hi]. *)
Fixpoint keyed (s : jsstring) (lo hi : Z) (m : inflight) : Prop :=
  match m with
  | [] => (lo <= hi)%Z
  | (key, startData) :: rest =>
      exists n : Z,
        (lo < n)%Z
        /\ key = toolKeyOf s (StartData.toolName startData) n
        /\ keyed s n hi rest
  end.

(** The invariant behind the matching of tool completions: in memory and
    in every state file the in-flight map is keyed by counter values up to
    the session's counter. *)
Definition inflightInvariant (w : world) : Prop :=
  forall s : jsstring,
    (forall m, toolStartData (mem w) !! s = Some m ->
       keyed s 0 (default 0%Z (toolCounter (mem w) !! s)) m)
    /\ (forall n, toolCounter (mem w) !! s = Some n -> (0 <= n)%Z)
    /\ (forall state, stateDir w !! s = Some state ->
          keyed s 0 (state_toolCounter state) (state_toolStartData state)).

Definition inflightView (w : world)
    : gmap jsstring inflight * gmap jsstring Z * gmap jsstring sessionState :=
  (toolStartData (mem w), toolCounter (mem w), stateDir w).

(** The example history of the specification: a prompt, a Bash call that
    starts and ends, and the next prompt, each in a fresh process. *)
Definition twoTurns : list action :=
  [ Restart;
    Handle (exampleEnv 10)
      (withPrompt "run the build" (withKind "UserPromptSubmit" blankEvent));
    Restart;
    Handle (exampleEnv 20)
      (withTool "Bash" (withKind "PreToolUse" blankEvent));
    Restart;
    Handle (exampleEnv 30)
      (withTool "Bash" (withKind "PostToolUse" blankEvent));
    Restart;
    Handle (exampleEnv 40)
      (withPrompt "thanks" (withKind "UserPromptSubmit" blankEvent)) ].

(* ====================================================================== *)
(** ** Ledger writer: appending under write failures *)
(* ====================================================================== *)

(** [appendCSV] with the answers of [fs.appendFile] made explicit.  An
    accepted call appends the text to the file, a rejected call leaves the
    file as it was. *)
Module Retry.

(** The error of a rejected call: [error.code], absent on errors that do
    not come from the operating system, and [error.message]. *)
Record error := {
  code : option jsstring;
  message : jsstring
}.

Definition MAX_RETRIES : Z := 3.
Definition RETRY_DELAY_MS : Z := 100.

(** What a call of [appendCSV] does, in order. *)
Inductive effect :=
  | AppendFile (filePath text : jsstring)
  | Sleep (ms : Z).

Inductive outcome :=
  | Returned
  | Thrown (message : jsstring).

(** The [while] loop, entered with [retries]; [attempt r] is the answer of
    [fs.appendFile] to the call made with [retries = r] ([None] when the
    call is accepted).  [trace] collects the effects so far. *)
Fixpoint loop (fuel : nat) (attempt : Z -> option error)
    (filePath data : jsstring) (retries : Z) (trace : list effect)
    (fs : filesystem) : option (outcome * list effect * filesystem) :=
  match fuel with
  | O => None
  | S fuel =>
      if (retries <? MAX_RETRIES)%Z then
        let trace := trace ++ [AppendFile filePath (data ++ [NEWLINE])] in
        match attempt retries with
        | None => Some (Returned, trace, appendCSV filePath data fs)
        | Some error =>
            if bool_decide (code error = Some (lit "EBUSY"))
               && (retries <? MAX_RETRIES - 1)%Z
            then loop fuel attempt filePath data (retries + 1)%Z
                   (trace ++ [Sleep RETRY_DELAY_MS]) fs
            else Some (Thrown (lit "Failed to write to " ++ filePath
                               ++ lit ": " ++ message error),
                       trace, fs)
        end
      else Some (Returned, trace, fs)
  end.

(** [appendCSV(filePath, data)]: the loop from [retries = 0]; it is
    entered at most [MAX_RETRIES] times. *)
Definition appendCSV (attempt : Z -> option error)
    (filePath data : jsstring) (fs : filesystem)
    : option (outcome * list effect * filesystem) :=
  loop (Z.to_nat MAX_RETRIES) attempt filePath data 0 [] fs.

(** The effects of [k] rejected calls followed by one more call. *)
Definition attempts (filePath data : jsstring) (k : nat) : list effect :=
  flat_map (fun _ => [AppendFile filePath (data ++ [NEWLINE]);
                      Sleep RETRY_DELAY_MS]) (seq 0 k)
  ++ [AppendFile filePath (data ++ [NEWLINE])].

Definition busy (answer : option error) : Prop :=
  exists error, answer = Some error /\ code error = Some (lit "EBUSY").

(** A device that is busy once and then accepts the call. *)
Definition busyOnce (retries : Z) : option error :=
  if (retries =? 0)%Z
  then Some {| code := Some (lit "EBUSY");
               message := lit "EBUSY: resource busy or locked" |}
  else None.

End Retry.

(* ====================================================================== *)
(** ** Identity of the user and of the repository *)
(* ====================================================================== *)

(** The object [readGitCache] returns: the parsed cache file, in which any
    field may be missing. *)
Record gitCache := {
  cache_userId : option jsstring;
  cache_repoUrl : option jsstring;
  cache_repoName : option jsstring;
  cache_branch : option jsstring;
  cache_headCommit : option jsstring;
  cachedAt : option Z
}.

(** What initialization reads from outside the engine: the cache file
    ([None] when it is missing or is no JSON, [readGitCache] then returns
    null), the standard output of the five git commands ([None] when the
    command fails), the two environment variables, and whether the write
    of the cache file takes effect (it is not awaited and its failure is
    ignored). *)
Record host := {
  gitCacheFile : option gitCache;
  gitConfigEmail : option jsstring;
  gitConfigName : option jsstring;
  gitRemoteUrl : option jsstring;
  gitBranch : option jsstring;
  gitHead : option jsstring;
  USER : option jsstring;
  USERNAME : option jsstring;
  cacheWritable : bool
}.

Definition withCache (cache : option gitCache) (h : host) : host :=
  {| gitCacheFile := cache; gitConfigEmail := gitConfigEmail h;
     gitConfigName := gitConfigName h; gitRemoteUrl := gitRemoteUrl h;
     gitBranch := gitBranch h; gitHead := gitHead h; USER := USER h;
     USERNAME := USERNAME h; cacheWritable := cacheWritable h |}.

(** [readGitCache(dataDir)]. *)
Definition readGitCache (h : host) : option gitCache := gitCacheFile h.

(** [getUserId()]: the cache, then git (a failing command ends the
    attempt), then the environment. *)
Definition getUserId (h : host) : jsstring :=
  let fromEnvironment := firstPresent (USER h) (USERNAME h) (lit "unknown") in
  let fromGit :=
    match gitConfigEmail h with
    | Some gitEmail =>
        if truthy (trim gitEmail) then trim gitEmail
        else match gitConfigName h with
             | Some gitName =>
                 if truthy (trim gitName) then trim gitName
                 else fromEnvironment
             | None => fromEnvironment
             end
    | None => fromEnvironment
    end in
  match readGitCache h with
  | Some cache =>
      if present (cache_userId cache) then default [] (cache_userId cache)
      else fromGit
  | None => fromGit
  end.

Definition unknownRepo : repoInfo :=
  {| url := lit "unknown"; name := lit "unknown"; branch := lit "unknown";
     headCommit := lit "unknown" |}.

Section RepoInfo.

(** The repository name cut out of the remote address by the two
    [replace] calls of [getRepoInfo], taken as given. *)
Variable repoNameOf : jsstring -> jsstring.

(** [getRepoInfo()]. *)
Definition getRepoInfo (h : host) : repoInfo :=
  let fromGit :=
    match gitRemoteUrl h, gitBranch h, gitHead h with
    | Some repoUrl, Some currentBranch, Some headCommit =>
        {| url := trim repoUrl; name := repoNameOf (trim repoUrl);
           branch := trim currentBranch; headCommit := trim headCommit |}
    | _, _, _ => unknownRepo
    end in
  match readGitCache h with
  | Some cache =>
      if present (cache_repoUrl cache) && present (cache_repoName cache)
         && present (cache_branch cache)
      then {| url := default [] (cache_repoUrl cache);
              name := default [] (cache_repoName cache);
              branch := default [] (cache_branch cache);
              headCommit :=
                if present (cache_headCommit cache)
                then default [] (cache_headCommit cache)
                else lit "unknown" |}
      else fromGit
  | None => fromGit
  end.

(** [writeGitCache(dataDir, data)]: a write that fails is ignored. *)
Definition writeGitCache (data : gitCache) (h : host) : host :=
  if cacheWritable h then withCache (Some data) h else h.

(** The identity part of [initialize()] at clock reading [now]: the
    identity the run works with and the host it leaves behind.  (The
    header check between the two is [ensureCSVHeaders] above; it does not
    touch the cache file.) *)
Definition initialize (now : Z) (h : host) : jsstring * repoInfo * host :=
  let userId := getUserId h in
  let repoInfo := getRepoInfo h in
  (userId, repoInfo,
   writeGitCache
     {| cache_userId := Some userId;
        cache_repoUrl := Some (url repoInfo);
        cache_repoName := Some (name repoInfo);
        cache_branch := Some (branch repoInfo);
        cache_headCommit := Some (headCommit repoInfo);
        cachedAt := Some now |} h).

End RepoInfo.


(* ====================================================================== *)
(** ** Further notions and sample inputs *)
(* ====================================================================== *)

(** A row of the older commit ledger none of whose values begins with a
    formula character, and the ledger holding it. *)
Definition cleanCommitsRow : jsstring :=
  lit "abc123,s1,dev@example.org,PROJ-1,repo,main,fix typo,dev@example.org,1700000000000,1,1,0,1".

Definition cleanCommitsFile : jsstring :=
  oldCommitsHeader ++ [NEWLINE] ++ cleanCommitsRow ++ [NEWLINE].

Definition cleanFiles : filesystem := {[ commitsPath := cleanCommitsFile ]}.

(** A commit ledger that already has the current header. *)
Definition currentFiles : filesystem :=
  {[ commitsPath := migratedCommitsFile ]}.

(** The event kind whose handler writes a ledger. *)
Definition writerOf (f : ledgerName) : jsstring :=
  match f with
  | turns | prompts => lit "UserPromptSubmit"
  | gitOps => lit "PreToolUse"
  | tools | commits => lit "PostToolUse"
  | compactions => lit "PreCompact"
  | sessions | costsLedger => lit "Stop"
  end.

(** What the engine holds about one session: its three entries in memory
    and its state file. *)
Definition sessionView (s : jsstring) (w : world)
    : option turn * option inflight * option Z * option sessionState :=
  (currentTurn (mem w) !! s, toolStartData (mem w) !! s,
   toolCounter (mem w) !! s, stateDir w !! s).


#[global] Instance ledgerName_eq_dec : EqDecision ledgerName.
Proof. solve_decision. Defined.


(** From [l] to [l'] every ledger kept its rows and got at most one more,
    at its end, and only the ledgers of [fs] got one. *)
Definition appended (fs : list ledgerName) (l l' : ledgers) : Prop :=
  forall f : ledgerName,
    exists rows : list row,
      ledger f l' = ledger f l ++ rows
      /\ (length rows <= 1)%nat
      /\ (rows <> [] -> f ∈ fs).


(** A run in which every event is handled by a process of its own, as
    the main program does: the memory is empty when the event arrives. *)
Definition freshRun (events : list (environment * eventData)) : list action :=
  flat_map (fun event => [Restart; Handle event.1 event.2]) events.

(** The turn number of the row of a ledger whose third column holds it. *)
Definition turnNumberOf (r : row) : option Z :=
  match r with
  | _ :: _ :: CInt n :: _ => Some n
  | _ => None
  end.


(** The state file of session s1 after the example history. *)
Definition twoTurnsState : sessionState :=
  {| state_currentTurn :=
       {| number := 2; startTime := 40; toolCount := 0; turnCost := 0;
          totalSessionCost := 0 |};
     state_toolStartData := [];
     state_toolCounter := 1 |}.


(** The Cost row written at a stop for the latest record of the
    transcript. *)
Definition costRow (env : environment) (sessionId : jsstring)
    (turnNumber : Z) (latestRecord : tokenRecord) : row :=
  [CStr sessionId; CStr (userId env); CInt turnNumber;
   CStr (if present (message_id latestRecord)
         then default [] (message_id latestRecord) else []);
   CStr (if present (model_name latestRecord)
         then default [] (model_name latestRecord) else DEFAULT_MODEL);
   CInt (record_input_tokens latestRecord);
   CInt (record_output_tokens latestRecord);
   CInt (total_tokens latestRecord);
   CUsd (orZeroQ (input_cost_usd (record_costs latestRecord)));
   CUsd (orZeroQ (output_cost_usd (record_costs latestRecord)));
   CUsd (orZeroQ (total_cost_usd (record_costs latestRecord)));
   CInt (if (timestamp latestRecord =? 0)%Z then now env
         else timestamp latestRecord)].

(** The Session row written at a stop. *)
Definition sessionRow (env : environment) (sessionId : jsstring)
    (startTime : cell) (turnCount : Z) (totalCost : Q)
    (wasInterrupted : bool) : row :=
  [CStr sessionId; CStr (userId env); CStr (url (repo env));
   CStr (name (repo env)); CStr (branch (repo env));
   CStr (headCommit (repo env)); startTime; CInt (now env); CInt turnCount;
   CFixed 10 totalCost; boolCell wasInterrupted].

(** The current turn after a stop that priced a record costing [c]. *)
Definition pricedTurn (t : turn) (c : Q) : turn :=
  {| number := number t; startTime := startTime t; toolCount := toolCount t;
     turnCost := c; totalSessionCost := (totalSessionCost t + c)%Q |}.


(** The Stop event of the sample history and the record its transcript
    yields. *)
Definition sampleStop : eventData :=
  withTranscript "/tmp/t.jsonl" (withKind "Stop" blankEvent).

Definition sampleRecord : tokenRecord :=
  {| message_id := Some (lit "msg_1");
     record_input_tokens := 150000; record_output_tokens := 1000;
     total_tokens := 151000; model_name := Some HAIKU_3; timestamp := 940;
     record_costs :=
       costsAt {| input := 0.25; output := 1.25; cacheWrite := 0.3125;
                  cacheRead := 0.025 |}%Q (exampleUsage 150000) |}.


(** A transcript entry that yields a record: an assistant entry with
    usage. *)
Definition billable (entry : transcriptEntry) : bool :=
  bool_decide (entry_type entry = lit "assistant")
  && bool_decide (is_Some (entry_usage entry)).

(** The record [r] is the one made from the entry [entry]. *)
Definition recordOf (r : tokenRecord) (entry : transcriptEntry) : Prop :=
  message_id r = entry_id entry
  /\ model_name r = entry_model entry
  /\ timestamp r = entry_time entry
  /\ exists u : usage,
       entry_usage entry = Some u
       /\ record_input_tokens r = orZero (input_tokens u)
       /\ record_output_tokens r = orZero (output_tokens u)
       /\ total_tokens r
          = (orZero (input_tokens u) + orZero (output_tokens u))%Z
       /\ calculateTokenCost u (entry_model entry) = Some (record_costs r).


(** A machine without git and without a cache file, and the same machine
    once git answers. *)
Definition bareHost : host :=
  {| gitCacheFile := None; gitConfigEmail := None; gitConfigName := None;
     gitRemoteUrl := None; gitBranch := None; gitHead := None;
     USER := Some (lit "dev"); USERNAME := None; cacheWritable := true |}.

Definition configuredHost : host :=
  {| gitCacheFile := None;
     gitConfigEmail := Some (lit "dev@example.org ");
     gitConfigName := Some (lit "Dev");
     gitRemoteUrl := Some (lit "https://example.org/team/repo.git");
     gitBranch := Some (lit "main"); gitHead := Some (lit "abc123");
     USER := Some (lit "dev"); USERNAME := None; cacheWritable := true |}.


(** The last column of a Turn row, [was_interrupted]. *)
Definition wasInterruptedOf (r : row) : option cell := r !! 7%nat.


(** An event the dispatcher hands to [handleToolStart], and the number of
    such events in a list. *)
Definition isToolStart (eventData : eventData) : bool :=
  bool_decide (hook_event_name eventData = Some (lit "PreToolUse"))
  && present (tool_name eventData).

Definition toolStartsIn (events : list (environment * eventData)) : Z :=
  Z.of_nat (length (filter (fun event => isToolStart event.2 = true) events)).

(** The state file of session [s] holds a turn with this number, start
    time and tool count. *)
Definition turnOnFile (s : jsstring) (w : world) (n started count : Z)
    : Prop :=
  exists state,
    stateDir w !! s = Some state
    /\ number (state_currentTurn state) = n
    /\ startTime (state_currentTurn state) = started
    /\ toolCount (state_currentTurn state) = count.


(** The state file of session s1 after the sample history. *)
Definition sampleState : sessionState :=
  Eval vm_compute in default twoTurnsState (stateDir sampleWorld !! lit "s1").


(** A decimal digit. *)
Definition isDigit (c : N) : Prop := 48 <= c <= 57.


(** The paths of the eight ledger files, by key of the header table, as
    the constructor sets them (from the project directory). *)
Definition ledgerPath (key : jsstring) : jsstring :=
  lit ".claude/analytics/"
  ++ (if decide (key = lit "tools") then lit "tool_usage"
      else if decide (key = lit "gitOps") then lit "git_operations"
      else key)
  ++ lit ".csv".


(* ====================================================================== *)
(** ** Facts about strings and the ledger discipline *)
(* ====================================================================== *)

Lemma includes_cons c x s : includes c (x :: s) = (c =? x) || includes c s.
Proof. reflexivity. Qed.

Lemma includes_app c s t :
  includes c (s ++ t) = includes c s || includes c t.
Proof. unfold includes. apply existsb_app. Qed.

Lemma includes_false c s : includes c s = false <-> ~ In c s.
Proof.
  unfold includes. split.
  - intros H Hin. assert (existsb (N.eqb c) s = true); [|congruence].
    apply existsb_exists. exists c. split; [done|apply N.eqb_refl].
  - intros H. destruct (existsb (N.eqb c) s) eqn:E; [|done].
    apply existsb_exists in E as (x & Hx & Heq).
    apply N.eqb_eq in Heq. by subst.
Qed.

(** The four moves of the row parser. *)
Lemma parse_end result current inQuotes :
  parseCSVRow_from [] result current inQuotes = result ++ [current].
Proof. reflexivity. Qed.

Lemma parse_char c rest result current inQuotes :
  c <> QUOTE -> (c <> COMMA \/ inQuotes = true) ->
  parseCSVRow_from (c :: rest) result current inQuotes
  = parseCSVRow_from rest result (current ++ [c]) inQuotes.
Proof.
  intros Hq Hc. cbn [parseCSVRow_from].
  apply N.eqb_neq in Hq. rewrite Hq.
  destruct Hc as [Hc | ->].
  - apply N.eqb_neq in Hc. by rewrite Hc.
  - by rewrite andb_false_r.
Qed.

Lemma parse_comma rest result current :
  parseCSVRow_from (COMMA :: rest) result current false
  = parseCSVRow_from rest (result ++ [current]) [] false.
Proof. reflexivity. Qed.

Lemma parse_quote_pair rest result current :
  parseCSVRow_from (QUOTE :: QUOTE :: rest) result current true
  = parseCSVRow_from rest result (current ++ [QUOTE]) true.
Proof. reflexivity. Qed.

Lemma parse_quote_toggle rest result current inQuotes :
  hd_error rest <> Some QUOTE \/ inQuotes = false ->
  parseCSVRow_from (QUOTE :: rest) result current inQuotes
  = parseCSVRow_from rest result current (negb inQuotes).
Proof.
  intros H. cbn [parseCSVRow_from]. rewrite N.eqb_refl.
  destruct rest as [|n rest]; [done|].
  destruct H as [H | ->]; [|done].
  destruct (N.eqb_spec n QUOTE) as [->|]; [by destruct H|].
  by rewrite andb_false_r.
Qed.

(** Outside quotes, a run of plain characters is copied to the field. *)
Lemma parse_plain s : forall tail result current,
  includes COMMA s = false -> includes QUOTE s = false ->
  parseCSVRow_from (s ++ tail) result current false
  = parseCSVRow_from tail result (current ++ s) false.
Proof.
  induction s as [|c s IH]; intros tail result current Hc Hq.
  - by rewrite app_nil_r.
  - rewrite includes_cons in Hc, Hq.
    apply orb_false_elim in Hc as [Hc1 Hc2].
    apply orb_false_elim in Hq as [Hq1 Hq2].
    apply N.eqb_neq in Hc1, Hq1.
    rewrite <- app_comm_cons, parse_char by (try left; congruence).
    rewrite IH by done. by rewrite <- app_assoc.
Qed.

Lemma doubleQuotes_cons c s :
  doubleQuotes (c :: s)
  = (if c =? QUOTE then [QUOTE; QUOTE] else [c]) ++ doubleQuotes s.
Proof. reflexivity. Qed.

(** Inside quotes, the doubled text followed by the closing quote yields
    the text, provided a quote does not follow the closing one. *)
Lemma parse_quoted s : forall tail result current,
  hd_error tail <> Some QUOTE ->
  parseCSVRow_from (doubleQuotes s ++ QUOTE :: tail) result current true
  = parseCSVRow_from tail result (current ++ s) false.
Proof.
  induction s as [|c s IH]; intros tail result current Htail.
  - rewrite app_nil_r. cbn [doubleQuotes flat_map app].
    by rewrite parse_quote_toggle by (by left).
  - rewrite doubleQuotes_cons.
    destruct (N.eqb_spec c QUOTE) as [->|Hne].
    + cbn [app]. rewrite parse_quote_pair, IH by done.
      by rewrite <- app_assoc.
    + cbn [app]. rewrite parse_char by (try right; done).
      rewrite IH by done. by rewrite <- app_assoc.
Qed.

(** One escaped field, read back. *)
Lemma parse_escaped v tail result current :
  hd_error tail <> Some QUOTE ->
  parseCSVRow_from (escapeCSV (Some v) ++ tail) result current false
  = parseCSVRow_from tail result (current ++ neutralize v) false.
Proof.
  intros Htail. unfold escapeCSV. cbv zeta.
  destruct (needsQuoting (neutralize v)) eqn:Hq.
  - rewrite <- app_comm_cons, <- app_assoc. cbn [app].
    rewrite parse_quote_toggle by (by right).
    by apply parse_quoted.
  - unfold needsQuoting in Hq.
    apply orb_false_elim in Hq as [Hq _].
    apply orb_false_elim in Hq as [Hc Hq].
    by apply parse_plain.
Qed.

Lemma buildCSVRow_cons v w vs :
  buildCSVRow (v :: w :: vs) = escapeCSV v ++ COMMA :: buildCSVRow (w :: vs).
Proof. reflexivity. Qed.

Lemma buildCSVRow_single v : buildCSVRow [v] = escapeCSV v.
Proof. unfold buildCSVRow. cbn. apply app_nil_r. Qed.

(** A whole row of string values, read back from any loop state outside
    quotes. *)
Lemma parse_build_from vs : forall v result,
  parseCSVRow_from (buildCSVRow (map Some (v :: vs))) result [] false
  = result ++ map neutralize (v :: vs).
Proof.
  induction vs as [|w vs IH]; intros v result.
  - cbn [map]. rewrite buildCSVRow_single.
    rewrite <- (app_nil_r (escapeCSV (Some v))).
    by rewrite parse_escaped.
  - cbn [map] in *. rewrite buildCSVRow_cons.
    rewrite parse_escaped by (cbn; unfold COMMA, QUOTE; congruence).
    rewrite parse_comma, IH. cbn [app]. by rewrite <- app_assoc.
Qed.

Lemma parse_build vs :
  vs <> [] -> parseCSVRow (buildCSVRow (map Some vs)) = map neutralize vs.
Proof.
  destruct vs as [|v vs]; [done|]. intros _.
  unfold parseCSVRow. by rewrite parse_build_from.
Qed.

Lemma neutralize_trigger v :
  startsWithFormulaTrigger v = true -> neutralize v = APOSTROPHE :: v.
Proof.
  intros H. unfold neutralize. rewrite H.
  destruct v; [done|reflexivity].
Qed.

Lemma neutralize_plain v :
  startsWithFormulaTrigger v = false -> neutralize v = v.
Proof. intros H. unfold neutralize. by rewrite H, andb_false_r. Qed.

Lemma needsQuoting_neutralize v :
  needsQuoting (neutralize v) = needsQuoting v.
Proof.
  unfold neutralize.
  destruct ((0 <? length v)%nat && startsWithFormulaTrigger v); [|done].
  unfold needsQuoting. by rewrite !includes_cons.
Qed.

Lemma doubleQuotes_app s t :
  doubleQuotes (s ++ t) = doubleQuotes s ++ doubleQuotes t.
Proof. unfold doubleQuotes. apply flat_map_app. Qed.

Lemma parse_escaped_single v :
  parseCSVRow (escapeCSV (Some v)) = [neutralize v].
Proof.
  unfold parseCSVRow. rewrite <- (app_nil_r (escapeCSV (Some v))).
  by rewrite parse_escaped.
Qed.

Lemma escapeCSV_undefined : escapeCSV None = escapeCSV (Some []).
Proof. reflexivity. Qed.

Lemma buildCSVRow_default vs :
  buildCSVRow vs = buildCSVRow (map Some (map (default []) vs)).
Proof.
  unfold buildCSVRow. f_equal. rewrite !map_map. apply map_ext.
  by intros [v|].
Qed.

(** A ledger line read back: one field per cell, holding the text of the
    cell as the escaping stored it, empty for an undefined cell. *)
Lemma parseCSVRow_lineOf numberToString toFixed (data : row) :
  data <> [] ->
  parseCSVRow (lineOf numberToString toFixed data)
  = map (fun c => neutralize
                    (default [] (cellValue numberToString toFixed c)))
        data.
Proof.
  intros Hdata. unfold lineOf. rewrite buildCSVRow_default.
  rewrite parse_build by (by destruct data).
  by rewrite !map_map.
Qed.

(* ====================================================================== *)
(** ** The ledger discipline (claims C8 and C10) *)
(* ====================================================================== *)

(** C8.  A value that begins with the formula character [=] is stored with
    an apostrophe in front: the stored text is the prefixed value (quote
    wrapped when it needs to be), and the row parser reads the prefixed
    value back.  A value that holds a comma, a double quote or a newline is
    stored between double quotes with every double quote of its (possibly
    prefixed) text doubled, and is read back whole. *)
Theorem escapeCSV_discipline (value : jsstring) :
  (head value = Some EQUALS ->
     head (neutralize value) = Some APOSTROPHE
     /\ escapeCSV (Some value)
        = (if needsQuoting value
           then QUOTE :: doubleQuotes (APOSTROPHE :: value) ++ [QUOTE]
           else APOSTROPHE :: value)
     /\ parseCSVRow (escapeCSV (Some value)) = [APOSTROPHE :: value])
  /\ (includes COMMA value = true \/ includes QUOTE value = true
      \/ includes NEWLINE value = true ->
     escapeCSV (Some value)
     = QUOTE :: doubleQuotes (neutralize value) ++ [QUOTE]
     /\ (forall a b, neutralize value = a ++ QUOTE :: b ->
           doubleQuotes (neutralize value)
           = doubleQuotes a ++ QUOTE :: QUOTE :: doubleQuotes b)
     /\ parseCSVRow (escapeCSV (Some value)) = [neutralize value]).
Proof.
  split.
  - intros Hhead. destruct value as [|c rest]; [done|].
    injection Hhead as ->.
    assert (Hn : neutralize (EQUALS :: rest) = APOSTROPHE :: EQUALS :: rest)
      by (by apply neutralize_trigger).
    split; [by rewrite Hn|]. split.
    + unfold escapeCSV. cbv zeta.
      rewrite needsQuoting_neutralize, Hn. done.
    + by rewrite parse_escaped_single, Hn.
  - intros Hspecial.
    assert (Hq : needsQuoting value = true).
    { unfold needsQuoting.
      destruct Hspecial as [-> | [-> | ->]];
        by rewrite ?orb_true_r, ?orb_true_l. }
    split; [|split].
    + unfold escapeCSV. cbv zeta. by rewrite needsQuoting_neutralize, Hq.
    + intros a b ->. rewrite doubleQuotes_app. f_equal.
    + apply parse_escaped_single.
Qed.

(** C8 at the value [=SUM(A1,A2)], which has both the formula character
    and a comma. *)
Lemma escapeCSV_discipline_witness :
  escapeCSV (Some (lit "=SUM(A1,A2)"))
  = QUOTE :: lit "'=SUM(A1,A2)" ++ [QUOTE]
  /\ parseCSVRow (escapeCSV (Some (lit "=SUM(A1,A2)")))
     = [lit "'=SUM(A1,A2)"].
Proof.
  destruct (escapeCSV_discipline (lit "=SUM(A1,A2)")) as [H1 H2].
  destruct H1 as (_ & _ & Hparse); [reflexivity|].
  destruct H2 as (Hshape & _ & _); [left; reflexivity|].
  split; [rewrite Hshape; reflexivity | exact Hparse].
Defined.

(** C10.  A row built from a non-empty list of strings, none of which
    begins with a formula character, parses back to the list itself,
    whatever commas, double quotes and newlines the strings hold. *)
Theorem parseCSVRow_buildCSVRow (values : list jsstring) :
  values <> [] ->
  Forall (fun v => startsWithFormulaTrigger v = false) values ->
  parseCSVRow (buildCSVRow (map Some values)) = values.
Proof.
  intros Hne Hplain. rewrite parse_build by done.
  induction Hplain as [|v vs Hv _ IH]; [done|].
  cbn [map]. rewrite neutralize_plain by done.
  destruct vs as [|w vs]; [done|]. by rewrite IH.
Qed.

(** C10 at a row with a comma, double quotes, a newline and an empty
    value. *)
Lemma parseCSVRow_buildCSVRow_witness :
  parseCSVRow
    (buildCSVRow
       (map Some [lit "a,b"; lit "say " ++ [QUOTE] ++ lit "hi" ++ [QUOTE];
                  lit "two" ++ [NEWLINE] ++ lit "lines"; []]))
  = [lit "a,b"; lit "say " ++ [QUOTE] ++ lit "hi" ++ [QUOTE];
     lit "two" ++ [NEWLINE] ++ lit "lines"; []].
Proof.
  apply parseCSVRow_buildCSVRow.
  - discriminate.
  - repeat constructor.
Defined.

(* ====================================================================== *)
(** ** The classifier on the example prompt (claim C4) *)
(* ====================================================================== *)

(** C4, as the specification states it, does not hold: the example prompt
    is not classified as bug_fix / with_tests. *)
Lemma examplePrompt_not_bug_fix :
  categorizePrompt examplePrompt <> (lit "bug_fix", lit "with_tests").
Proof. vm_compute. discriminate. Qed.

(** C4, amended.  The feature-development group is tested first and its
    word [add] stands in the prompt between word boundaries, so the prompt
    is classified as feature_development; the testing group matches too
    ([test]), which gives the subcategory with_tests. *)
Theorem examplePrompt_classification :
  test PROMPT_PATTERNS.featureDev examplePrompt = true
  /\ test PROMPT_PATTERNS.bugFix examplePrompt = true
  /\ test PROMPT_PATTERNS.testing examplePrompt = true
  /\ categorizePrompt examplePrompt
     = (lit "feature_development", lit "with_tests").
Proof. repeat split; vm_compute; reflexivity. Qed.

(* ====================================================================== *)
(** ** Tiered pricing (claim C3) *)
(* ====================================================================== *)

(** Every entry the table can select has both tiers, the tiers of the
    Sonnet or of the Haiku entry. *)
Lemma modelPricingOf_cases modelName :
  modelPricingOf modelName = Some sonnetPricing
  \/ modelPricingOf modelName = Some haikuPricing.
Proof.
  assert (Hdefault : property DEFAULT_MODEL PRICING = Some sonnetPricing)
    by reflexivity.
  unfold modelPricingOf. destruct modelName as [m|]; cbn [mbind option_bind].
  - assert (Hm : property m PRICING
                 = if decide (SONNET_4_5 = m) then Some sonnetPricing
                   else if decide (HAIKU_3 = m) then Some haikuPricing
                   else None) by reflexivity.
    rewrite Hm, Hdefault. repeat case_decide; auto.
  - rewrite Hdefault. by left.
Qed.

Lemma tiers_of_table modelName standard extended :
  modelPricingOf modelName = Some (Tiered standard extended) ->
  ratesBelow standard extended.
Proof.
  destruct (modelPricingOf_cases modelName) as [-> | ->];
    intros [= <- <-]; repeat split; reflexivity.
Qed.

Lemma category_cost_le (n : Z) (x y : Q) :
  (0 <= n)%Z -> (x < y)%Q ->
  (inject_Z n / 1000000 * x <= inject_Z n / 1000000 * y)%Q.
Proof.
  intros Hn Hxy. rewrite Zle_Qle in Hn.
  rewrite (Qmult_comm _ x), (Qmult_comm _ y).
  apply Qmult_le_compat_r; [by apply Qlt_le_weak|].
  apply Qle_shift_div_l; [reflexivity|]. by rewrite Qmult_0_l.
Qed.

Lemma category_cost_lt (n : Z) (x y : Q) :
  (0 < n)%Z -> (x < y)%Q ->
  (inject_Z n / 1000000 * x < inject_Z n / 1000000 * y)%Q.
Proof.
  intros Hn Hxy. rewrite Zlt_Qlt in Hn.
  rewrite (Qmult_comm _ x), (Qmult_comm _ y).
  apply Qmult_lt_compat_r; [|done].
  apply Qlt_shift_div_l; [reflexivity|]. by rewrite Qmult_0_l.
Qed.

Lemma total_cost_increases standard extended (u : usage) :
  ratesBelow standard extended ->
  (0 <= orZero (input_tokens u))%Z ->
  (0 <= orZero (output_tokens u))%Z ->
  (0 <= orZero (cache_creation_input_tokens u))%Z ->
  (0 <= orZero (cache_read_input_tokens u))%Z ->
  (0 < orZero (input_tokens u) + orZero (output_tokens u)
       + orZero (cache_creation_input_tokens u)
       + orZero (cache_read_input_tokens u))%Z ->
  (total_cost_usd (costsAt standard u)
   < total_cost_usd (costsAt extended u))%Q.
Proof.
  intros (Hi & Ho & Hw & Hr) Ha Hb Hc Hd Hs.
  cbn [costsAt total_cost_usd].
  pose proof (category_cost_le _ _ _ Ha Hi) as Hia.
  pose proof (category_cost_le _ _ _ Hb Ho) as Hob.
  pose proof (category_cost_le _ _ _ Hc Hw) as Hwc.
  pose proof (category_cost_le _ _ _ Hd Hr) as Hrd.
  assert (Hpos : (0 < orZero (input_tokens u))%Z
                 \/ (0 < orZero (output_tokens u))%Z
                 \/ (0 < orZero (cache_creation_input_tokens u))%Z
                 \/ (0 < orZero (cache_read_input_tokens u))%Z) by lia.
  destruct Hpos as [Hp | [Hp | [Hp | Hp]]].
  - pose proof (category_cost_lt _ _ _ Hp Hi). lra.
  - pose proof (category_cost_lt _ _ _ Hp Ho). lra.
  - pose proof (category_cost_lt _ _ _ Hp Hw). lra.
  - pose proof (category_cost_lt _ _ _ Hp Hr). lra.
Qed.



(* ====================================================================== *)
(** ** Rejected events (claim C9) *)
(* ====================================================================== *)

Lemma validEvents_spec k :
  k ∈ validEvents <->
  k = lit "UserPromptSubmit" \/ k = lit "PreToolUse"
  \/ k = lit "PostToolUse" \/ k = lit "PreCompact" \/ k = lit "Stop".
Proof.
  unfold validEvents. rewrite !elem_of_cons, elem_of_nil. tauto.
Qed.

Lemma validate_missing_kind eventData :
  hook_event_name eventData = None ->
  validateEventData eventData
  = Invalid (lit "hook_event_name is required and must be a string").
Proof. intros H. unfold validateEventData. by rewrite H. Qed.

Lemma validate_unknown_kind eventData k :
  hook_event_name eventData = Some k -> k ∉ validEvents ->
  exists error, validateEventData eventData = Invalid error.
Proof.
  intros H Hk. unfold validateEventData. rewrite H.
  destruct (truthy k); cbn [negb]; [|eauto].
  rewrite bool_decide_eq_false_2 by done. cbn [negb]. eauto.
Qed.

Lemma validate_missing_tool eventData k :
  hook_event_name eventData = Some k ->
  k = lit "PreToolUse" \/ k = lit "PostToolUse" ->
  present (tool_name eventData) = false ->
  validateEventData eventData = Invalid (k ++ lit " requires tool_name").
Proof.
  intros H Hk Htool. unfold validateEventData. rewrite H, Htool.
  destruct Hk as [-> | ->]; reflexivity.
Qed.

(** C9.  An event without the event-kind field, with a kind outside the
    five known ones, or of kind PreToolUse or PostToolUse without a tool
    name, fails validation; processing it writes the validation error to
    the error stream and returns with every ledger, the state directory
    and the memory as they were. *)
Theorem invalid_event_dropped (env : environment) (eventData : eventData)
    (w : world) :
  hook_event_name eventData = None
  \/ (exists k, hook_event_name eventData = Some k /\ k ∉ validEvents)
  \/ (exists k, hook_event_name eventData = Some k
      /\ (k = lit "PreToolUse" \/ k = lit "PostToolUse")
      /\ present (tool_name eventData) = false) ->
  exists error,
    validateEventData eventData = Invalid error
    /\ stderr (processHookEvent env eventData w)
       = stderr w ++ [lit "[Analytics Error] Invalid event data: " ++ error]
    /\ files (processHookEvent env eventData w) = files w
    /\ stateDir (processHookEvent env eventData w) = stateDir w
    /\ mem (processHookEvent env eventData w) = mem w.
Proof.
  intros Hbad.
  assert (Hinvalid : exists error, validateEventData eventData = Invalid error).
  { destruct Hbad as [Hnone | [(k & Hk & Hunknown) | (k & Hk & Htool & Hno)]].
    - rewrite validate_missing_kind by done. eauto.
    - by eapply validate_unknown_kind.
    - erewrite validate_missing_tool by done. eauto. }
  destruct Hinvalid as [error Herror]. exists error.
  unfold processHookEvent. rewrite Herror. done.
Qed.

(** C9 at a PostToolUse event without a tool name. *)
Lemma invalid_event_dropped_witness :
  exists error,
    validateEventData (withKind "PostToolUse" blankEvent) = Invalid error
    /\ stderr (processHookEvent (exampleEnv 5)
                 (withKind "PostToolUse" blankEvent) initialWorld)
       = stderr initialWorld
         ++ [lit "[Analytics Error] Invalid event data: " ++ error]
    /\ files (processHookEvent (exampleEnv 5)
                (withKind "PostToolUse" blankEvent) initialWorld)
       = files initialWorld
    /\ stateDir (processHookEvent (exampleEnv 5)
                   (withKind "PostToolUse" blankEvent) initialWorld)
       = stateDir initialWorld
    /\ mem (processHookEvent (exampleEnv 5)
              (withKind "PostToolUse" blankEvent) initialWorld)
       = mem initialWorld.
Proof.
  apply (invalid_event_dropped (exampleEnv 5)
           (withKind "PostToolUse" blankEvent) initialWorld).
  right. right. exists (lit "PostToolUse").
  split; [reflexivity|]. split; [right; reflexivity | reflexivity].
Defined.

(* ====================================================================== *)
(** ** Dispatch of valid events *)
(* ====================================================================== *)

Lemma dispatch_UserPromptSubmit env eventData w :
  hook_event_name eventData = Some (lit "UserPromptSubmit") ->
  processHookEvent env eventData w
  = handleTurnStart env (session_id eventData) eventData w.
Proof.
  intros H. unfold processHookEvent, validateEventData. rewrite H.
  reflexivity.
Qed.

Lemma dispatch_PreToolUse env eventData w T :
  hook_event_name eventData = Some (lit "PreToolUse") ->
  tool_name eventData = Some T -> truthy T = true ->
  processHookEvent env eventData w
  = handleToolStart env
      (if truthy (session_id eventData) then session_id eventData
       else generateSessionId env) T eventData w.
Proof.
  intros H HT Ht. unfold processHookEvent, validateEventData.
  rewrite H, HT. cbn [present]. rewrite Ht. reflexivity.
Qed.

Lemma dispatch_PostToolUse env eventData w T :
  hook_event_name eventData = Some (lit "PostToolUse") ->
  tool_name eventData = Some T -> truthy T = true ->
  processHookEvent env eventData w
  = handleToolEnd env (session_id eventData) T eventData w.
Proof.
  intros H HT Ht. unfold processHookEvent, validateEventData.
  rewrite H, HT. cbn [present]. rewrite Ht. reflexivity.
Qed.

Lemma dispatch_PreCompact env eventData w :
  hook_event_name eventData = Some (lit "PreCompact") ->
  processHookEvent env eventData w
  = handleCompaction env (session_id eventData) eventData w.
Proof.
  intros H. unfold processHookEvent, validateEventData. rewrite H.
  reflexivity.
Qed.

Lemma dispatch_Stop env eventData w :
  hook_event_name eventData = Some (lit "Stop") ->
  processHookEvent env eventData w
  = handleSessionEnd env (session_id eventData) eventData w.
Proof.
  intros H. unfold processHookEvent, validateEventData. rewrite H.
  reflexivity.
Qed.

(* ====================================================================== *)
(** ** The in-flight map *)
(* ====================================================================== *)

Lemma getKey_In key m startData :
  getKey key m = Some startData -> In (key, startData) m.
Proof.
  induction m as [|[k v] m IH]; [done|].
  cbn [getKey]. case_decide as Hk.
  - intros [= <-]. subst. by left.
  - intros H. right. by apply IH.
Qed.

Lemma getKey_NoDup key m startData :
  NoDup (keys m) -> In (key, startData) m -> getKey key m = Some startData.
Proof.
  induction m as [|[k v] m IH]; [done|].
  cbn [keys map fst]. intros Hnodup Hin.
  apply NoDup_cons in Hnodup as [Hfresh Hnodup].
  cbn [getKey]. destruct Hin as [[= -> ->] | Hin].
  - by rewrite decide_True.
  - rewrite decide_False; [by apply IH|].
    intros ->. apply Hfresh. apply list_elem_of_In.
    change key with (fst (key, startData)). by apply in_map.
Qed.

Lemma find_first {A} (p : A -> bool) (l1 l2 : list A) (x : A) :
  (forall y, In y l1 -> p y = false) -> p x = true ->
  find p (l1 ++ x :: l2) = Some x.
Proof.
  intros Hl1 Hx. induction l1 as [|y l1 IH]; cbn [app find].
  - by rewrite Hx.
  - rewrite (Hl1 y) by (by left). apply IH. intros z Hz. apply Hl1. by right.
Qed.

Lemma find_nothing {A} (p : A -> bool) (l : list A) :
  (forall y, In y l -> p y = false) -> find p l = None.
Proof.
  intros Hl. induction l as [|y l IH]; [done|]. cbn [find].
  rewrite (Hl y) by (by left). apply IH. intros z Hz. apply Hl. by right.
Qed.

Lemma deleteKey_app key m1 m2 :
  deleteKey key (m1 ++ m2) = deleteKey key m1 ++ deleteKey key m2.
Proof. unfold deleteKey. apply filter_app. Qed.

Lemma deleteKey_absent key m : key ∉ keys m -> deleteKey key m = m.
Proof.
  induction m as [|[k v] m IH]; [done|].
  cbn [keys map fst]. intros Hnot.
  apply not_elem_of_cons in Hnot as [Hne Hnot].
  unfold deleteKey. rewrite filter_cons_True by (cbn; congruence).
  f_equal. by apply IH.
Qed.

(** The search finds the last entry that carries the tool name, its key
    leads back to that entry, and deleting the key removes that entry
    alone. *)
Lemma findMatchingKey_last toolName m before key startData after :
  NoDup (keys m) ->
  m = before ++ (key, startData) :: after ->
  StartData.toolName startData = toolName ->
  Forall (fun kv => StartData.toolName kv.2 <> toolName) after ->
  findMatchingKey toolName m = Some key
  /\ getKey key m = Some startData
  /\ deleteKey key m = before ++ after.
Proof.
  intros Hnodup -> Hname Hafter.
  assert (Hget : getKey key (before ++ (key, startData) :: after)
                 = Some startData).
  { apply getKey_NoDup; [done|]. apply in_or_app. right. by left. }
  split; [|split; [done|]].
  - unfold findMatchingKey, keys.
    rewrite map_app. cbn [map fst]. rewrite rev_app_distr. cbn [rev].
    rewrite <- app_assoc. cbn [app]. apply find_first.
    + intros k Hk. apply in_rev, in_map_iff in Hk as ([k' v] & <- & Hin).
      cbn [fst].
      rewrite (getKey_NoDup k' _ v Hnodup)
        by (apply in_or_app; right; by right).
      apply bool_decide_eq_false_2.
      rewrite Forall_forall in Hafter.
      apply (Hafter (k', v)). by apply list_elem_of_In.
    + rewrite Hget. by apply bool_decide_eq_true_2.
  - unfold keys in Hnodup. rewrite map_app in Hnodup. cbn [map fst] in Hnodup.
    apply NoDup_app in Hnodup as (_ & Hdisjoint & Hrest).
    apply NoDup_cons in Hrest as [Hfresh _].
    rewrite deleteKey_app. change ((key, startData) :: after)
      with ([(key, startData)] ++ after). rewrite deleteKey_app.
    rewrite (deleteKey_absent key after) by done.
    rewrite (deleteKey_absent key before).
    + unfold deleteKey. rewrite filter_cons_False by (cbn; tauto). done.
    + intros Hin. apply (Hdisjoint key Hin). by left.
Qed.

Lemma findMatchingKey_none toolName m :
  Forall (fun kv => StartData.toolName kv.2 <> toolName) m ->
  findMatchingKey toolName m = None.
Proof.
  intros Hall. unfold findMatchingKey. apply find_nothing.
  intros k _. destruct (getKey k m) as [v|] eqn:Hget; [|done].
  apply bool_decide_eq_false_2. apply getKey_In in Hget.
  rewrite Forall_forall in Hall. apply (Hall (k, v)).
  by apply list_elem_of_In.
Qed.

(* ====================================================================== *)
(** ** What each primitive step leaves alone *)
(* ====================================================================== *)

Lemma ledger_appendRow_same f data w :
  ledger f (files (appendRow f data w)) = ledger f (files w) ++ [data].
Proof. by destruct f. Qed.

Lemma ledger_appendRow_other f g data w :
  f <> g -> ledger g (files (appendRow f data w)) = ledger g (files w).
Proof. by destruct f, g. Qed.

Lemma mem_appendRow f data w : mem (appendRow f data w) = mem w.
Proof. done. Qed.

Lemma stateDir_appendRow f data w :
  stateDir (appendRow f data w) = stateDir w.
Proof. done. Qed.

Lemma stderr_appendRow f data w : stderr (appendRow f data w) = stderr w.
Proof. done. Qed.

Lemma files_loadTurnState s w : files (loadTurnState s w) = files w.
Proof. unfold loadTurnState. by destruct (stateDir w !! s). Qed.

Lemma stateDir_loadTurnState s w : stateDir (loadTurnState s w) = stateDir w.
Proof. unfold loadTurnState. by destruct (stateDir w !! s). Qed.

Lemma stderr_loadTurnState s w : stderr (loadTurnState s w) = stderr w.
Proof. unfold loadTurnState. by destruct (stateDir w !! s). Qed.

Lemma files_ensureLoaded s w : files (ensureLoaded s w) = files w.
Proof.
  unfold ensureLoaded. destruct (currentTurn (mem w) !! s); [done|].
  apply files_loadTurnState.
Qed.

Lemma stateDir_ensureLoaded s w : stateDir (ensureLoaded s w) = stateDir w.
Proof.
  unfold ensureLoaded. destruct (currentTurn (mem w) !! s); [done|].
  apply stateDir_loadTurnState.
Qed.

Lemma stderr_ensureLoaded s w : stderr (ensureLoaded s w) = stderr w.
Proof.
  unfold ensureLoaded. destruct (currentTurn (mem w) !! s); [done|].
  apply stderr_loadTurnState.
Qed.

Lemma files_saveTurnState s w : files (saveTurnState s w) = files w.
Proof. unfold saveTurnState. by destruct (currentTurn (mem w) !! s). Qed.

Lemma mem_saveTurnState s w : mem (saveTurnState s w) = mem w.
Proof. unfold saveTurnState. by destruct (currentTurn (mem w) !! s). Qed.

Lemma stderr_saveTurnState s w : stderr (saveTurnState s w) = stderr w.
Proof. unfold saveTurnState. by destruct (currentTurn (mem w) !! s). Qed.

Lemma mem_handleGitCommand env s command w :
  mem (handleGitCommand env s command w) = mem w.
Proof. unfold handleGitCommand. by destruct (gitCommitRow env s command). Qed.

Lemma stateDir_handleGitCommand env s command w :
  stateDir (handleGitCommand env s command w) = stateDir w.
Proof. unfold handleGitCommand. by destruct (gitCommitRow env s command). Qed.

Lemma stderr_handleGitCommand env s command w :
  stderr (handleGitCommand env s command w) = stderr w.
Proof. unfold handleGitCommand. by destruct (gitCommitRow env s command). Qed.

Lemma ledger_handleGitCommand env s command w f :
  f <> commits ->
  ledger f (files (handleGitCommand env s command w)) = ledger f (files w).
Proof.
  intros Hf. unfold handleGitCommand.
  destruct (gitCommitRow env s command); [|done].
  by apply ledger_appendRow_other.
Qed.

Lemma mem_handleGitOperations env s command w :
  mem (handleGitOperations env s command w) = mem w.
Proof.
  unfold handleGitOperations. by destruct (gitOperationRow env s command).
Qed.

Lemma stateDir_handleGitOperations env s command w :
  stateDir (handleGitOperations env s command w) = stateDir w.
Proof.
  unfold handleGitOperations. by destruct (gitOperationRow env s command).
Qed.

Lemma ledger_handleGitOperations env s command w f :
  f <> gitOps ->
  ledger f (files (handleGitOperations env s command w)) = ledger f (files w).
Proof.
  intros Hf. unfold handleGitOperations.
  destruct (gitOperationRow env s command); [|done].
  by apply ledger_appendRow_other.
Qed.

(** A load into a memory without a current turn for the session brings
    the three parts of the state file. *)
Lemma ensureLoaded_fresh s w state :
  currentTurn (mem w) !! s = None -> stateDir w !! s = Some state ->
  currentTurn (mem (ensureLoaded s w)) !! s = Some (state_currentTurn state)
  /\ toolStartData (mem (ensureLoaded s w)) !! s
     = Some (state_toolStartData state)
  /\ toolCounter (mem (ensureLoaded s w)) !! s
     = Some (state_toolCounter state).
Proof.
  intros Hmem Hdisk. unfold ensureLoaded, loadTurnState.
  rewrite Hmem, Hdisk. cbn. by rewrite !lookup_insert_eq.
Qed.

(* ====================================================================== *)
(** ** Tool completion (claims C2 and C5) *)
(* ====================================================================== *)

Lemma handleToolEnd_found env s T eventData w m key startData :
  toolStartData (mem (ensureLoaded s w)) !! s = Some m ->
  findMatchingKey T m = Some key -> truthy key = true ->
  getKey key m = Some startData ->
  handleToolEnd env s T eventData w
  = saveTurnState s
      ((if bool_decide (T = lit "Bash")
           && negb (StartData.inputSize startData =? 0)%Z
           && present (tool_input_command eventData)
        then handleGitCommand env s
               (default [] (tool_input_command eventData))
        else id)
         (setToolStartData s (deleteKey key m)
            (appendRow tools (toolRow env s T eventData startData)
               (ensureLoaded s w)))).
Proof.
  intros Hm Hfind Hkey Hget. unfold handleToolEnd. cbv zeta.
  rewrite Hm, Hfind, Hkey, Hget. unfold toolRow.
  by destruct (bool_decide (T = lit "Bash")
               && negb (StartData.inputSize startData =? 0)%Z
               && present (tool_input_command eventData)).
Qed.

Lemma handleToolEnd_dropped env s T eventData w :
  (forall m, toolStartData (mem (ensureLoaded s w)) !! s = Some m ->
             findMatchingKey T m = None) ->
  handleToolEnd env s T eventData w
  = consoleError (noMatchWarning T s) (ensureLoaded s w).
Proof.
  intros Hnone. unfold handleToolEnd. cbv zeta.
  destruct (toolStartData (mem (ensureLoaded s w)) !! s) as [m|] eqn:Hm;
    [|done].
  by rewrite (Hnone m).
Qed.

(** A completion that finds its start, from any world whose in-flight
    map has distinct keys. *)
Lemma handleToolEnd_matching (env : environment) (eventData : eventData)
    (w : world) (T : jsstring) (m before after : inflight)
    (key : jsstring) (startData : toolStart) :
  hook_event_name eventData = Some (lit "PostToolUse") ->
  tool_name eventData = Some T -> truthy T = true ->
  toolStartData (mem (ensureLoaded (session_id eventData) w))
    !! session_id eventData = Some m ->
  NoDup (keys m) -> truthy key = true ->
  m = before ++ (key, startData) :: after ->
  StartData.toolName startData = T ->
  Forall (fun kv => StartData.toolName kv.2 <> T) after ->
  let s := session_id eventData in
  let w0 := ensureLoaded s w in
  let w' := processHookEvent env eventData w in
  ledger tools (files w')
  = ledger tools (files w)
    ++ [[CStr s; CStr (userId env);
         CInt (StartData.turnNumber startData); CStr T;
         CInt (StartData.startTime startData); CInt (now env);
         CStr (if default true (success eventData)
               then lit "1" else lit "0");
         CInt (now env - StartData.startTime startData);
         CInt (StartData.inputSize startData);
         CInt (tool_output_size eventData)]]
  /\ toolStartData (mem w') !! s = Some (before ++ after)
  /\ (forall s', s' <> s ->
        toolStartData (mem w') !! s' = toolStartData (mem w0) !! s')
  /\ (forall t, currentTurn (mem w0) !! s = Some t ->
        stateDir w' !! s
        = Some {| state_currentTurn := t;
                  state_toolStartData := before ++ after;
                  state_toolCounter :=
                    default 0%Z (toolCounter (mem w0) !! s) |})
  /\ (forall f, f <> tools -> f <> commits ->
        ledger f (files w') = ledger f (files w)).
Proof.
  intros Hkind Htool HT Hm Hnodup Hkey Hsplit Hname Hafter s w0 w'.
  destruct (findMatchingKey_last T m before key startData after)
    as (Hfind & Hget & Hdelete); try done.
  assert (Hw' : w' = handleToolEnd env s T eventData w)
    by (by apply dispatch_PostToolUse).
  rewrite (handleToolEnd_found env s T eventData w m key startData) in Hw'
    by done.
  rewrite Hdelete in Hw'. fold w0 in Hw'.
  set (git := if bool_decide (T = lit "Bash")
                 && negb (StartData.inputSize startData =? 0)%Z
                 && present (tool_input_command eventData)
              then handleGitCommand env s
                     (default [] (tool_input_command eventData))
              else id) in Hw'.
  assert (Hgit_mem : forall x, mem (git x) = mem x).
  { intros x. unfold git. case_match; [apply mem_handleGitCommand|done]. }
  assert (Hgit_dir : forall x, stateDir (git x) = stateDir x).
  { intros x. unfold git. case_match; [apply stateDir_handleGitCommand|done]. }
  assert (Hgit_ledger : forall x f, f <> commits ->
            ledger f (files (git x)) = ledger f (files x)).
  { intros x f Hf. unfold git.
    case_match; [by apply ledger_handleGitCommand|done]. }
  assert (Hfiles0 : files w0 = files w) by apply files_ensureLoaded.
  rewrite Hw'. repeat split.
  - rewrite files_saveTurnState, Hgit_ledger by done.
    cbn [setToolStartData withMem files].
    rewrite ledger_appendRow_same. unfold toolRow. by rewrite Hfiles0.
  - rewrite mem_saveTurnState, Hgit_mem. cbn. apply lookup_insert_eq.
  - intros s' Hs'. rewrite mem_saveTurnState, Hgit_mem. cbn.
    by rewrite lookup_insert_ne.
  - intros t Ht. unfold saveTurnState. rewrite Hgit_mem, Hgit_dir. cbn.
    rewrite Ht. cbn. by rewrite !lookup_insert_eq.
  - intros f Hf1 Hf2. rewrite files_saveTurnState, Hgit_ledger by done.
    cbn [setToolStartData withMem files].
    rewrite ledger_appendRow_other by done. by rewrite Hfiles0.
Qed.

(** C5.  A PostToolUse event whose tool name no in-flight entry of its
    session carries: the warning goes to the error stream and nothing
    else happens.  No ledger gets a row, the state directory is as
    before, and the memory is the memory the event started with, completed
    by the load of the session's state file when the session had no
    current turn in memory; in a fresh process it is the persisted state
    itself, in-flight map included. *)
Theorem unmatched_tool_end (env : environment) (eventData : eventData)
    (w : world) (T : jsstring) :
  hook_event_name eventData = Some (lit "PostToolUse") ->
  tool_name eventData = Some T -> truthy T = true ->
  (forall m,
     toolStartData (mem (ensureLoaded (session_id eventData) w))
       !! session_id eventData = Some m ->
     Forall (fun kv => StartData.toolName kv.2 <> T) m) ->
  let s := session_id eventData in
  let w' := processHookEvent env eventData w in
  files w' = files w
  /\ stateDir w' = stateDir w
  /\ mem w' = mem (ensureLoaded s w)
  /\ stderr w' = stderr w ++ [noMatchWarning T s]
  /\ (forall state,
        currentTurn (mem w) !! s = None -> stateDir w !! s = Some state ->
        currentTurn (mem w') !! s = Some (state_currentTurn state)
        /\ toolStartData (mem w') !! s = Some (state_toolStartData state)
        /\ toolCounter (mem w') !! s = Some (state_toolCounter state)).
Proof.
  intros Hkind Htool HT Hnone s w'.
  assert (Hw' : w' = consoleError (noMatchWarning T s) (ensureLoaded s w)).
  { unfold w'. rewrite (dispatch_PostToolUse env eventData w T) by done.
    apply handleToolEnd_dropped. intros m Hm.
    apply findMatchingKey_none. by apply Hnone. }
  rewrite Hw'. cbn [consoleError files stateDir mem stderr].
  rewrite files_ensureLoaded, stateDir_ensureLoaded, stderr_ensureLoaded.
  repeat split; try done; by apply ensureLoaded_fresh.
Qed.

(** C5 at the sample history: a Grep completion with Bash, Read and Bash
    in flight. *)
Lemma unmatched_tool_end_witness :
  files (processHookEvent (exampleEnv 1450)
           (withTool "Grep" (withKind "PostToolUse" blankEvent)) sampleWorld)
  = files sampleWorld
  /\ stateDir (processHookEvent (exampleEnv 1450)
                 (withTool "Grep" (withKind "PostToolUse" blankEvent))
                 sampleWorld)
     = stateDir sampleWorld
  /\ stderr (processHookEvent (exampleEnv 1450)
               (withTool "Grep" (withKind "PostToolUse" blankEvent))
               sampleWorld)
     = stderr sampleWorld ++ [noMatchWarning (lit "Grep") (lit "s1")].
Proof.
  destruct (unmatched_tool_end (exampleEnv 1450)
              (withTool "Grep" (withKind "PostToolUse" blankEvent))
              sampleWorld (lit "Grep"))
    as (Hfiles & Hdir & _ & Herr & _).
  - reflexivity.
  - reflexivity.
  - reflexivity.
  - intros m Hm. vm_compute in Hm. injection Hm as <-.
    repeat constructor; vm_compute; discriminate.
  - split; [exact Hfiles | split; [exact Hdir | exact Herr]].
Defined.

(* ====================================================================== *)
(** ** Session stop without a transcript (claim C6) *)
(* ====================================================================== *)

Lemma orZeroQ_eq (c : Q) : (orZeroQ c == c)%Q.
Proof.
  unfold orZeroQ. destruct (Qeq_bool c 0) eqn:Hc; [|reflexivity].
  apply Qeq_bool_iff in Hc. by symmetry.
Qed.

Lemma handleSessionEnd_no_transcript env s eventData w :
  present (transcript_path eventData) = false ->
  handleSessionEnd env s eventData w
  = cleanupSession s
      (updateSessionRecord env s
         (getCurrentTurnNumber s (ensureLoaded s w))
         match currentTurn (mem (ensureLoaded s w)) !! s with
         | Some t => orZeroQ (totalSessionCost t)
         | None => 0%Q
         end
         (was_interrupted eventData) (now env) (ensureLoaded s w)).
Proof. intros Hpath. unfold handleSessionEnd. cbv zeta. by rewrite Hpath. Qed.

(** C6.  A Stop event without a transcript path, handled by a process
    that starts without the session in memory, for a session whose state
    file carries the cumulative cost [c]: one row is appended to the
    session ledger, and its total-cost cell is [c] formatted with ten
    decimals (the [|| 0] of the source leaves the amount as it is).  The
    amount comes from the state file: no other ledger changes, the cost
    ledger included, and the state directory is as before. *)
Theorem session_end_without_transcript (env : environment)
    (eventData : eventData) (w : world) (state : sessionState) :
  hook_event_name eventData = Some (lit "Stop") ->
  present (transcript_path eventData) = false ->
  currentTurn (mem w) !! session_id eventData = None ->
  stateDir w !! session_id eventData = Some state ->
  let s := session_id eventData in
  let t := state_currentTurn state in
  let c := totalSessionCost t in
  let w' := processHookEvent env eventData w in
  ledger sessions (files w')
  = ledger sessions (files w)
    ++ [[CStr s; CStr (userId env); CStr (url (repo env));
         CStr (name (repo env)); CStr (branch (repo env));
         CStr (headCommit (repo env));
         (if (startTime t =? 0)%Z then CStr [] else CInt (startTime t));
         CInt (now env);
         CInt (if (number t =? 0)%Z then 1 else number t);
         CFixed 10 (orZeroQ c);
         boolCell (was_interrupted eventData)]]
  /\ (orZeroQ c == c)%Q
  /\ (forall f, f <> sessions -> ledger f (files w') = ledger f (files w))
  /\ stateDir w' = stateDir w.
Proof.
  intros Hkind Hpath Hmem Hdisk s t c w'.
  destruct (ensureLoaded_fresh s w state Hmem Hdisk) as (Hturn & _ & _).
  assert (Hw' : w' = handleSessionEnd env s eventData w)
    by (by apply dispatch_Stop).
  rewrite handleSessionEnd_no_transcript in Hw' by done.
  unfold getCurrentTurnNumber in Hw'. rewrite Hturn in Hw'.
  rewrite Hw'. unfold cleanupSession, updateSessionRecord.
  cbn [withMem files stateDir mem]. rewrite Hturn.
  split; [|split; [|split]].
  - by rewrite ledger_appendRow_same, files_ensureLoaded.
  - apply orZeroQ_eq.
  - intros f Hf. rewrite ledger_appendRow_other by done.
    by rewrite files_ensureLoaded.
  - by rewrite stateDir_appendRow, stateDir_ensureLoaded.
Qed.

(** C6 at the sample history, whose state file carries the cost of one
    priced transcript entry. *)
Lemma session_end_without_transcript_witness :
  exists startCell turnCell interruptedCell,
    ledger sessions
      (files (processHookEvent (exampleEnv 1500)
                (withKind "Stop" blankEvent) sampleWorld))
    = ledger sessions (files sampleWorld)
      ++ [[CStr (lit "s1"); CStr (lit "dev@example.org");
           CStr (lit "unknown"); CStr (lit "unknown"); CStr (lit "unknown");
           CStr (lit "unknown"); startCell; CInt 1500; turnCell;
           CFixed 10
             (orZeroQ
                (0 + orZeroQ
                       (total_cost_usd
                          (costsAt {| input := 0.25; output := 1.25;
                                      cacheWrite := 0.3125;
                                      cacheRead := 0.025 |}%Q
                                   (exampleUsage 150000)))));
           interruptedCell]].
Proof.
  destruct (session_end_without_transcript (exampleEnv 1500)
              (withKind "Stop" blankEvent) sampleWorld
              {| state_currentTurn :=
                   {| number := 2; startTime := 1000; toolCount := 3;
                      turnCost := 0;
                      totalSessionCost :=
                        0 + orZeroQ
                              (total_cost_usd
                                 (costsAt {| input := 0.25; output := 1.25;
                                             cacheWrite := 0.3125;
                                             cacheRead := 0.025 |}%Q
                                          (exampleUsage 150000))) |};
                 state_toolStartData :=
                   [(toolKeyOf (lit "s1") (lit "Bash") 1,
                     sampleStart "Bash" 1100);
                    (toolKeyOf (lit "s1") (lit "Read") 2,
                     sampleStart "Read" 1200);
                    (toolKeyOf (lit "s1") (lit "Bash") 3,
                     sampleStart "Bash" 1300)];
                 state_toolCounter := 3 |})
    as (Hrow & _).
  - reflexivity.
  - reflexivity.
  - reflexivity.
  - vm_compute. reflexivity.
  - eexists _, _, _. exact Hrow.
Defined.

(* ====================================================================== *)
(** ** Turn numbering (claim C1) *)
(* ====================================================================== *)

Lemma invariant_view w w1 :
  turnView w1 = turnView w -> turnsInvariant w -> turnsInvariant w1.
Proof.
  unfold turnView. intros [= Hturn Hdir Hrows] Hinv s.
  unfold turnsInvariant in Hinv. cbn [ledger] in *.
  rewrite Hturn, Hdir, Hrows. apply Hinv.
Qed.

Lemma invariant_initial : turnsInvariant initialWorld.
Proof.
  intros s. split.
  - intros t Ht. cbn in Ht. by rewrite lookup_empty in Ht.
  - exists 0%nat. cbn. by rewrite lookup_empty.
Qed.

Lemma invariant_restart w :
  turnsInvariant w -> turnsInvariant (withMem emptyMemory w).
Proof.
  intros Hinv s. split.
  - intros t Ht. cbn in Ht. by rewrite lookup_empty in Ht.
  - apply Hinv.
Qed.

Lemma invariant_ensureLoaded s0 w :
  turnsInvariant w -> turnsInvariant (ensureLoaded s0 w).
Proof.
  intros Hinv. unfold ensureLoaded.
  destruct (currentTurn (mem w) !! s0) eqn:Hmem; [done|].
  unfold loadTurnState. destruct (stateDir w !! s0) as [state|] eqn:Hdisk;
    [|done].
  intros s. split; [|apply Hinv].
  intros t. cbn. destruct (decide (s = s0)) as [->|Hne].
  - rewrite lookup_insert_eq. intros [= <-]. eauto.
  - rewrite lookup_insert_ne by done. apply Hinv.
Qed.

Lemma ensureLoaded_none s w :
  currentTurn (mem (ensureLoaded s w)) !! s = None ->
  stateDir (ensureLoaded s w) !! s = None.
Proof.
  unfold ensureLoaded. destruct (currentTurn (mem w) !! s) eqn:Hmem.
  - by rewrite Hmem.
  - unfold loadTurnState. destruct (stateDir w !! s) eqn:Hdisk; [|done].
    cbn. by rewrite lookup_insert_eq.
Qed.

Lemma invariant_saveTurnState s0 w :
  turnsInvariant w -> turnsInvariant (saveTurnState s0 w).
Proof.
  intros Hinv. unfold saveTurnState.
  destruct (currentTurn (mem w) !! s0) as [t|] eqn:Hmem; [|done].
  destruct (Hinv s0) as [Hmem0 (k & Hrows & Hdisk)].
  destruct (Hmem0 t Hmem) as (state & Hstate & Hnumber).
  rewrite Hstate in Hdisk.
  intros s. cbn. destruct (decide (s = s0)) as [->|Hne].
  - rewrite lookup_insert_eq. split.
    + intros t' Ht'. rewrite Hmem in Ht'. injection Ht' as <-. eauto.
    + exists k. split; [done|]. cbn. congruence.
  - rewrite lookup_insert_ne by done. apply Hinv.
Qed.

Lemma invariant_setCurrentTurn_same s0 t t' w :
  currentTurn (mem w) !! s0 = Some t -> number t' = number t ->
  turnsInvariant w -> turnsInvariant (setCurrentTurn s0 t' w).
Proof.
  intros Hmem Hnumber Hinv s. split; [|apply Hinv].
  intros t1. cbn. destruct (decide (s = s0)) as [->|Hne].
  - rewrite lookup_insert_eq. intros [= <-]. rewrite Hnumber.
    by apply Hinv.
  - rewrite lookup_insert_ne by done. apply Hinv.
Qed.

Lemma invariant_cleanupSession s0 w :
  turnsInvariant w -> turnsInvariant (cleanupSession s0 w).
Proof.
  intros Hinv s. split; [|apply Hinv].
  intros t. cbn. destruct (decide (s = s0)) as [->|Hne].
  - by rewrite lookup_delete_eq.
  - rewrite lookup_delete_ne by done. apply Hinv.
Qed.

Lemma invariant_appendRow f data w :
  f <> turns -> turnsInvariant w -> turnsInvariant (appendRow f data w).
Proof.
  intros Hf. apply invariant_view. unfold turnView.
  by rewrite ledger_appendRow_other.
Qed.

Lemma turnNumbersOf_app s rows1 rows2 :
  turnNumbersOf s (rows1 ++ rows2)
  = turnNumbersOf s rows1 ++ turnNumbersOf s rows2.
Proof. unfold turnNumbersOf. apply flat_map_app. Qed.

(** The heart of [handleTurnStart]: closing the open turn and opening the
    next one keeps the numbering. *)
Lemma invariant_turn_start env s0 w :
  turnsInvariant w ->
  (currentTurn (mem w) !! s0 = None -> stateDir w !! s0 = None) ->
  let w1 :=
    match currentTurn (mem w) !! s0 with
    | Some _ => writeTurnData env s0 (now env) false w
    | None => w
    end in
  let current :=
    match currentTurn (mem w1) !! s0 with
    | None =>
        {| number := 1; startTime := now env; toolCount := 0;
           turnCost := 0; totalSessionCost := 0 |}
    | Some t =>
        {| number := number t + 1; startTime := now env; toolCount := 0;
           turnCost := 0; totalSessionCost := totalSessionCost t |}
    end in
  turnsInvariant (saveTurnState s0 (setCurrentTurn s0 current w1)).
Proof.
  intros Hinv Hloaded w1 current.
  assert (Hmem1 : mem w1 = mem w).
  { unfold w1, writeTurnData. by destruct (currentTurn (mem w) !! s0). }
  assert (Hdir1 : stateDir w1 = stateDir w).
  { unfold w1, writeTurnData. by destruct (currentTurn (mem w) !! s0). }
  unfold saveTurnState. cbn [setCurrentTurn withMem mem currentTurn].
  rewrite lookup_insert_eq. cbn. rewrite Hdir1.
  destruct (Hinv s0) as [Hmem0 (k & Hrows & Hdisk)].
  intros s.
  cbn [withStateDir setCurrentTurn withMem mem stateDir files currentTurn].
  destruct (decide (s = s0)) as [->|Hne].
  - rewrite !lookup_insert_eq. split; [intros t [= <-]; eauto|].
    cbn [state_currentTurn]. unfold current. rewrite Hmem1.
    unfold w1, writeTurnData.
    destruct (currentTurn (mem w) !! s0) as [t|] eqn:Hmem.
    + destruct (Hmem0 t eq_refl) as (state & Hstate & Hnumber).
      rewrite Hstate in Hdisk. exists (S k). split.
      * rewrite ledger_appendRow_same, turnNumbersOf_app, Hrows.
        cbn [turnNumbersOf flat_map]. rewrite decide_True by done.
        rewrite seq_S, map_app. cbn. do 3 f_equal. lia.
      * cbn. lia.
    + rewrite (Hloaded eq_refl) in Hdisk. subst k.
      exists 0%nat. by split.
  - rewrite !lookup_insert_ne by done. rewrite Hmem1.
    split; [apply (proj1 (Hinv s))|].
    destruct (Hinv s) as [_ (k' & Hrows' & Hdisk')].
    exists k'. split; [|done].
    unfold w1, writeTurnData.
    destruct (currentTurn (mem w) !! s0) as [t|]; [|done].
    rewrite ledger_appendRow_same, turnNumbersOf_app, Hrows'.
    cbn [turnNumbersOf flat_map]. rewrite decide_False by done.
    by rewrite !app_nil_r.
Qed.

Lemma invariant_handleTurnStart env s0 eventData w :
  turnsInvariant w -> turnsInvariant (handleTurnStart env s0 eventData w).
Proof.
  intros Hinv. unfold handleTurnStart. cbv zeta.
  pose proof (invariant_turn_start env s0 (ensureLoaded s0 w)
                (invariant_ensureLoaded s0 w Hinv) (ensureLoaded_none s0 w))
    as Hstart.
  cbv zeta in Hstart.
  destruct (prompt eventData) as [p|]; [|done].
  destruct (truthy (trim p)); [|done].
  destruct (categorizePrompt p) as [category subcategory].
  by apply invariant_appendRow.
Qed.

Lemma invariant_handleGitOperations env s command w :
  turnsInvariant w -> turnsInvariant (handleGitOperations env s command w).
Proof.
  unfold handleGitOperations.
  destruct (gitOperationRow env s command); [|done].
  by apply invariant_appendRow.
Qed.

Lemma invariant_handleGitCommand env s command w :
  turnsInvariant w -> turnsInvariant (handleGitCommand env s command w).
Proof.
  unfold handleGitCommand.
  destruct (gitCommitRow env s command); [|done].
  by apply invariant_appendRow.
Qed.

Lemma invariant_handleToolStart env s0 T eventData w :
  turnsInvariant w -> turnsInvariant (handleToolStart env s0 T eventData w).
Proof.
  intros Hinv. apply (invariant_ensureLoaded s0) in Hinv.
  unfold handleToolStart. cbv zeta.
  set (w0 := ensureLoaded s0 w) in *.
  set (w1 := match currentTurn (mem w0) !! s0 with
             | Some t => setCurrentTurn s0 _ w0
             | None => w0
             end).
  assert (Hinv1 : turnsInvariant w1).
  { unfold w1. destruct (currentTurn (mem w0) !! s0) as [t|] eqn:Hmem;
      [|done].
    by apply (invariant_setCurrentTurn_same s0 t). }
  clearbody w1.
  match goal with
  | |- turnsInvariant (if _ then handleGitOperations _ _ _ ?x else ?x) =>
      assert (Hsaved : turnsInvariant x)
  end.
  { apply invariant_saveTurnState. revert Hinv1. by apply invariant_view. }
  case_match; [by apply invariant_handleGitOperations | done].
Qed.

Lemma invariant_handleToolEnd env s0 T eventData w :
  turnsInvariant w -> turnsInvariant (handleToolEnd env s0 T eventData w).
Proof.
  intros Hinv. apply (invariant_ensureLoaded s0) in Hinv.
  unfold handleToolEnd. cbv zeta.
  set (w0 := ensureLoaded s0 w) in *. clearbody w0.
  assert (Hdrop : turnsInvariant (consoleError (noMatchWarning T s0) w0))
    by (revert Hinv; by apply invariant_view).
  destruct (toolStartData (mem w0) !! s0) as [m|]; [|done].
  destruct (findMatchingKey T m) as [key|]; [|done].
  destruct (truthy key); [|done].
  destruct (getKey key m) as [startData|]; [|done].
  apply invariant_saveTurnState.
  assert (Hbase : turnsInvariant
            (setToolStartData s0 (deleteKey key m)
               (appendRow tools
                  [CStr s0; CStr (userId env);
                   CInt (StartData.turnNumber startData); CStr T;
                   CInt (StartData.startTime startData); CInt (now env);
                   CStr (if default true (success eventData)
                         then lit "1" else lit "0");
                   CInt (now env - StartData.startTime startData);
                   CInt (StartData.inputSize startData);
                   CInt (tool_output_size eventData)] w0))).
  { revert Hinv. by apply invariant_view. }
  destruct (bool_decide (T = lit "Bash")
            && negb (StartData.inputSize startData =? 0)%Z
            && present (tool_input_command eventData));
    [by apply invariant_handleGitCommand | done].
Qed.

Lemma invariant_handleCompaction env s0 eventData w :
  turnsInvariant w -> turnsInvariant (handleCompaction env s0 eventData w).
Proof. intros Hinv. unfold handleCompaction. by apply invariant_appendRow. Qed.

Lemma invariant_handleSessionEnd env s0 eventData w :
  turnsInvariant w -> turnsInvariant (handleSessionEnd env s0 eventData w).
Proof.
  intros Hinv. apply (invariant_ensureLoaded s0) in Hinv.
  unfold handleSessionEnd. cbv zeta.
  set (w0 := ensureLoaded s0 w) in *. clearbody w0.
  apply invariant_cleanupSession. unfold updateSessionRecord.
  apply invariant_appendRow; [done|].
  destruct (present (transcript_path eventData)); [|done].
  destruct (currentTurn (mem w0) !! s0) as [t|] eqn:Hmem; [|done].
  destruct (last _) as [latestRecord|]; [|done].
  apply invariant_saveTurnState.
  apply (invariant_setCurrentTurn_same s0 t); [done|done|].
  by apply invariant_appendRow.
Qed.

Create HintDb turns.

#[local] Hint Resolve invariant_handleTurnStart invariant_handleToolStart
  invariant_handleToolEnd invariant_handleCompaction
  invariant_handleSessionEnd invariant_restart : turns.

Lemma invariant_processHookEvent env eventData w :
  turnsInvariant w -> turnsInvariant (processHookEvent env eventData w).
Proof.
  intros Hinv. unfold processHookEvent.
  destruct (validateEventData eventData).
  - repeat case_match; auto with turns.
  - revert Hinv. by apply invariant_view.
Qed.

Lemma invariant_run actions : forall w,
  turnsInvariant w -> turnsInvariant (run actions w).
Proof.
  induction actions as [|a actions IH]; intros w Hinv; [done|].
  cbn [run fold_left]. apply IH.
  destruct a as [env eventData|]; cbn [step]; auto with turns.
  by apply invariant_processHookEvent.
Qed.


(* ====================================================================== *)
(** ** Lines, blank lines and positions *)
(* ====================================================================== *)

Lemma split_nonempty sep s : split sep s <> [].
Proof.
  destruct s as [|c s]; [done|]. cbn [split].
  destruct (c =? sep); [done|]. by destruct (split sep s).
Qed.

Lemma split_plain sep s : ~ In sep s -> split sep s = [s].
Proof.
  induction s as [|c s IH]; [done|]. intros Hnot. cbn [split].
  destruct (N.eqb_spec c sep) as [->|Hne]; [destruct Hnot; by left|].
  rewrite IH; [done|]. intros Hin. apply Hnot. by right.
Qed.

Lemma split_line sep s rest :
  ~ In sep s -> split sep (s ++ sep :: rest) = s :: split sep rest.
Proof.
  induction s as [|c s IH]; intros Hnot.
  - cbn [app split]. by rewrite N.eqb_refl.
  - cbn [app split].
    destruct (N.eqb_spec c sep) as [->|Hne]; [destruct Hnot; by left|].
    rewrite IH; [done|]. intros Hin. apply Hnot. by right.
Qed.

Lemma split_pieces sep s piece : In piece (split sep s) -> ~ In sep piece.
Proof.
  revert piece. induction s as [|c s IH]; intros piece.
  - cbn. intros [<- | []]. tauto.
  - cbn [split]. destruct (N.eqb_spec c sep) as [->|Hne].
    + intros [<- | Hin]; [tauto | by apply IH].
    + pose proof (split_nonempty sep s) as Hnonempty.
      destruct (split sep s) as [|l ls]; [done|].
      intros [<- | Hin].
      * intros [-> | Hin]; [done|]. apply (IH l); [by left | done].
      * apply IH. by right.
Qed.

Lemma join_cons sep l l' ls :
  join sep (l :: l' :: ls) = l ++ sep ++ join sep (l' :: ls).
Proof. unfold join. cbn [flat_map]. by rewrite <- app_assoc. Qed.

Lemma join_single sep l : join sep [l] = l.
Proof. cbn. apply app_nil_r. Qed.

(** Lines without newlines, joined and closed by a newline, split back
    into themselves and a last empty piece. *)
Lemma split_join_lines (lines : list jsstring) :
  lines <> [] -> Forall (fun l => ~ In NEWLINE l) lines ->
  split NEWLINE (join [NEWLINE] lines ++ [NEWLINE]) = lines ++ [[]].
Proof.
  intros Hne Hall. induction Hall as [|l ls Hl _ IH]; [done|].
  destruct ls as [|l' ls].
  - rewrite join_single. by rewrite split_line.
  - rewrite join_cons, <- !app_assoc. cbn [app].
    rewrite split_line by done. f_equal. by apply IH.
Qed.

Lemma trimStart_keeps s :
  (exists c, In c s /\ isWhiteSpace c = false) ->
  exists c, In c (trimStart s) /\ isWhiteSpace c = false.
Proof.
  induction s as [|x s IH]; intros (c & Hin & Hc); [done|].
  cbn [trimStart]. destruct (isWhiteSpace x) eqn:Hx.
  - apply IH. destruct Hin as [-> | Hin]; [congruence | eauto].
  - exists c. by split.
Qed.

(** A string with a character that is not white space is not blank. *)
Lemma trim_truthy s c :
  In c s -> isWhiteSpace c = false -> truthy (trim s) = true.
Proof.
  intros Hin Hc. unfold trim, trimEnd.
  destruct (trimStart_keeps s) as (c1 & Hin1 & Hc1); [eauto|].
  destruct (trimStart_keeps (rev (trimStart s))) as (c2 & Hin2 & Hc2).
  { exists c1. split; [by apply in_rev in Hin1 | done].  }
  destruct (trimStart (rev (trimStart s))) as [|y ys]; [done|].
  cbn [rev]. by destruct (rev ys).
Qed.

Lemma lookup_map {A B} (f : A -> B) (l : list A) (i : nat) :
  map f l !! i = f <$> (l !! i).
Proof.
  revert i. induction l as [|x l IH]; intros [|i]; cbn; by try done.
Qed.

Lemma indexOf_from_absent x l i : x ∉ l -> indexOf_from x l i = (-1)%Z.
Proof.
  revert i. induction l as [|y l IH]; intros i Hnot; [done|].
  apply not_elem_of_cons in Hnot as [Hne Hnot].
  cbn [indexOf_from]. rewrite decide_False by congruence. by apply IH.
Qed.

Lemma indexOf_from_first x l p : forall i,
  l !! p = Some x -> (forall q, (q < p)%nat -> l !! q <> Some x) ->
  indexOf_from x l i = (i + Z.of_nat p)%Z.
Proof.
  revert l. induction p as [|p IH]; intros [|y l] i Hp Hfirst; try done.
  - cbn in Hp. injection Hp as ->. cbn [indexOf_from].
    rewrite decide_True by done. lia.
  - cbn [indexOf_from]. rewrite decide_False.
    + rewrite (IH l (i + 1)%Z); [lia | done |].
      intros q Hq. apply (Hfirst (S q)). lia.
    + intros ->. by apply (Hfirst 0%nat); [lia|].
Qed.

Lemma migratedValue_absent oldValues : migratedValue oldValues (-1) = [].
Proof. reflexivity. Qed.

Lemma migratedValue_at oldValues (p : nat) :
  migratedValue oldValues (Z.of_nat p) = default [] (oldValues !! p).
Proof.
  unfold migratedValue.
  destruct (Z.leb_spec 0 (Z.of_nat p)) as [_|]; [|lia].
  rewrite Nat2Z.id. destruct (oldValues !! p) as [[|c v]|]; done.
Qed.

(* ====================================================================== *)
(** ** What a row is made of *)
(* ====================================================================== *)

(** Every character of a parsed field comes from the row, or from what
    the loop already held. *)
Lemma parse_chars row : forall result current inQuotes field c,
  In field (parseCSVRow_from row result current inQuotes) -> In c field ->
  In c row \/ In c current \/ exists f, In f result /\ In c f.
Proof.
  induction row as [row IH] using (induction_ltof1 _ (@length N)).
  unfold ltof in IH.
  intros result current inQuotes field c Hfield Hc.
  assert (Hstep : forall row1 result1 current1 inQuotes1,
            (length row1 < length row)%nat ->
            In field (parseCSVRow_from row1 result1 current1 inQuotes1) ->
            In c row1 \/ In c current1
            \/ exists f, In f result1 /\ In c f).
  { intros row1 result1 current1 inQuotes1 Hlen Hin.
    by apply (IH row1 Hlen result1 current1 inQuotes1 field c). }
  clear IH.
  destruct row as [|x row']; cbn [parseCSVRow_from] in Hfield.
  - apply in_app_or in Hfield as [Hfield | [<- | []]]; eauto.
  - destruct (N.eqb_spec x QUOTE) as [->|Hx].
    + destruct row' as [|y row''].
      * apply Hstep in Hfield; [|cbn; lia].
        cbn [In] in *. firstorder (subst; auto).
      * destruct (inQuotes && (y =? QUOTE)) eqn:Hpair.
        -- apply andb_true_iff in Hpair as [_ Hy].
           apply N.eqb_eq in Hy as ->.
           apply Hstep in Hfield; [|cbn; lia].
           rewrite in_app_iff in Hfield. cbn [In] in *. firstorder (subst; auto).
        -- apply Hstep in Hfield; [|cbn; lia].
           cbn [In] in *. firstorder (subst; auto).
    + destruct ((x =? COMMA) && negb inQuotes).
      * apply Hstep in Hfield; [|cbn; lia].
        destruct Hfield as [? | [[] | (f & Hf & Hcf)]].
        -- left. by right.
        -- apply in_app_or in Hf as [? | [<- | []]]; eauto.
      * apply Hstep in Hfield; [|cbn; lia].
        rewrite in_app_iff in Hfield. cbn [In] in *. firstorder (subst; auto).
Qed.

Lemma parseCSVRow_chars row field c :
  In field (parseCSVRow row) -> In c field -> In c row.
Proof.
  intros Hfield Hc.
  destruct (parse_chars row [] [] false field c Hfield Hc)
    as [? | [[] | (f & [] & _)]].
  done.
Qed.

Lemma doubleQuotes_chars s c : In c (doubleQuotes s) -> In c s.
Proof.
  unfold doubleQuotes. rewrite in_flat_map. intros (x & Hx & Hc).
  destruct (N.eqb_spec x QUOTE) as [->|_].
  - destruct Hc as [<- | [<- | []]]; done.
  - destruct Hc as [<- | []]; done.
Qed.

Lemma neutralize_chars v c : In c (neutralize v) -> c = APOSTROPHE \/ In c v.
Proof.
  unfold neutralize.
  destruct ((0 <? length v)%nat && startsWithFormulaTrigger v); [|by right].
  intros [<- | Hin]; [by left | by right].
Qed.

Lemma escapeCSV_no_newline v :
  ~ In NEWLINE v -> ~ In NEWLINE (escapeCSV (Some v)).
Proof.
  intros Hv. assert (Hn : ~ In NEWLINE (neutralize v)).
  { intros Hin. by apply neutralize_chars in Hin as [? | ?]. }
  unfold escapeCSV. cbv zeta. destruct (needsQuoting (neutralize v)); [|done].
  intros [? | Hin]; [done|].
  apply in_app_or in Hin as [Hin | [? | []]]; [|done].
  by apply doubleQuotes_chars in Hin.
Qed.

Lemma buildCSVRow_no_newline vs :
  Forall (fun v => ~ In NEWLINE v) vs ->
  ~ In NEWLINE (buildCSVRow (map Some vs)).
Proof.
  induction 1 as [|v vs Hv _ IH]; [by intros []|].
  destruct vs as [|w vs].
  - cbn [map]. rewrite buildCSVRow_single. by apply escapeCSV_no_newline.
  - cbn [map] in *. rewrite buildCSVRow_cons. intros Hin.
    apply in_app_or in Hin as [Hin | [? | Hin]]; [|done|done].
    by apply escapeCSV_no_newline in Hin.
Qed.

Lemma buildCSVRow_has_comma v w vs : In COMMA (buildCSVRow (v :: w :: vs)).
Proof. rewrite buildCSVRow_cons. apply in_or_app. right. by left. Qed.

Lemma migratedValue_no_newline line oldIndex :
  ~ In NEWLINE line ->
  ~ In NEWLINE (migratedValue (parseCSVRow line) oldIndex).
Proof.
  intros Hline. unfold migratedValue.
  destruct (0 <=? oldIndex)%Z; [|by intros []].
  destruct (parseCSVRow line !! Z.to_nat oldIndex) as [v|] eqn:Hv;
    [|by intros []].
  destruct (truthy v); [|by intros []].
  intros Hin. apply Hline. apply (parseCSVRow_chars line v); [|done].
  apply list_elem_of_In. by eapply list_elem_of_lookup_2.
Qed.

(** One migrated line: it stays on one line, is not blank, and reads back
    as the values chosen by the column mapping, each neutralized. *)
Lemma migrateLine_spec columnMapping line :
  (2 <= length columnMapping)%nat -> ~ In NEWLINE line ->
  ~ In NEWLINE (migrateLine columnMapping line)
  /\ truthy (trim (migrateLine columnMapping line)) = true
  /\ parseCSVRow (migrateLine columnMapping line)
     = map neutralize
         (map (migratedValue (parseCSVRow line)) columnMapping).
Proof.
  intros Hlen Hline. unfold migrateLine. cbv zeta. split; [|split].
  - apply buildCSVRow_no_newline. apply Forall_forall.
    intros v Hv. apply list_elem_of_In, in_map_iff in Hv as (i & <- & _).
    by apply migratedValue_no_newline.
  - destruct columnMapping as [|i [|j rest]]; cbn in Hlen; try lia.
    apply (trim_truthy _ COMMA); [|done]. cbn [map].
    apply buildCSVRow_has_comma.
  - apply parse_build. destruct columnMapping; cbn in Hlen; [lia|done].
Qed.

Lemma nonBlankLines_written (lines : list jsstring) :
  lines <> [] ->
  Forall (fun l => ~ In NEWLINE l /\ truthy (trim l) = true) lines ->
  nonBlankLines (join [NEWLINE] lines ++ [NEWLINE]) = lines.
Proof.
  intros Hne Hall. unfold nonBlankLines.
  rewrite split_join_lines; [|done|].
  - rewrite filter_app, filter_cons_False, filter_nil, app_nil_r by done.
    induction Hall as [|l ls [_ Hl] _ IH]; [done|].
    rewrite filter_cons_True by done. f_equal.
    destruct ls; [done|]. by apply IH.
  - eapply Forall_impl; [done|]. by intros l [? _].
Qed.

Lemma wellFormedHeader_table key header :
  In (key, header) CSV_HEADERS -> wellFormedHeader header = true.
Proof.
  intros Hin.
  assert (Hall : forallb (fun kh => wellFormedHeader kh.2) CSV_HEADERS = true)
    by (vm_compute; reflexivity).
  rewrite forallb_forall in Hall. apply (Hall _ Hin).
Qed.

Lemma backupPathOf_differs filePath now : backupPathOf filePath now <> filePath.
Proof.
  unfold backupPathOf. intros Heq.
  apply (f_equal (@length N)) in Heq. rewrite !length_app in Heq.
  cbn in Heq. lia.
Qed.

(** The result of a migration, for any expected header that is well
    formed. *)
Lemma migrateCSVIfNeeded_migrates now filePath expectedHeader fs content
    existingHeader rows :
  wellFormedHeader expectedHeader = true ->
  fs !! filePath = Some content ->
  nonBlankLines content = existingHeader :: rows ->
  existingHeader <> expectedHeader ->
  let fs' := migrateCSVIfNeeded now filePath expectedHeader fs in
  fs' !! backupPathOf filePath now = Some content
  /\ (forall path, path <> filePath -> path <> backupPathOf filePath now ->
        fs' !! path = fs !! path)
  /\ exists migrated,
       fs' !! filePath = Some migrated
       /\ migrationOutcome neutralize content migrated expectedHeader.
Proof.
  intros Hheader Hfile Hlines Hdiffer fs'.
  unfold wellFormedHeader in Hheader.
  apply andb_true_iff in Hheader as [Hheader Hcolumns].
  apply andb_true_iff in Hheader as [Hnewline Hblank].
  apply negb_true_iff, includes_false in Hnewline.
  apply Nat.leb_le in Hcolumns.
  set (oldColumns := parseCSVRow existingHeader).
  set (newColumns := parseCSVRow expectedHeader) in *.
  set (columnMapping := map (fun newCol => indexOf newCol oldColumns)
                            newColumns).
  assert (Hmapping : (2 <= length columnMapping)%nat)
    by (unfold columnMapping; by rewrite length_map).
  assert (Hfs' : fs' = <[filePath :=
                          join [NEWLINE]
                            (expectedHeader
                             :: map (migrateLine columnMapping) rows)
                          ++ [NEWLINE]]>
                        (<[backupPathOf filePath now := content]> fs)).
  { unfold fs', migrateCSVIfNeeded. rewrite Hfile, Hlines.
    by rewrite decide_False. }
  assert (Hrows : Forall (fun l => ~ In NEWLINE l) rows).
  { apply Forall_forall. intros l Hl. apply (split_pieces NEWLINE content).
    assert (Hin : l ∈ nonBlankLines content)
      by (rewrite Hlines; by right).
    unfold nonBlankLines in Hin. apply list_elem_of_filter in Hin as [_ Hin].
    by apply list_elem_of_In. }
  rewrite Hfs'. split; [|split].
  - rewrite lookup_insert_ne
      by (intros Heq; by apply (backupPathOf_differs filePath now)).
    apply lookup_insert_eq.
  - intros path Hpath Hbackup. by rewrite !lookup_insert_ne.
  - eexists. split; [apply lookup_insert_eq|].
    exists existingHeader, rows, (map (migrateLine columnMapping) rows).
    split; [done|]. split; [|split; [by rewrite length_map|]].
    + apply nonBlankLines_written; [done|]. constructor; [done|].
      apply Forall_forall. intros l Hl.
      apply list_elem_of_In, in_map_iff in Hl as (line & <- & Hline).
      rewrite Forall_forall in Hrows.
      destruct (migrateLine_spec columnMapping line Hmapping) as (? & ? & _);
        [apply Hrows; by apply list_elem_of_In | done].
    + intros i line line' Hline Hline'.
      rewrite lookup_map, Hline in Hline'. injection Hline' as <-.
      rewrite Forall_forall in Hrows.
      destruct (migrateLine_spec columnMapping line Hmapping) as (_ & _ & ->);
        [apply Hrows; by eapply list_elem_of_lookup_2|].
      fold oldColumns newColumns. unfold carriedOver. split.
      * unfold columnMapping. by rewrite !length_map.
      * intros j column Hcolumn.
        assert (Hvalue :
          map neutralize
            (map (migratedValue (parseCSVRow line)) columnMapping) !! j
          = Some (neutralize
                    (migratedValue (parseCSVRow line)
                       (indexOf column oldColumns)))).
        { unfold columnMapping. by rewrite !lookup_map, Hcolumn. }
        rewrite Hvalue. split.
        -- intros Habsent. unfold indexOf.
           by rewrite indexOf_from_absent.
        -- intros p Hp Hfirst. unfold indexOf.
           rewrite (indexOf_from_first column oldColumns p 0) by done.
           by rewrite Z.add_0_l, migratedValue_at.
Qed.

(* ====================================================================== *)
(** ** Schema migration (claim C7) *)
(* ====================================================================== *)

(** C7, as the specification states it, does not hold.  The commit ledger
    of an older version (a ticket column, values written without the
    formula guard) is migrated to the current header; the row count is
    kept, but the commit message [-fix typo] of the old row is not the
    value of the same column in the migrated row. *)
Lemma migration_changes_value :
  In (lit "commits", newCommitsHeader) CSV_HEADERS
  /\ nonBlankLines oldCommitsFile = [oldCommitsHeader; oldCommitsRow]
  /\ oldCommitsHeader <> newCommitsHeader
  /\ ensureCSVHeader 1234 commitsPath newCommitsHeader sampleFiles
       !! commitsPath = Some migratedCommitsFile
  /\ ~ migrationOutcome (fun value => value) oldCommitsFile
         migratedCommitsFile newCommitsHeader.
Proof.
  assert (Hold : nonBlankLines oldCommitsFile
                 = [oldCommitsHeader; oldCommitsRow])
    by (vm_compute; reflexivity).
  assert (Hnew : nonBlankLines migratedCommitsFile
                 = [newCommitsHeader; migratedCommitsRow])
    by (vm_compute; reflexivity).
  split; [do 2 right; left; reflexivity|].
  split; [exact Hold|].
  split; [vm_compute; discriminate|].
  split; [vm_compute; reflexivity|].
  intros (existingHeader & rows & rows' & Hlines & Hlines' & _ & Hcarried).
  rewrite Hold in Hlines. injection Hlines as <- <-.
  rewrite Hnew in Hlines'. injection Hlines' as <-.
  destruct (Hcarried 0%nat oldCommitsRow migratedCommitsRow eq_refl eq_refl)
    as [_ Hcolumns].
  destruct (Hcolumns 5%nat (lit "commit_message")) as [_ Hvalue];
    [vm_compute; reflexivity|].
  specialize (Hvalue 6%nat). vm_compute in Hvalue.
  assert (Hno : Some [39; 45; 102; 105; 120; 32; 116; 121; 112; 111]
                = Some [45; 102; 105; 120; 32; 116; 121; 112; 111]);
    [|discriminate].
  apply Hvalue; [reflexivity|].
  intros q Hq. do 6 (destruct q as [|q]; [discriminate|]).
  exfalso. apply Nat.ltb_lt in Hq. vm_compute in Hq. discriminate.
Qed.

(** C7, amended.  When the first non-blank line of an existing ledger file
    is not the expected header of its category, the file is copied to its
    backup path and rewritten: the expected header, then one line for each
    non-blank data line of the original, in order.  Read back with the row
    parser, a migrated line has one value per column of the expected
    header: the empty string under a column the old header lacks, and
    under a column the old header has the old line's value of that column
    (the first of that name; empty when the old line is too short) as the
    ledger's escaping stores it, that is unchanged unless it begins with a
    formula character, in which case it gains the apostrophe.  Values of
    columns the expected header lacks are dropped, and no other file
    changes. *)
Theorem migration_on_header_change (now : Z)
    (filePath key expectedHeader content existingHeader : jsstring)
    (rows : list jsstring) (fs : filesystem) :
  In (key, expectedHeader) CSV_HEADERS ->
  fs !! filePath = Some content ->
  nonBlankLines content = existingHeader :: rows ->
  existingHeader <> expectedHeader ->
  let fs' := ensureCSVHeader now filePath expectedHeader fs in
  fs' !! backupPathOf filePath now = Some content
  /\ (forall path, path <> filePath -> path <> backupPathOf filePath now ->
        fs' !! path = fs !! path)
  /\ exists migrated,
       fs' !! filePath = Some migrated
       /\ migrationOutcome neutralize content migrated expectedHeader.
Proof.
  intros Htable Hfile Hlines Hdiffer. unfold ensureCSVHeader. rewrite Hfile.
  apply (migrateCSVIfNeeded_migrates now filePath expectedHeader fs content
           existingHeader rows); try done.
  by apply (wellFormedHeader_table key).
Qed.

(** C7, amended, at the commit ledger of the older version. *)
Lemma migration_on_header_change_witness :
  ensureCSVHeader 1234 commitsPath newCommitsHeader sampleFiles
    !! backupPathOf commitsPath 1234 = Some oldCommitsFile
  /\ exists migrated,
       ensureCSVHeader 1234 commitsPath newCommitsHeader sampleFiles
         !! commitsPath = Some migrated
       /\ migrationOutcome neutralize oldCommitsFile migrated
            newCommitsHeader.
Proof.
  destruct (migration_on_header_change 1234 commitsPath (lit "commits")
              newCommitsHeader oldCommitsFile oldCommitsHeader
              [oldCommitsRow] sampleFiles)
    as (Hbackup & _ & Hmigrated).
  - do 2 right. left. reflexivity.
  - reflexivity.
  - vm_compute. reflexivity.
  - vm_compute. discriminate.
  - split; [exact Hbackup | exact Hmigrated].
Defined.

(* ====================================================================== *)
(** ** Keys of the in-flight map *)
(* ====================================================================== *)

Lemma lit_inj a b : lit a = lit b -> a = b.
Proof.
  unfold lit. intros H.
  rewrite <- (string_of_list_ascii_of_string a),
          <- (string_of_list_ascii_of_string b).
  f_equal. revert H.
  generalize (list_ascii_of_string a) (list_ascii_of_string b).
  induction l as [|x l IH]; intros [|y l']; cbn; try done.
  intros [= Hxy Hrest]. f_equal; [|by apply IH].
  by rewrite <- (ascii_N_embedding x), <- (ascii_N_embedding y), Hxy.
Qed.

Lemma to_int_proper z :
  Z.to_int z <> Decimal.Pos Decimal.Nil
  /\ Z.to_int z <> Decimal.Neg Decimal.Nil.
Proof.
  destruct z as [|p|p]; cbn; split; try done; intros [= H];
    by apply (Unsigned.to_uint_nonnil p).
Qed.

Lemma String_of_Z_inj a b : String_of_Z a = String_of_Z b -> a = b.
Proof.
  unfold String_of_Z. intros H. apply lit_inj in H.
  apply (f_equal NilZero.int_of_string) in H.
  destruct (to_int_proper a) as [Ha1 Ha2].
  destruct (to_int_proper b) as [Hb1 Hb2].
  rewrite !NilZero.isi in H by done.
  injection H as H. by apply DecimalZ.to_int_inj.
Qed.

Lemma digits_no_underscore d :
  ~ In UNDERSCORE (lit (NilEmpty.string_of_uint d)).
Proof.
  induction d; cbn; intros H; try done;
    destruct H as [H | H]; try discriminate H; by apply IHd.
Qed.

Lemma String_of_Z_no_underscore z : ~ In UNDERSCORE (String_of_Z z).
Proof.
  unfold String_of_Z.
  assert (Huint : forall d, ~ In UNDERSCORE (lit (NilZero.string_of_uint d))).
  { intros d. unfold NilZero.string_of_uint.
    destruct d; try apply digits_no_underscore.
    cbn. intros [H | []]. discriminate H. }
  destruct (Z.to_int z) as [d|d]; cbn [NilZero.string_of_int].
  - apply Huint.
  - change (lit (String "-" (NilZero.string_of_uint d)))
      with (45 :: lit (NilZero.string_of_uint d)).
    intros [H | H]; [discriminate H | by apply (Huint d)].
Qed.

Lemma first_separator (a : N) (l1 l2 r1 r2 : jsstring) :
  ~ In a l1 -> ~ In a l2 -> l1 ++ a :: r1 = l2 ++ a :: r2 -> l1 = l2.
Proof.
  revert l2. induction l1 as [|c l1 IH]; intros [|c' l2] H1 H2 Heq;
    cbn in Heq.
  - done.
  - injection Heq as -> _. destruct H2. by left.
  - injection Heq as -> _. destruct H1. by left.
  - injection Heq as -> Heq. f_equal. apply (IH l2); [| |done].
    + intros Hin. apply H1. by right.
    + intros Hin. apply H2. by right.
Qed.

(** Two strings that end in the separator and a run without it agree on
    that run. *)
Lemma last_segment (a : N) (x y d e : jsstring) :
  ~ In a d -> ~ In a e -> x ++ a :: d = y ++ a :: e -> d = e.
Proof.
  intros Hd He Heq. apply (f_equal (@rev N)) in Heq.
  rewrite !rev_app_distr in Heq. cbn [rev] in Heq.
  rewrite <- !app_assoc in Heq. cbn [app] in Heq.
  apply first_separator in Heq.
  - by rewrite <- (rev_involutive d), Heq, rev_involutive.
  - intros Hin. by apply in_rev in Hin.
  - intros Hin. by apply in_rev in Hin.
Qed.

(** Keys made with different counter values differ, whatever the tool
    names. *)
Lemma toolKeyOf_counter s T T' n n' :
  toolKeyOf s T n = toolKeyOf s T' n' -> n = n'.
Proof.
  unfold toolKeyOf. intros Heq.
  rewrite !app_assoc in Heq.
  change (lit "_") with [UNDERSCORE] in Heq.
  rewrite <- !(app_assoc _ [UNDERSCORE] (String_of_Z _)) in Heq.
  cbn [app] in Heq.
  apply last_segment in Heq; try apply String_of_Z_no_underscore.
  by apply String_of_Z_inj.
Qed.

Lemma toolKeyOf_truthy s T n : truthy (toolKeyOf s T n) = true.
Proof. unfold toolKeyOf. by destruct s. Qed.

Section KeyedMaps.

(** The session whose map is looked at. *)
Variable s : jsstring.

Lemma keyed_bounds m : forall lo hi, keyed s lo hi m -> (lo <= hi)%Z.
Proof.
  induction m as [|[k e] m IH]; intros lo hi; cbn [keyed]; [done|].
  intros (n & Hn & _ & Hrest). apply IH in Hrest. lia.
Qed.

Lemma keyed_lower m : forall lo lo' hi,
  (lo' <= lo)%Z -> keyed s lo hi m -> keyed s lo' hi m.
Proof.
  destruct m as [|[k e] m]; intros lo lo' hi Hle; cbn [keyed].
  - lia.
  - intros (n & Hn & Hk & Hrest). exists n. split; [lia|done].
Qed.

Lemma keyed_upper m : forall lo hi hi',
  (hi <= hi')%Z -> keyed s lo hi m -> keyed s lo hi' m.
Proof.
  induction m as [|[k e] m IH]; intros lo hi hi' Hle; cbn [keyed].
  - lia.
  - intros (n & Hn & Hk & Hrest). exists n. eauto.
Qed.

Lemma keyed_filter (P : jsstring * toolStart -> Prop)
    `{!forall kv, Decision (P kv)} m : forall lo hi,
  keyed s lo hi m -> keyed s lo hi (filter P m).
Proof.
  induction m as [|[k e] m IH]; intros lo hi; [done|].
  cbn [keyed]. intros (n & Hn & Hk & Hrest).
  rewrite filter_cons. destruct (decide (P (k, e))).
  - cbn [keyed]. exists n. eauto.
  - apply IH. apply (keyed_lower m n); [lia|done].
Qed.

(** Every key of a keyed map carries a counter value within the bounds. *)
Lemma keyed_keys m : forall lo hi key,
  keyed s lo hi m -> In key (keys m) ->
  exists T n, key = toolKeyOf s T n /\ (lo < n <= hi)%Z.
Proof.
  induction m as [|[k e] m IH]; intros lo hi key; [done|].
  cbn [keyed keys map fst]. intros (n & Hn & Hk & Hrest) [<- | Hin].
  - exists (StartData.toolName e), n. split; [done|].
    apply keyed_bounds in Hrest. lia.
  - destruct (IH n hi key Hrest Hin) as (T & n' & -> & Hn').
    exists T, n'. split; [done|lia].
Qed.

Lemma keyed_NoDup m : forall lo hi, keyed s lo hi m -> NoDup (keys m).
Proof.
  induction m as [|[k e] m IH]; intros lo hi; [constructor|].
  cbn [keyed keys map fst]. intros (n & Hn & -> & Hrest).
  apply NoDup_cons. split; [|by eapply IH].
  intros Hin. apply list_elem_of_In in Hin.
  destruct (keyed_keys m n hi _ Hrest Hin) as (T & n' & Heq & Hn').
  apply toolKeyOf_counter in Heq. lia.
Qed.

(** A new entry under the next counter value goes to the end of the map. *)
Lemma keyed_setKey m T startData : forall lo hi,
  keyed s lo hi m -> StartData.toolName startData = T ->
  setKey (toolKeyOf s T (hi + 1)) startData m
  = m ++ [(toolKeyOf s T (hi + 1), startData)]
  /\ keyed s lo (hi + 1) (m ++ [(toolKeyOf s T (hi + 1), startData)]).
Proof.
  induction m as [|[k e] m IH]; intros lo hi Hkeyed Hname.
  - cbn in *. split; [done|]. exists (hi + 1)%Z. subst T.
    repeat split; lia.
  - cbn [keyed] in Hkeyed. destruct Hkeyed as (n & Hn & Hk & Hrest).
    destruct (IH n hi Hrest Hname) as [Hset Hkeyed'].
    cbn [setKey app]. rewrite decide_False.
    + rewrite Hset. split; [done|]. cbn [keyed]. exists n. eauto.
    + rewrite Hk. intros Heq. apply toolKeyOf_counter in Heq.
      apply keyed_bounds in Hrest. lia.
Qed.

(** In a keyed map the entry at a position was stored under a counter
    value above those of all entries before it. *)
Lemma keyed_split before key startData after : forall lo hi,
  keyed s lo hi (before ++ (key, startData) :: after) ->
  exists n,
    key = toolKeyOf s (StartData.toolName startData) n
    /\ Forall (fun kv => exists n', (n' < n)%Z
                 /\ kv.1 = toolKeyOf s (StartData.toolName kv.2) n')
         before.
Proof.
  induction before as [|[k e] before IH]; intros lo hi; cbn [app keyed].
  - intros (n & _ & Hk & _). exists n. by split.
  - intros (n0 & Hn0 & Hk & Hrest).
    destruct (IH n0 hi Hrest) as (n & Hkey & Hbefore). exists n.
    split; [done|]. constructor; [|done].
    exists n0. split; [|done].
    clear -Hrest Hkey.
    assert (Hin : In key (keys (before ++ (key, startData) :: after))).
    { unfold keys. rewrite map_app. apply in_or_app. right. by left. }
    destruct (keyed_keys _ n0 hi key Hrest Hin) as (T & n' & Heq & Hn').
    rewrite Hkey in Heq. apply toolKeyOf_counter in Heq. lia.
Qed.

End KeyedMaps.

(* ====================================================================== *)
(** ** The in-flight map along a run *)
(* ====================================================================== *)

Lemma inflight_view w w1 :
  inflightView w1 = inflightView w ->
  inflightInvariant w -> inflightInvariant w1.
Proof.
  unfold inflightView. intros [= Hdata Hcounter Hdir] Hinv s.
  unfold inflightInvariant in Hinv. rewrite Hdata, Hcounter, Hdir.
  apply Hinv.
Qed.

Lemma inflight_initial : inflightInvariant initialWorld.
Proof.
  intros s. cbn. repeat split; intros x Hx; by rewrite lookup_empty in Hx.
Qed.

Lemma inflight_restart w :
  inflightInvariant w -> inflightInvariant (withMem emptyMemory w).
Proof.
  intros Hinv s. cbn. split; [|split].
  - intros m Hm. by rewrite lookup_empty in Hm.
  - intros n Hn. by rewrite lookup_empty in Hn.
  - apply Hinv.
Qed.

Lemma inflight_ensureLoaded s0 w :
  inflightInvariant w -> inflightInvariant (ensureLoaded s0 w).
Proof.
  intros Hinv. unfold ensureLoaded.
  destruct (currentTurn (mem w) !! s0); [done|].
  unfold loadTurnState. destruct (stateDir w !! s0) as [state|] eqn:Hdisk;
    [|done].
  destruct (Hinv s0) as (_ & _ & Hstate). specialize (Hstate state Hdisk).
  intros s. cbn. destruct (decide (s = s0)) as [->|Hne].
  - rewrite !lookup_insert_eq. split; [|split].
    + by intros m [= <-].
    + intros n [= <-]. by apply keyed_bounds in Hstate.
    + apply Hinv.
  - rewrite !lookup_insert_ne by done. apply Hinv.
Qed.

Lemma inflight_saveTurnState s0 w :
  inflightInvariant w -> inflightInvariant (saveTurnState s0 w).
Proof.
  intros Hinv. unfold saveTurnState.
  destruct (currentTurn (mem w) !! s0) as [t|]; [|done].
  intros s. cbn. destruct (Hinv s) as (Hmem & Hcounter & Hdisk).
  split; [done|]. split; [done|].
  destruct (decide (s = s0)) as [->|Hne].
  - rewrite lookup_insert_eq. intros state [= <-]. cbn.
    destruct (toolStartData (mem w) !! s0) as [m|] eqn:Hm; cbn.
    + by apply Hmem.
    + destruct (toolCounter (mem w) !! s0) as [n|] eqn:Hn; cbn; [|done].
      by apply Hcounter.
  - by rewrite lookup_insert_ne.
Qed.

Lemma inflight_cleanupSession s0 w :
  inflightInvariant w -> inflightInvariant (cleanupSession s0 w).
Proof.
  intros Hinv s. cbn. destruct (Hinv s) as (Hmem & Hcounter & Hdisk).
  destruct (decide (s = s0)) as [->|Hne].
  - rewrite !lookup_delete_eq. by repeat split.
  - rewrite !lookup_delete_ne by done. by repeat split.
Qed.

(** Storing a new invocation: the counter goes up by one and the entry
    goes to the end of the session's map. *)
Lemma inflight_store s0 T startData w :
  inflightInvariant w -> StartData.toolName startData = T ->
  let counter := (default 0 (toolCounter (mem w) !! s0) + 1)%Z in
  let m := default [] (toolStartData (mem w) !! s0) in
  setKey (toolKeyOf s0 T counter) startData m
  = m ++ [(toolKeyOf s0 T counter, startData)]
  /\ inflightInvariant
       (setToolStartData s0 (setKey (toolKeyOf s0 T counter) startData m)
          (setToolCounter s0 counter w)).
Proof.
  intros Hinv Hname counter m.
  destruct (Hinv s0) as (Hmem & Hcounter & _).
  assert (Hkeyed : keyed s0 0 (default 0%Z (toolCounter (mem w) !! s0)) m).
  { unfold m. destruct (toolStartData (mem w) !! s0) as [m0|] eqn:Hm0; cbn.
    - by apply Hmem.
    - destruct (toolCounter (mem w) !! s0) as [n|] eqn:Hn; cbn; [|done].
      by apply Hcounter. }
  destruct (keyed_setKey s0 m T startData _ _ Hkeyed Hname) as [Hset Hnew].
  fold counter in Hset, Hnew. split; [done|].
  rewrite Hset. intros s. cbn. destruct (decide (s = s0)) as [->|Hne].
  - rewrite !lookup_insert_eq. split; [|split].
    + by intros ? [= <-].
    + intros n [= <-]. by apply keyed_bounds in Hnew.
    + apply Hinv.
  - rewrite !lookup_insert_ne by done. apply Hinv.
Qed.

Lemma inflight_handleToolStart env s0 T eventData w :
  inflightInvariant w ->
  inflightInvariant (handleToolStart env s0 T eventData w).
Proof.
  intros Hinv. apply (inflight_ensureLoaded s0) in Hinv.
  unfold handleToolStart. cbv zeta.
  set (w0 := ensureLoaded s0 w) in *.
  set (w1 := match currentTurn (mem w0) !! s0 with
             | Some t => setCurrentTurn s0 _ w0
             | None => w0
             end).
  assert (Hinv1 : inflightInvariant w1).
  { unfold w1. destruct (currentTurn (mem w0) !! s0); [|done].
    revert Hinv. by apply inflight_view. }
  clearbody w1.
  match goal with
  | |- inflightInvariant (if _ then handleGitOperations _ _ _ ?x else ?x) =>
      assert (Hsaved : inflightInvariant x)
  end.
  { apply inflight_saveTurnState.
    match goal with
    | |- inflightInvariant
           (setToolStartData _ (setKey _ ?startData _) _) =>
        destruct (inflight_store s0 T startData w1 Hinv1 eq_refl)
          as [_ Hstored]
    end.
    exact Hstored. }
  case_match; [|done].
  revert Hsaved. apply inflight_view. unfold inflightView.
  by rewrite mem_handleGitOperations, stateDir_handleGitOperations.
Qed.

Lemma inflight_handleToolEnd env s0 T eventData w :
  inflightInvariant w ->
  inflightInvariant (handleToolEnd env s0 T eventData w).
Proof.
  intros Hinv. apply (inflight_ensureLoaded s0) in Hinv.
  unfold handleToolEnd. cbv zeta.
  set (w0 := ensureLoaded s0 w) in *. clearbody w0.
  assert (Hdrop : inflightInvariant (consoleError (noMatchWarning T s0) w0))
    by (revert Hinv; by apply inflight_view).
  destruct (toolStartData (mem w0) !! s0) as [m|] eqn:Hm; [|done].
  destruct (findMatchingKey T m) as [key|]; [|done].
  destruct (truthy key); [|done].
  destruct (getKey key m) as [startData|]; [|done].
  apply inflight_saveTurnState.
  assert (Hbase : inflightInvariant
            (setToolStartData s0 (deleteKey key m)
               (appendRow tools
                  [CStr s0; CStr (userId env);
                   CInt (StartData.turnNumber startData); CStr T;
                   CInt (StartData.startTime startData); CInt (now env);
                   CStr (if default true (success eventData)
                         then lit "1" else lit "0");
                   CInt (now env - StartData.startTime startData);
                   CInt (StartData.inputSize startData);
                   CInt (tool_output_size eventData)] w0))).
  { intros s. cbn. destruct (Hinv s) as (Hmem & Hcounter & Hdisk).
    split; [|by split].
    destruct (decide (s = s0)) as [->|Hne].
    - rewrite lookup_insert_eq. intros ? [= <-].
      apply keyed_filter. by apply Hmem.
    - by rewrite lookup_insert_ne. }
  destruct (bool_decide (T = lit "Bash")
            && negb (StartData.inputSize startData =? 0)%Z
            && present (tool_input_command eventData)); [|done].
  revert Hbase. apply inflight_view. unfold inflightView.
  by rewrite mem_handleGitCommand, stateDir_handleGitCommand.
Qed.

Lemma inflight_handleTurnStart env s0 eventData w :
  inflightInvariant w ->
  inflightInvariant (handleTurnStart env s0 eventData w).
Proof.
  intros Hinv. apply (inflight_ensureLoaded s0) in Hinv.
  unfold handleTurnStart. cbv zeta.
  set (w0 := ensureLoaded s0 w) in *. clearbody w0.
  set (w1 := match currentTurn (mem w0) !! s0 with
             | Some _ => writeTurnData env s0 (now env) false w0
             | None => w0
             end).
  assert (Hinv1 : inflightInvariant w1).
  { revert Hinv. apply inflight_view. unfold w1, writeTurnData.
    by destruct (currentTurn (mem w0) !! s0). }
  clearbody w1.
  match goal with
  | |- inflightInvariant
         match _ with Some _ => _ | None => ?x end =>
      assert (Hsaved : inflightInvariant x)
  end.
  { apply inflight_saveTurnState. revert Hinv1. by apply inflight_view. }
  destruct (prompt eventData) as [p|]; [|done].
  destruct (truthy (trim p)); [|done].
  destruct (categorizePrompt p) as [category subcategory].
  revert Hsaved. by apply inflight_view.
Qed.

Lemma inflight_handleSessionEnd env s0 eventData w :
  inflightInvariant w ->
  inflightInvariant (handleSessionEnd env s0 eventData w).
Proof.
  intros Hinv. apply (inflight_ensureLoaded s0) in Hinv.
  unfold handleSessionEnd. cbv zeta.
  set (w0 := ensureLoaded s0 w) in *. clearbody w0.
  apply inflight_cleanupSession. unfold updateSessionRecord.
  match goal with
  | |- inflightInvariant (appendRow _ _ ?x) =>
      assert (Hcost : inflightInvariant x)
  end.
  { destruct (present (transcript_path eventData)); [|done].
    destruct (currentTurn (mem w0) !! s0) as [t|]; [|done].
    destruct (last _) as [latestRecord|]; [|done].
    apply inflight_saveTurnState. revert Hinv. by apply inflight_view. }
  revert Hcost. by apply inflight_view.
Qed.

Lemma inflight_handleCompaction env s0 eventData w :
  inflightInvariant w ->
  inflightInvariant (handleCompaction env s0 eventData w).
Proof. unfold handleCompaction. by apply inflight_view. Qed.

Create HintDb inflight.

#[local] Hint Resolve inflight_handleTurnStart inflight_handleToolStart
  inflight_handleToolEnd inflight_handleCompaction
  inflight_handleSessionEnd inflight_restart : inflight.

Lemma inflight_processHookEvent env eventData w :
  inflightInvariant w -> inflightInvariant (processHookEvent env eventData w).
Proof.
  intros Hinv. unfold processHookEvent.
  destruct (validateEventData eventData).
  - repeat case_match; auto with inflight.
  - revert Hinv. by apply inflight_view.
Qed.

Lemma inflight_run actions : forall w,
  inflightInvariant w -> inflightInvariant (run actions w).
Proof.
  induction actions as [|a actions IH]; intros w Hinv; [done|].
  cbn [run fold_left]. apply IH.
  destruct a as [env eventData|]; cbn [step]; auto with inflight.
  by apply inflight_processHookEvent.
Qed.

(* ====================================================================== *)
(** ** Tool completion along a run (claim C2) *)
(* ====================================================================== *)

(** C2.  After any run of events and restarts, a PostToolUse event for
    tool [T] in a session whose in-flight map (as loaded for the event)
    holds entries with that tool name takes the last such entry in key
    order.  That entry is the one stored most recently: keys carry the
    session's counter, which goes up with every stored invocation, and
    every entry before the chosen one has a smaller counter value, while
    no entry after it has the tool name.  Exactly one row is appended to
    the tool ledger; it carries the turn number, start time and input size
    of that entry and, as processing time, the event time minus the stored
    start time.  The entry is removed from the map and every other entry
    stays, in memory and, when the session has a current turn, in the
    state file; the maps of other sessions and the ledgers other than the
    tool and commit ledgers are as before. *)
Theorem matched_tool_end (actions : list action) (env : environment)
    (eventData : eventData) (T : jsstring) (m before after : inflight)
    (key : jsstring) (startData : toolStart) :
  let w := run actions initialWorld in
  let s := session_id eventData in
  let w0 := ensureLoaded s w in
  let w' := processHookEvent env eventData w in
  hook_event_name eventData = Some (lit "PostToolUse") ->
  tool_name eventData = Some T -> truthy T = true ->
  toolStartData (mem w0) !! s = Some m ->
  m = before ++ (key, startData) :: after ->
  StartData.toolName startData = T ->
  Forall (fun kv => StartData.toolName kv.2 <> T) after ->
  (exists n,
     key = toolKeyOf s T n
     /\ Forall (fun kv => exists n', (n' < n)%Z
                  /\ kv.1 = toolKeyOf s (StartData.toolName kv.2) n')
          before)
  /\ ledger tools (files w')
     = ledger tools (files w)
       ++ [[CStr s; CStr (userId env);
            CInt (StartData.turnNumber startData); CStr T;
            CInt (StartData.startTime startData); CInt (now env);
            CStr (if default true (success eventData)
                  then lit "1" else lit "0");
            CInt (now env - StartData.startTime startData);
            CInt (StartData.inputSize startData);
            CInt (tool_output_size eventData)]]
  /\ toolStartData (mem w') !! s = Some (before ++ after)
  /\ (forall s', s' <> s ->
        toolStartData (mem w') !! s' = toolStartData (mem w0) !! s')
  /\ (forall t, currentTurn (mem w0) !! s = Some t ->
        stateDir w' !! s
        = Some {| state_currentTurn := t;
                  state_toolStartData := before ++ after;
                  state_toolCounter :=
                    default 0%Z (toolCounter (mem w0) !! s) |})
  /\ (forall f, f <> tools -> f <> commits ->
        ledger f (files w') = ledger f (files w)).
Proof.
  intros w s w0 w' Hkind Htool HT Hm Hsplit Hname Hafter.
  assert (Hinv : inflightInvariant w0).
  { apply inflight_ensureLoaded, inflight_run, inflight_initial. }
  destruct (Hinv s) as (Hkeyed & _ & _). specialize (Hkeyed m Hm).
  split.
  - rewrite Hsplit in Hkeyed.
    destruct (keyed_split s before key startData after _ _ Hkeyed)
      as (n & Hkey & Hbefore).
    exists n. by rewrite <- Hname.
  - apply (handleToolEnd_matching env eventData w T m before after key
             startData); try done.
    + by eapply keyed_NoDup.
    + assert (Hin : In key (keys m)).
      { rewrite Hsplit. unfold keys. rewrite map_app.
        apply in_or_app. right. by left. }
      destruct (keyed_keys s m _ _ key Hkeyed Hin) as (T' & n & -> & _).
      apply toolKeyOf_truthy.
Qed.

(** C2 at the sample history: with Bash, Read and Bash in flight, a Bash
    completion takes the second Bash entry and leaves the other two. *)
Lemma matched_tool_end_witness :
  ledger tools
    (files (processHookEvent (exampleEnv 1450)
              (withTool "Bash" (withKind "PostToolUse" blankEvent))
              (run sampleRun initialWorld)))
  = ledger tools (files (run sampleRun initialWorld))
    ++ [[CStr (lit "s1"); CStr (lit "dev@example.org"); CInt 2;
         CStr (lit "Bash"); CInt 1300; CInt 1450; CStr (lit "1");
         CInt (1450 - 1300); CInt 2; CInt 2]]
  /\ toolStartData
       (mem (processHookEvent (exampleEnv 1450)
               (withTool "Bash" (withKind "PostToolUse" blankEvent))
               (run sampleRun initialWorld))) !! lit "s1"
     = Some ([(toolKeyOf (lit "s1") (lit "Bash") 1, sampleStart "Bash" 1100);
              (toolKeyOf (lit "s1") (lit "Read") 2, sampleStart "Read" 1200)]
             ++ []).
Proof.
  destruct (matched_tool_end sampleRun (exampleEnv 1450)
              (withTool "Bash" (withKind "PostToolUse" blankEvent))
              (lit "Bash")
              ([(toolKeyOf (lit "s1") (lit "Bash") 1, sampleStart "Bash" 1100);
                (toolKeyOf (lit "s1") (lit "Read") 2, sampleStart "Read" 1200)]
               ++ (toolKeyOf (lit "s1") (lit "Bash") 3,
                   sampleStart "Bash" 1300) :: [])
              [(toolKeyOf (lit "s1") (lit "Bash") 1, sampleStart "Bash" 1100);
               (toolKeyOf (lit "s1") (lit "Read") 2, sampleStart "Read" 1200)]
              []
              (toolKeyOf (lit "s1") (lit "Bash") 3)
              (sampleStart "Bash" 1300))
    as (_ & Hrow & Hmap & _).
  - reflexivity.
  - reflexivity.
  - reflexivity.
  - vm_compute. reflexivity.
  - reflexivity.
  - reflexivity.
  - constructor.
  - split; [exact Hrow | exact Hmap].
Defined.

(* ====================================================================== *)
(** ** Worked examples *)
(* ====================================================================== *)

(** The two-turn history writes one Turn row, for turn 1 with one tool
    call, one tool row, and leaves turn 2 open with no call in flight. *)
Example twoTurns_ledgers :
  ledger turns (files (run twoTurns initialWorld))
  = [[CStr (lit "s1"); CStr (lit "dev@example.org"); CInt 1; CInt 10;
      CInt 40; CInt 1; CUsd 0; CInt 0]]
  /\ ledger tools (files (run twoTurns initialWorld))
     = [[CStr (lit "s1"); CStr (lit "dev@example.org"); CInt 1;
         CStr (lit "Bash"); CInt 20; CInt 30; CStr (lit "1"); CInt 10;
         CInt 2; CInt 2]]
  /\ stateDir (run twoTurns initialWorld) !! lit "s1"
     = Some {| state_currentTurn :=
                 {| number := 2; startTime := 40; toolCount := 0;
                    turnCost := 0; totalSessionCost := 0 |};
               state_toolStartData := [];
               state_toolCounter := 1 |}.
Proof. repeat split; vm_compute; reflexivity. Qed.

(** Without the word [add] the example prompt is a bug fix with tests. *)
Example bug_fix_with_tests :
  categorizePrompt (lit "fix the broken login validation and write a test")
  = (lit "bug_fix", lit "with_tests").
Proof. vm_compute. reflexivity. Qed.

Example classifier_is_case_insensitive :
  categorizePrompt (lit "It Doesn't Work") = (lit "bug_fix", lit "fix").
Proof. vm_compute. reflexivity. Qed.

Example classifier_needs_word_boundaries :
  categorizePrompt (lit "address the padding") = (lit "general", lit "other").
Proof. vm_compute. reflexivity. Qed.

(** A field whose text ends in a double quote, and the empty row. *)
Example escape_trailing_quote :
  escapeCSV (Some (lit "a" ++ [QUOTE])) = QUOTE :: lit "a" ++ [QUOTE; QUOTE; QUOTE]
  /\ parseCSVRow (escapeCSV (Some (lit "a" ++ [QUOTE]))) = [lit "a" ++ [QUOTE]].
Proof. split; reflexivity. Qed.

Example empty_row_is_one_empty_field :
  buildCSVRow [] = [] /\ parseCSVRow (buildCSVRow []) = [[]].
Proof. split; reflexivity. Qed.

(** A negative number handed to the writer gains the apostrophe. *)
Example negative_number_is_neutralized :
  escapeCSV (Some (String_of_Z (-5))) = lit "'-5".
Proof. reflexivity. Qed.

(* ====================================================================== *)
(** ** More on the ledger discipline *)
(* ====================================================================== *)

Lemma neutralize_never_trigger v : startsWithFormulaTrigger (neutralize v) = false.
Proof.
  unfold neutralize.
  destruct (startsWithFormulaTrigger v) eqn:Hv.
  - destruct v; [done|]. reflexivity.
  - by rewrite andb_false_r.
Qed.

Lemma escapeCSV_never_trigger value :
  startsWithFormulaTrigger (escapeCSV value) = false.
Proof.
  destruct value as [v|]; [|done]. unfold escapeCSV. cbv zeta.
  destruct (needsQuoting (neutralize v)); [done|].
  apply neutralize_never_trigger.
Qed.

(** A row of any values, read back: one field per value, the empty string
    for an undefined value, the neutralized text otherwise. *)
Lemma parse_build_any (values : list (option jsstring)) :
  values <> [] ->
  parseCSVRow (buildCSVRow values)
  = map (fun v => neutralize (default [] v)) values.
Proof.
  intros Hne. rewrite buildCSVRow_default.
  rewrite parse_build by (by destruct values).
  by rewrite map_map.
Qed.

(** X1.  The formula guard covers every value and all six formula
    characters: no stored field begins with one of them, and no field of
    a built row, as the row parser reads it, begins with one. *)
Theorem formula_guard (values : list (option jsstring)) :
  Forall (fun value => startsWithFormulaTrigger (escapeCSV value) = false)
         values
  /\ Forall (fun field => startsWithFormulaTrigger field = false)
            (parseCSVRow (buildCSVRow values)).
Proof.
  split.
  - apply Forall_forall. intros value _. apply escapeCSV_never_trigger.
  - destruct values as [|v vs]; [by repeat constructor|].
    rewrite parse_build_any by done. apply Forall_forall.
    intros field Hin. apply list_elem_of_In, in_map_iff in Hin as (x & <- & _).
    apply neutralize_never_trigger.
Qed.

(** X2.  The round trip of a row holds for every non-empty list of
    values, with commas, double quotes and newlines inside them: the
    parser returns one field per value, the empty string for null or
    undefined and otherwise the text with its formula guard. *)
Theorem parseCSVRow_buildCSVRow_any (values : list (option jsstring)) :
  values <> [] ->
  parseCSVRow (buildCSVRow values)
  = map (fun v => neutralize (default [] v)) values
  /\ length (parseCSVRow (buildCSVRow values)) = length values.
Proof.
  intros Hne. rewrite parse_build_any by done. by rewrite length_map.
Qed.

(** X2 at a row with an undefined value, a formula and a comma. *)
Lemma parseCSVRow_buildCSVRow_any_witness :
  parseCSVRow (buildCSVRow [None; Some (lit "=1+1"); Some (lit "a,b")])
  = map (fun v => neutralize (default [] v))
        [None; Some (lit "=1+1"); Some (lit "a,b")]
  /\ length (parseCSVRow
               (buildCSVRow [None; Some (lit "=1+1"); Some (lit "a,b")]))
     = length [None; Some (lit "=1+1"); Some (lit "a,b")].
Proof.
  apply (parseCSVRow_buildCSVRow_any
           [None; Some (lit "=1+1"); Some (lit "a,b")]).
  discriminate.
Defined.

Lemma parse_unquoted row : forall result current,
  ~ In QUOTE row ->
  parseCSVRow_from row result current false
  = result ++ match split COMMA row with
              | first :: others => (current ++ first) :: others
              | [] => [current]
              end.
Proof.
  induction row as [|c row IH]; intros result current Hq.
  - cbn. by rewrite app_nil_r.
  - assert (Hc : c <> QUOTE) by (intros ->; apply Hq; by left).
    assert (Hrow : ~ In QUOTE row) by (intros Hin; apply Hq; by right).
    cbn [split]. destruct (N.eqb_spec c COMMA) as [->|Hcomma].
    + rewrite parse_comma, IH by done. rewrite <- app_assoc. cbn [app].
      rewrite app_nil_r.
      pose proof (split_nonempty COMMA row).
      by destruct (split COMMA row).
    + rewrite parse_char by (try left; done). rewrite IH by done.
      pose proof (split_nonempty COMMA row).
      destruct (split COMMA row) as [|first others]; [done|].
      by rewrite <- app_assoc.
Qed.

(** X3.  On a row without double quotes the row parser is the split at
    commas; with or without quotes it returns at least one field. *)
Theorem parseCSVRow_unquoted (row : jsstring) :
  parseCSVRow row <> []
  /\ (~ In QUOTE row -> parseCSVRow row = split COMMA row).
Proof.
  split.
  - unfold parseCSVRow.
    assert (Hgen : forall r result current inQuotes,
              parseCSVRow_from r result current inQuotes <> []).
    { induction r as [r IH] using (induction_ltof1 _ (@length N)).
      unfold ltof in IH. intros result current inQuotes.
      destruct r as [|c r]; cbn [parseCSVRow_from].
      - by destruct result.
      - destruct (c =? QUOTE).
        + destruct r as [|c' r]; [apply IH; cbn; lia|].
          destruct (inQuotes && (c' =? QUOTE)); apply IH; cbn; lia.
        + destruct ((c =? COMMA) && negb inQuotes); apply IH; cbn; lia. }
    apply Hgen.
  - intros Hq. unfold parseCSVRow. rewrite parse_unquoted by done.
    cbn [app]. pose proof (split_nonempty COMMA row).
    by destruct (split COMMA row).
Qed.

(** X3 at a plain row with an empty field in the middle. *)
Lemma parseCSVRow_unquoted_witness :
  parseCSVRow (lit "a,,b") = split COMMA (lit "a,,b").
Proof.
  apply (parseCSVRow_unquoted (lit "a,,b")).
  vm_compute. intros H; repeat destruct H as [H | H]; discriminate || done.
Defined.

(* ====================================================================== *)
(** ** More on the header check and the migration *)
(* ====================================================================== *)

Lemma nonBlankLines_header header :
  wellFormedHeader header = true ->
  nonBlankLines (header ++ [NEWLINE]) = [header].
Proof.
  intros Hheader. unfold wellFormedHeader in Hheader.
  apply andb_true_iff in Hheader as [Hheader _].
  apply andb_true_iff in Hheader as [Hnewline Hblank].
  apply negb_true_iff, includes_false in Hnewline.
  rewrite <- (join_single [NEWLINE] header) at 1.
  apply nonBlankLines_written; [done|]. by repeat constructor.
Qed.

(** A file that already starts with the expected header is left alone. *)
Lemma ensureCSVHeader_settled now path header fs content rows :
  fs !! path = Some content -> nonBlankLines content = header :: rows ->
  ensureCSVHeader now path header fs = fs.
Proof.
  intros Hfile Hlines. unfold ensureCSVHeader, migrateCSVIfNeeded.
  rewrite Hfile, Hlines. by rewrite decide_True.
Qed.

(** X4.  The header check of one ledger file, for a file that is absent
    or has a non-blank line: afterwards the file exists and its first
    non-blank line is the expected header, and a second check, at any
    later time, changes nothing (no second backup, no rewrite). *)
Theorem ensureCSVHeader_idempotent (now now' : Z)
    (path key header : jsstring) (fs : filesystem) :
  In (key, header) CSV_HEADERS ->
  fs !! path = None
  \/ (exists content, fs !! path = Some content
                      /\ nonBlankLines content <> []) ->
  let fs' := ensureCSVHeader now path header fs in
  (exists content' rows,
     fs' !! path = Some content'
     /\ nonBlankLines content' = header :: rows)
  /\ ensureCSVHeader now' path header fs' = fs'.
Proof.
  intros Htable Hfile fs'.
  pose proof (wellFormedHeader_table key header Htable) as Hheader.
  assert (Hfirst : exists content' rows,
            fs' !! path = Some content'
            /\ nonBlankLines content' = header :: rows).
  { destruct Hfile as [Habsent | (content & Hcontent & Hlines)].
    - exists (header ++ [NEWLINE]), []. unfold fs', ensureCSVHeader.
      rewrite Habsent. unfold appendCSV. rewrite Habsent. cbn [default app].
      split; [apply lookup_insert_eq | by apply nonBlankLines_header].
    - destruct (nonBlankLines content) as [|existing rows] eqn:Hnb; [done|].
      destruct (decide (existing = header)) as [->|Hdiffer].
      + exists content, rows. unfold fs'.
        by rewrite (ensureCSVHeader_settled now path header fs content rows).
      + destruct (migrateCSVIfNeeded_migrates now path header fs content
                    existing rows Hheader Hcontent Hnb Hdiffer)
          as (_ & _ & migrated & Hmigrated & Houtcome).
        destruct Houtcome as (h & r & r' & _ & Hlines' & _).
        exists migrated, r'. unfold fs', ensureCSVHeader.
        by rewrite Hcontent. }
  split; [done|].
  destruct Hfirst as (content' & rows & Hcontent' & Hlines').
  by apply (ensureCSVHeader_settled now' path header fs' content' rows).
Qed.

(** X4 at the commit ledger of the older version. *)
Lemma ensureCSVHeader_idempotent_witness :
  ensureCSVHeader 5678 commitsPath newCommitsHeader
    (ensureCSVHeader 1234 commitsPath newCommitsHeader sampleFiles)
  = ensureCSVHeader 1234 commitsPath newCommitsHeader sampleFiles.
Proof.
  apply (ensureCSVHeader_idempotent 1234 5678 commitsPath (lit "commits")
           newCommitsHeader sampleFiles).
  - do 2 right. left. reflexivity.
  - right. exists oldCommitsFile. split; [reflexivity|].
    vm_compute. discriminate.
Defined.

Lemma carriedOver_clean oldColumns newColumns oldValues newValues :
  Forall (fun v => startsWithFormulaTrigger v = false) oldValues ->
  carriedOver neutralize oldColumns newColumns oldValues newValues ->
  carriedOver (fun value => value) oldColumns newColumns oldValues newValues.
Proof.
  intros Hclean [Hlength Hcolumns]. split; [done|].
  intros j column Hcolumn. destruct (Hcolumns j column Hcolumn) as [Habsent Hat].
  split; [done|]. intros p Hp Hfirst. rewrite (Hat p Hp Hfirst). f_equal.
  destruct (oldValues !! p) as [v|] eqn:Hv; cbn; [|done].
  apply neutralize_plain. rewrite Forall_forall in Hclean.
  apply Hclean. by eapply list_elem_of_lookup_2.
Qed.

(** X5.  A migration keeps every value as it is when no value of the old
    rows begins with a formula character: each new column then holds
    exactly the value of the same-named old column. *)
Theorem migration_keeps_clean_values (now : Z)
    (filePath key expectedHeader content existingHeader : jsstring)
    (rows : list jsstring) (fs : filesystem) :
  In (key, expectedHeader) CSV_HEADERS ->
  fs !! filePath = Some content ->
  nonBlankLines content = existingHeader :: rows ->
  existingHeader <> expectedHeader ->
  Forall (fun line =>
            Forall (fun v => startsWithFormulaTrigger v = false)
                   (parseCSVRow line)) rows ->
  exists migrated,
    ensureCSVHeader now filePath expectedHeader fs !! filePath = Some migrated
    /\ migrationOutcome (fun value => value) content migrated expectedHeader.
Proof.
  intros Htable Hfile Hlines Hdiffer Hclean.
  pose proof (wellFormedHeader_table key expectedHeader Htable) as Hheader.
  destruct (migrateCSVIfNeeded_migrates now filePath expectedHeader fs content
              existingHeader rows Hheader Hfile Hlines Hdiffer)
    as (_ & _ & migrated & Hmigrated & Houtcome).
  exists migrated. split; [unfold ensureCSVHeader; by rewrite Hfile|].
  destruct Houtcome as (h & r & r' & Hold & Hnew & Hlength & Hcarried).
  rewrite Hlines in Hold. injection Hold as <- <-.
  exists existingHeader, rows, r'. split; [done|]. split; [done|].
  split; [done|]. intros i line line' Hline Hline'.
  apply carriedOver_clean; [|by apply (Hcarried i)].
  rewrite Forall_forall in Hclean. apply Hclean.
  by eapply list_elem_of_lookup_2.
Qed.

(** X5 at a commit ledger of the older version without formula
    characters. *)
Lemma migration_keeps_clean_values_witness :
  exists migrated,
    ensureCSVHeader 1234 commitsPath newCommitsHeader cleanFiles
      !! commitsPath = Some migrated
    /\ migrationOutcome (fun value => value) cleanCommitsFile migrated
         newCommitsHeader.
Proof.
  apply (migration_keeps_clean_values 1234 commitsPath (lit "commits")
           newCommitsHeader cleanCommitsFile oldCommitsHeader
           [cleanCommitsRow] cleanFiles).
  - do 2 right. left. reflexivity.
  - reflexivity.
  - vm_compute. reflexivity.
  - vm_compute. discriminate.
  - vm_compute. repeat constructor.
Defined.

(** X6.  The header check leaves the data directory exactly as it is (no
    header written, no backup made, no file rewritten) when, and only
    when, the ledger file exists and its first non-blank line is the
    expected header. *)
Theorem ensureCSVHeader_unchanged_iff (now : Z)
    (path key header : jsstring) (fs : filesystem) :
  In (key, header) CSV_HEADERS ->
  ensureCSVHeader now path header fs = fs
  <-> exists content rows,
        fs !! path = Some content
        /\ nonBlankLines content = header :: rows.
Proof.
  intros Htable.
  pose proof (wellFormedHeader_table key header Htable) as Hheader.
  split.
  - intros Hsame.
    destruct (fs !! path) as [content|] eqn:Hfile.
    + destruct (nonBlankLines content) as [|existing rows] eqn:Hlines.
      * exfalso. unfold ensureCSVHeader, migrateCSVIfNeeded in Hsame.
        rewrite Hfile, Hlines in Hsame. unfold appendCSV in Hsame.
        rewrite Hfile in Hsame. cbn [default] in Hsame.
        assert (Hlook : fs !! path = Some (content ++ header ++ [NEWLINE])).
        { rewrite <- Hsame at 1. apply lookup_insert_eq. }
        rewrite Hfile in Hlook. injection Hlook as Hlook.
        apply (f_equal length) in Hlook. rewrite !length_app in Hlook.
        cbn in Hlook. lia.
      * destruct (decide (existing = header)) as [->|Hdiffer];
          [by exists content, rows|].
        exfalso.
        destruct (migrateCSVIfNeeded_migrates now path header fs content
                    existing rows Hheader Hfile Hlines Hdiffer)
          as (_ & _ & migrated & Hmigrated & Houtcome).
        unfold ensureCSVHeader in Hsame. rewrite Hfile in Hsame.
        rewrite Hsame, Hfile in Hmigrated. injection Hmigrated as <-.
        destruct Houtcome as (h & r & r' & _ & Hnew & _).
        rewrite Hlines in Hnew. by injection Hnew as -> _.
    + exfalso. unfold ensureCSVHeader, appendCSV in Hsame.
      rewrite Hfile in Hsame.
      assert (Hlook : fs !! path = Some (default [] None ++ header ++ [NEWLINE])).
      { rewrite <- Hsame at 1. apply lookup_insert_eq. }
      by rewrite Hfile in Hlook.
  - intros (content & rows & Hfile & Hlines).
    by apply (ensureCSVHeader_settled now path header fs content rows).
Qed.

(** X6 at a commit ledger that has the current header. *)
Lemma ensureCSVHeader_unchanged_iff_witness :
  ensureCSVHeader 99 commitsPath newCommitsHeader currentFiles = currentFiles.
Proof.
  apply (ensureCSVHeader_unchanged_iff 99 commitsPath (lit "commits")
           newCommitsHeader currentFiles).
  - do 2 right. left. reflexivity.
  - exists migratedCommitsFile, [migratedCommitsRow].
    split; vm_compute; reflexivity.
Defined.

(* ====================================================================== *)
(** ** What one event can write *)
(* ====================================================================== *)

Lemma processHookEvent_cases env eventData w :
  (exists message, processHookEvent env eventData w = consoleError message w)
  \/ (hook_event_name eventData = Some (lit "UserPromptSubmit")
      /\ processHookEvent env eventData w
         = handleTurnStart env (session_id eventData) eventData w)
  \/ (hook_event_name eventData = Some (lit "PreToolUse")
      /\ exists T,
           tool_name eventData = Some T /\ truthy T = true
           /\ processHookEvent env eventData w
              = handleToolStart env
                  (if truthy (session_id eventData)
                   then session_id eventData else generateSessionId env)
                  T eventData w)
  \/ (hook_event_name eventData = Some (lit "PostToolUse")
      /\ exists T,
           tool_name eventData = Some T /\ truthy T = true
           /\ processHookEvent env eventData w
              = handleToolEnd env (session_id eventData) T eventData w)
  \/ (hook_event_name eventData = Some (lit "PreCompact")
      /\ processHookEvent env eventData w
         = handleCompaction env (session_id eventData) eventData w)
  \/ (hook_event_name eventData = Some (lit "Stop")
      /\ processHookEvent env eventData w
         = handleSessionEnd env (session_id eventData) eventData w).
Proof.
  assert (Hinvalid : forall error,
            validateEventData eventData = Invalid error ->
            exists message,
              processHookEvent env eventData w = consoleError message w).
  { intros error Herror. unfold processHookEvent. rewrite Herror. eauto. }
  destruct (hook_event_name eventData) as [kind|] eqn:Hkind.
  2:{ left. eapply Hinvalid. by apply validate_missing_kind. }
  destruct (decide (kind ∈ validEvents)) as [Hin|Hout].
  2:{ left. destruct (validate_unknown_kind eventData kind Hkind Hout)
        as [error Herror]. by eapply Hinvalid. }
  assert (Htool : kind = lit "PreToolUse" \/ kind = lit "PostToolUse" ->
            present (tool_name eventData) = false ->
            exists message,
              processHookEvent env eventData w = consoleError message w).
  { intros Hk Hnone. eapply Hinvalid. by eapply validate_missing_tool. }
  apply validEvents_spec in Hin as [-> | [-> | [-> | [-> | ->]]]].
  - right. left. split; [done|]. by apply dispatch_UserPromptSubmit.
  - destruct (tool_name eventData) as [T|] eqn:HT.
    + destruct (truthy T) eqn:Htruthy.
      * do 2 right. left. split; [done|]. exists T.
        repeat split; try done. by apply dispatch_PreToolUse.
      * left. apply Htool; [by left|]. by cbn.
    + left. apply Htool; [by left|done].
  - destruct (tool_name eventData) as [T|] eqn:HT.
    + destruct (truthy T) eqn:Htruthy.
      * do 3 right. left. split; [done|]. exists T.
        repeat split; try done. by apply dispatch_PostToolUse.
      * left. apply Htool; [by right|]. by cbn.
    + left. apply Htool; [by right|done].
  - do 4 right. left. split; [done|]. by apply dispatch_PreCompact.
  - do 5 right. split; [done|]. by apply dispatch_Stop.
Qed.

Lemma appended_same fs l : appended fs l l.
Proof. intros f. exists []. rewrite app_nil_r. repeat split; cbn; [lia|done]. Qed.

Lemma appended_files fs w w' : files w' = files w -> appended fs (files w) (files w').
Proof. intros ->. apply appended_same. Qed.

Lemma appended_appendRow f data w :
  appended [f] (files w) (files (appendRow f data w)).
Proof.
  intros g. destruct (decide (f = g)) as [->|Hne].
  - exists [data]. rewrite ledger_appendRow_same.
    repeat split; cbn; [lia|]. intros _. by apply list_elem_of_singleton.
  - exists []. rewrite ledger_appendRow_other by done.
    rewrite app_nil_r. repeat split; cbn; [lia|done].
Qed.

Lemma appended_compose A B l l1 l2 :
  (forall f, f ∈ A -> f ∉ B) ->
  appended A l l1 -> appended B l1 l2 -> appended (A ++ B) l l2.
Proof.
  intros Hdisjoint H1 H2 f.
  destruct (H1 f) as (rows1 & Heq1 & Hlen1 & Hin1).
  destruct (H2 f) as (rows2 & Heq2 & Hlen2 & Hin2).
  exists (rows1 ++ rows2). rewrite Heq2, Heq1, <- app_assoc.
  split; [done|]. rewrite length_app.
  destruct rows1 as [|r1 rows1], rows2 as [|r2 rows2]; cbn in *.
  - split; [lia|done].
  - split; [lia|]. intros _. apply elem_of_app. right. by apply Hin2.
  - split; [lia|]. intros _. apply elem_of_app. left. by apply Hin1.
  - exfalso. apply (Hdisjoint f); [by apply Hin1|by apply Hin2].
Qed.

Lemma appended_handleTurnStart env s eventData w :
  appended [turns; prompts] (files w)
    (files (handleTurnStart env s eventData w)).
Proof.
  unfold handleTurnStart. cbv zeta.
  set (w0 := ensureLoaded s w).
  set (w1 := match currentTurn (mem w0) !! s with
             | Some _ => writeTurnData env s (now env) false w0
             | None => w0
             end).
  assert (H1 : appended [turns] (files w) (files w1)).
  { rewrite <- (files_ensureLoaded s w). fold w0. unfold w1, writeTurnData.
    destruct (currentTurn (mem w0) !! s);
      [apply appended_appendRow | apply appended_same]. }
  clearbody w1.
  match goal with
  | |- appended _ _ (files match _ with
                            | Some _ => if _ then _ else ?x
                            | None => ?x end) =>
      set (w2 := x); assert (H2 : files w2 = files w1)
        by (unfold w2; by rewrite files_saveTurnState)
  end.
  clearbody w2.
  apply (appended_compose [turns] [prompts] _ (files w1)); [|done|].
  - intros f ->%list_elem_of_singleton Hin.
    by apply list_elem_of_singleton in Hin.
  - rewrite <- H2.
    destruct (prompt eventData) as [p|]; [|apply appended_same].
    destruct (truthy (trim p)); [|apply appended_same].
    destruct (categorizePrompt p). apply appended_appendRow.
Qed.

Lemma appended_handleToolStart env s T eventData w :
  appended [gitOps] (files w) (files (handleToolStart env s T eventData w)).
Proof.
  unfold handleToolStart. cbv zeta.
  match goal with
  | |- appended _ _ (files (if _ then handleGitOperations _ _ _ ?x else ?x)) =>
      set (w1 := x); assert (H1 : files w1 = files w)
  end.
  { unfold w1. rewrite files_saveTurnState. cbn [setToolStartData
      setToolCounter withMem files].
    destruct (currentTurn (mem (ensureLoaded s w)) !! s);
      cbn [setCurrentTurn withMem files]; apply files_ensureLoaded. }
  clearbody w1. rewrite <- H1.
  case_match; [|apply appended_same].
  unfold handleGitOperations.
  destruct (gitOperationRow env s _);
    [apply appended_appendRow | apply appended_same].
Qed.

Lemma appended_handleToolEnd env s T eventData w :
  appended [tools; commits] (files w)
    (files (handleToolEnd env s T eventData w)).
Proof.
  unfold handleToolEnd. cbv zeta.
  set (w0 := ensureLoaded s w).
  assert (H0 : files w0 = files w) by apply files_ensureLoaded.
  clearbody w0. rewrite <- H0.
  destruct (toolStartData (mem w0) !! s) as [m|];
    [|by apply appended_files].
  destruct (findMatchingKey T m) as [key|]; [|by apply appended_files].
  destruct (truthy key); [|by apply appended_files].
  destruct (getKey key m) as [startData|]; [|by apply appended_files].
  rewrite files_saveTurnState.
  apply (appended_compose [tools] [commits] _
           (files (appendRow tools (toolRow env s T eventData startData) w0))).
  - intros f ->%list_elem_of_singleton Hin.
    by apply list_elem_of_singleton in Hin.
  - apply appended_appendRow.
  - case_match; [|by apply appended_files].
    unfold handleGitCommand. destruct (gitCommitRow env s _) as [commitData|].
    + apply (appended_appendRow commits commitData
               (setToolStartData s (deleteKey key m)
                  (appendRow tools (toolRow env s T eventData startData) w0))).
    + by apply appended_files.
Qed.

Lemma appended_handleCompaction env s eventData w :
  appended [compactions] (files w)
    (files (handleCompaction env s eventData w)).
Proof. unfold handleCompaction. cbv zeta. apply appended_appendRow. Qed.

Lemma appended_handleSessionEnd env s eventData w :
  appended [costsLedger; sessions] (files w)
    (files (handleSessionEnd env s eventData w)).
Proof.
  unfold handleSessionEnd. cbv zeta.
  set (w0 := ensureLoaded s w).
  assert (H0 : files w0 = files w) by apply files_ensureLoaded.
  clearbody w0. rewrite <- H0.
  match goal with
  | |- appended _ _ (files (cleanupSession _
                              (updateSessionRecord _ _ _ _ _ _ ?x))) =>
      set (w1 := x)
  end.
  assert (H1 : appended [costsLedger] (files w0) (files w1)).
  { unfold w1. destruct (present (transcript_path eventData));
      [|apply appended_same].
    destruct (currentTurn (mem w0) !! s) as [t|]; [|apply appended_same].
    destruct (last _) as [latestRecord|]; [|apply appended_same].
    rewrite files_saveTurnState. cbn [setCurrentTurn withMem files].
    apply appended_appendRow. }
  clearbody w1.
  apply (appended_compose [costsLedger] [sessions] _ (files w1)); [|done|].
  - intros f ->%list_elem_of_singleton Hin.
    by apply list_elem_of_singleton in Hin.
  - unfold cleanupSession, updateSessionRecord. cbn [withMem files].
    apply appended_appendRow.
Qed.

Lemma appended_processHookEvent env eventData w :
  exists fs,
    appended fs (files w) (files (processHookEvent env eventData w))
    /\ forall g, g ∈ fs -> hook_event_name eventData = Some (writerOf g).
Proof.
  destruct (processHookEvent_cases env eventData w)
    as [[message ->]
       | [[Hkind ->]
         | [[Hkind (T & _ & _ & ->)]
           | [[Hkind (T & _ & _ & ->)]
             | [[Hkind ->] | [Hkind ->]]]]]].
  - exists []. split; [by apply appended_files|].
    intros g Hg. by apply elem_of_nil in Hg.
  - exists [turns; prompts]. split; [apply appended_handleTurnStart|].
    intros g Hg. rewrite !elem_of_cons, elem_of_nil in Hg.
    by destruct Hg as [-> | [-> | []]].
  - exists [gitOps]. split; [apply appended_handleToolStart|].
    intros g Hg. by apply list_elem_of_singleton in Hg as ->.
  - exists [tools; commits]. split; [apply appended_handleToolEnd|].
    intros g Hg. rewrite !elem_of_cons, elem_of_nil in Hg.
    by destruct Hg as [-> | [-> | []]].
  - exists [compactions]. split; [apply appended_handleCompaction|].
    intros g Hg. by apply list_elem_of_singleton in Hg as ->.
  - exists [costsLedger; sessions]. split; [apply appended_handleSessionEnd|].
    intros g Hg. rewrite !elem_of_cons, elem_of_nil in Hg.
    by destruct Hg as [-> | [-> | []]].
Qed.

(** X7.  Whatever the event and the world, handling one event never
    removes or changes a row: every ledger keeps its rows and gets at most
    one more, at its end, and only from the one event kind that writes it
    (turn and prompt rows from UserPromptSubmit, git operation rows from
    PreToolUse, tool and commit rows from PostToolUse, compaction rows from
    PreCompact, cost and session rows from Stop). *)
Theorem one_row_per_ledger (env : environment) (eventData : eventData)
    (w : world) (f : ledgerName) :
  exists rows : list row,
    ledger f (files (processHookEvent env eventData w))
    = ledger f (files w) ++ rows
    /\ (length rows <= 1)%nat
    /\ (rows <> [] -> hook_event_name eventData = Some (writerOf f)).
Proof.
  destruct (appended_processHookEvent env eventData w)
    as (fs & Happended & Hkinds).
  destruct (Happended f) as (rows & Heq & Hlen & Hin).
  exists rows. repeat split; try done. intros Hrows. by apply Hkinds, Hin.
Qed.

(* ====================================================================== *)
(** ** Sessions do not interfere *)
(* ====================================================================== *)

Section OtherSession.

Variables s s' : jsstring.
Hypothesis Hother : s' <> s.

Lemma view_loadTurnState w : sessionView s' (loadTurnState s w) = sessionView s' w.
Proof.
  unfold loadTurnState, sessionView. destruct (stateDir w !! s); [|done].
  cbn. by rewrite !lookup_insert_ne.
Qed.

Lemma view_ensureLoaded w : sessionView s' (ensureLoaded s w) = sessionView s' w.
Proof.
  unfold ensureLoaded. destruct (currentTurn (mem w) !! s); [done|].
  apply view_loadTurnState.
Qed.

Lemma view_saveTurnState w : sessionView s' (saveTurnState s w) = sessionView s' w.
Proof.
  unfold saveTurnState, sessionView. destruct (currentTurn (mem w) !! s); [|done].
  cbn. by rewrite !lookup_insert_ne.
Qed.

Lemma view_setCurrentTurn t w :
  sessionView s' (setCurrentTurn s t w) = sessionView s' w.
Proof. unfold sessionView. cbn. by rewrite lookup_insert_ne. Qed.

Lemma view_setToolStartData m w :
  sessionView s' (setToolStartData s m w) = sessionView s' w.
Proof. unfold sessionView. cbn. by rewrite lookup_insert_ne. Qed.

Lemma view_setToolCounter n w :
  sessionView s' (setToolCounter s n w) = sessionView s' w.
Proof. unfold sessionView. cbn. by rewrite lookup_insert_ne. Qed.

Lemma view_cleanupSession w :
  sessionView s' (cleanupSession s w) = sessionView s' w.
Proof. unfold sessionView. cbn. by rewrite !lookup_delete_ne. Qed.

Lemma view_handleTurnStart env eventData w :
  sessionView s' (handleTurnStart env s eventData w) = sessionView s' w.
Proof.
  unfold handleTurnStart. cbv zeta.
  set (w0 := ensureLoaded s w).
  assert (H0 : sessionView s' w0 = sessionView s' w) by apply view_ensureLoaded.
  clearbody w0. rewrite <- H0.
  set (w1 := match currentTurn (mem w0) !! s with
             | Some _ => writeTurnData env s (now env) false w0
             | None => w0
             end).
  assert (H1 : sessionView s' w1 = sessionView s' w0).
  { unfold w1, writeTurnData. by destruct (currentTurn (mem w0) !! s). }
  clearbody w1. rewrite <- H1.
  match goal with
  | |- sessionView _ match _ with
                     | Some _ => if _ then _ else ?x
                     | None => ?x end = _ =>
      set (w2 := x); assert (H2 : sessionView s' w2 = sessionView s' w1)
        by (unfold w2; by rewrite view_saveTurnState, view_setCurrentTurn)
  end.
  clearbody w2. rewrite <- H2.
  destruct (prompt eventData) as [p|]; [|done].
  destruct (truthy (trim p)); [|done]. by destruct (categorizePrompt p).
Qed.

Lemma view_handleToolStart env T eventData w :
  sessionView s' (handleToolStart env s T eventData w) = sessionView s' w.
Proof.
  unfold handleToolStart. cbv zeta.
  match goal with
  | |- sessionView _ (if _ then handleGitOperations _ _ _ ?x else ?x) = _ =>
      set (w1 := x); assert (H1 : sessionView s' w1 = sessionView s' w)
  end.
  { unfold w1.
    rewrite view_saveTurnState, view_setToolStartData, view_setToolCounter.
    destruct (currentTurn (mem (ensureLoaded s w)) !! s);
      rewrite ?view_setCurrentTurn; apply view_ensureLoaded. }
  clearbody w1. rewrite <- H1. case_match; [|done].
  unfold handleGitOperations. by destruct (gitOperationRow env s _).
Qed.

Lemma view_handleToolEnd env T eventData w :
  sessionView s' (handleToolEnd env s T eventData w) = sessionView s' w.
Proof.
  unfold handleToolEnd. cbv zeta.
  set (w0 := ensureLoaded s w).
  assert (H0 : sessionView s' w0 = sessionView s' w) by apply view_ensureLoaded.
  clearbody w0. rewrite <- H0.
  destruct (toolStartData (mem w0) !! s) as [m|]; [|done].
  destruct (findMatchingKey T m) as [key|]; [|done].
  destruct (truthy key); [|done].
  destruct (getKey key m) as [startData|]; [|done].
  rewrite view_saveTurnState.
  case_match.
  - unfold handleGitCommand. destruct (gitCommitRow env s _);
      by rewrite <- (view_setToolStartData (deleteKey key m) w0).
  - by rewrite view_setToolStartData.
Qed.

Lemma view_handleSessionEnd env eventData w :
  sessionView s' (handleSessionEnd env s eventData w) = sessionView s' w.
Proof.
  unfold handleSessionEnd. cbv zeta.
  set (w0 := ensureLoaded s w).
  assert (H0 : sessionView s' w0 = sessionView s' w) by apply view_ensureLoaded.
  clearbody w0. rewrite <- H0.
  rewrite view_cleanupSession. unfold updateSessionRecord.
  match goal with
  | |- sessionView _ (appendRow _ _ ?x) = _ => set (w1 := x)
  end.
  change (sessionView s' w1 = sessionView s' w0). unfold w1.
  destruct (present (transcript_path eventData)); [|done].
  destruct (currentTurn (mem w0) !! s) as [t|]; [|done].
  destruct (last _) as [latestRecord|]; [|done].
  by rewrite view_saveTurnState, view_setCurrentTurn.
Qed.

End OtherSession.



(* ====================================================================== *)
(** ** Events handled by a process of their own *)
(* ====================================================================== *)

Lemma run_app actions1 actions2 w :
  run (actions1 ++ actions2) w = run actions2 (run actions1 w).
Proof. unfold run. apply fold_left_app. Qed.

Lemma freshRun_cons env eventData events w :
  run (freshRun ((env, eventData) :: events)) w
  = run (freshRun events)
      (processHookEvent env eventData (withMem emptyMemory w)).
Proof. reflexivity. Qed.

Lemma compaction_fresh env eventData w :
  Forall (fun r => turnNumberOf r = Some 1%Z) (ledger compactions (files w)) ->
  Forall (fun r => turnNumberOf r = Some 1%Z)
    (ledger compactions
       (files (processHookEvent env eventData (withMem emptyMemory w)))).
Proof.
  intros Hrows.
  destruct (hook_event_name eventData) as [kind|] eqn:Hkind.
  - destruct (decide (kind = lit "PreCompact")) as [->|Hne].
    + rewrite dispatch_PreCompact by done.
      unfold handleCompaction. cbv zeta.
      rewrite ledger_appendRow_same. apply Forall_app. split; [done|].
      by repeat constructor.
    + destruct (appended_processHookEvent env eventData (withMem emptyMemory w))
        as (fs & Happended & Hkinds).
      destruct (Happended compactions) as (rows & -> & _ & Hin).
      destruct rows as [|r rows]; [by rewrite app_nil_r|].
      exfalso. specialize (Hkinds compactions (Hin ltac:(done))).
      rewrite Hkind in Hkinds. by injection Hkinds.
  - unfold processHookEvent. by rewrite validate_missing_kind.
Qed.

(** X9.  When every event is handled by a process of its own, every
    compaction row carries turn number 1, whatever turn the session is in:
    the compaction handler reads the turn from memory and does not load
    the state file. *)
Theorem compaction_rows_turn_one (events : list (environment * eventData)) :
  Forall (fun r => turnNumberOf r = Some 1%Z)
    (ledger compactions (files (run (freshRun events) initialWorld))).
Proof.
  assert (Hany : forall w,
            Forall (fun r => turnNumberOf r = Some 1%Z)
              (ledger compactions (files w)) ->
            Forall (fun r => turnNumberOf r = Some 1%Z)
              (ledger compactions (files (run (freshRun events) w)))).
  { induction events as [|[env eventData] events IH]; intros w Hrows; [done|].
    rewrite freshRun_cons. by apply IH, compaction_fresh. }
  apply Hany. constructor.
Qed.

Lemma stderr_handleGitOperations env s command w :
  stderr (handleGitOperations env s command w) = stderr w.
Proof.
  unfold handleGitOperations. by destruct (gitOperationRow env s command).
Qed.

Lemma handleToolStart_fresh env s T eventData w state :
  currentTurn (mem w) !! s = None -> stateDir w !! s = Some state ->
  inflightInvariant w ->
  let t := state_currentTurn state in
  let counter := (state_toolCounter state + 1)%Z in
  let startData :=
    {| StartData.toolName := T;
       StartData.turnNumber := if (number t =? 0)%Z then 1%Z else number t;
       StartData.startTime := now env;
       StartData.inputSize := tool_input_size eventData |} in
  let w' := handleToolStart env s T eventData w in
  stateDir w' !! s
  = Some {| state_currentTurn :=
              {| number := number t; startTime := startTime t;
                 toolCount := toolCount t + 1; turnCost := turnCost t;
                 totalSessionCost := totalSessionCost t |};
            state_toolStartData :=
              state_toolStartData state ++ [(toolKeyOf s T counter, startData)];
            state_toolCounter := counter |}
  /\ stderr w' = stderr w
  /\ forall f, f <> gitOps -> ledger f (files w') = ledger f (files w).
Proof.
  intros Hmem Hdisk Hinv. cbv zeta.
  destruct (ensureLoaded_fresh s w state Hmem Hdisk) as (Hturn & Hdata & Hcounter).
  destruct (Hinv s) as (_ & _ & Hkeyed). specialize (Hkeyed state Hdisk).
  unfold handleToolStart. cbv zeta.
  unfold getCurrentTurnNumber. rewrite Hturn.
  cbn [setCurrentTurn setToolCounter setToolStartData withMem mem
       currentTurn toolStartData toolCounter].
  rewrite Hcounter, Hdata. cbn [default]. unfold id.
  match goal with
  | |- context [setKey _ ?startData _] =>
      destruct (keyed_setKey s (state_toolStartData state) T startData _ _
                  Hkeyed eq_refl) as [Hset _]
  end.
  rewrite Hset.
  set (t := state_currentTurn state).
  set (counter := (state_toolCounter state + 1)%Z).
  set (startData := {| StartData.toolName := T |}).
  match goal with
  | |- stateDir (if _ then handleGitOperations _ _ _ ?x else ?x) !! _ = _ /\ _ =>
      set (w1 := x)
  end.
  assert (Hdir : stateDir w1 !! s
                 = Some {| state_currentTurn :=
                             {| number := number t; startTime := startTime t;
                                toolCount := toolCount t + 1;
                                turnCost := turnCost t;
                                totalSessionCost := totalSessionCost t |};
                           state_toolStartData :=
                             state_toolStartData state
                             ++ [(toolKeyOf s T counter, startData)];
                           state_toolCounter := counter |}).
  { unfold w1, saveTurnState.
    cbn [setCurrentTurn setToolCounter setToolStartData withMem mem
         currentTurn toolStartData toolCounter].
    rewrite lookup_insert_eq. cbn [withStateDir stateDir].
    by rewrite !lookup_insert_eq. }
  assert (Herr : stderr w1 = stderr w).
  { unfold w1. rewrite stderr_saveTurnState. apply stderr_ensureLoaded. }
  assert (Hfiles : files w1 = files w).
  { unfold w1. rewrite files_saveTurnState. apply files_ensureLoaded. }
  clearbody w1.
  destruct (bool_decide (T = lit "Bash")
            && present (tool_input_command eventData)).
  - rewrite stateDir_handleGitOperations, stderr_handleGitOperations.
    repeat split; try done. intros f Hf.
    rewrite ledger_handleGitOperations by done. by rewrite Hfiles.
  - repeat split; try done. intros f _. by rewrite Hfiles.
Qed.

Lemma handleToolStart_unsaved env s T eventData w :
  currentTurn (mem w) !! s = None -> stateDir w !! s = None ->
  let w' := handleToolStart env s T eventData w in
  stateDir w' = stateDir w
  /\ stderr w' = stderr w
  /\ forall f, f <> gitOps -> ledger f (files w') = ledger f (files w).
Proof.
  intros Hmem Hdisk w'.
  assert (Hload : ensureLoaded s w = w).
  { unfold ensureLoaded, loadTurnState. by rewrite Hmem, Hdisk. }
  unfold w', handleToolStart. cbv zeta. rewrite Hload, Hmem.
  match goal with
  | |- stateDir (if _ then handleGitOperations _ _ _ ?x else ?x) = _ /\ _ =>
      set (w1 := x)
  end.
  assert (Hdir : stateDir w1 = stateDir w).
  { unfold w1, saveTurnState.
    cbn [setToolCounter setToolStartData withMem mem currentTurn].
    by rewrite Hmem. }
  assert (Herr : stderr w1 = stderr w).
  { unfold w1. by rewrite stderr_saveTurnState. }
  assert (Hfiles : files w1 = files w).
  { unfold w1. by rewrite files_saveTurnState. }
  clearbody w1.
  destruct (bool_decide (T = lit "Bash")
            && present (tool_input_command eventData)).
  - rewrite stateDir_handleGitOperations, stderr_handleGitOperations.
    repeat split; try done. intros f Hf.
    rewrite ledger_handleGitOperations by done. by rewrite Hfiles.
  - repeat split; try done. intros f _. by rewrite Hfiles.
Qed.






(* ====================================================================== *)
(** ** Session stop with a transcript *)
(* ====================================================================== *)

Lemma handleSessionEnd_priced env s eventData w state path latestRecord :
  transcript_path eventData = Some path -> truthy path = true ->
  currentTurn (mem w) !! s = None -> stateDir w !! s = Some state ->
  last (parseTranscriptTokens env path) = Some latestRecord ->
  let t := state_currentTurn state in
  let c := orZeroQ (total_cost_usd (record_costs latestRecord)) in
  let turnNumber := if (number t =? 0)%Z then 1%Z else number t in
  let w' := handleSessionEnd env s eventData w in
  stateDir w' !! s
  = Some {| state_currentTurn := pricedTurn t c;
            state_toolStartData := state_toolStartData state;
            state_toolCounter := state_toolCounter state |}
  /\ (forall s', s' <> s -> stateDir w' !! s' = stateDir w !! s')
  /\ currentTurn (mem w') !! s = None
  /\ stderr w' = stderr w
  /\ ledger costsLedger (files w')
     = ledger costsLedger (files w) ++ [costRow env s turnNumber latestRecord]
  /\ ledger sessions (files w')
     = ledger sessions (files w)
       ++ [sessionRow env s
             (if (startTime t =? 0)%Z then CStr [] else CInt (startTime t))
             turnNumber (orZeroQ (totalSessionCost t + c))
             (was_interrupted eventData)]
  /\ (forall f, f <> costsLedger -> f <> sessions ->
        ledger f (files w') = ledger f (files w)).
Proof.
  intros Hpath Htruthy Hmem Hdisk Hlast. cbv zeta.
  destruct (ensureLoaded_fresh s w state Hmem Hdisk) as (Hturn & Hdata & Hcounter).
  unfold handleSessionEnd. cbv zeta.
  rewrite Hpath. cbn [present default]. unfold id. rewrite Htruthy, Hturn, Hlast.
  unfold getCurrentTurnNumber. rewrite Hturn.
  set (t := state_currentTurn state) in *.
  set (c := orZeroQ (total_cost_usd (record_costs latestRecord))).
  set (turnNumber := if (number t =? 0)%Z then 1%Z else number t).
  change (appendRow costsLedger _ (ensureLoaded s w))
    with (appendRow costsLedger (costRow env s turnNumber latestRecord)
            (ensureLoaded s w)).
  set (w1 := appendRow costsLedger _ (ensureLoaded s w)).
  change (setCurrentTurn s _ w1) with (setCurrentTurn s (pricedTurn t c) w1).
  set (w2 := saveTurnState s (setCurrentTurn s (pricedTurn t c) w1)).
  assert (Hmem2 : mem w2 = mem (setCurrentTurn s (pricedTurn t c) w1))
    by apply mem_saveTurnState.
  assert (Hturn2 : currentTurn (mem w2) !! s = Some (pricedTurn t c)).
  { rewrite Hmem2. cbn. apply lookup_insert_eq. }
  assert (Hdir2 : stateDir w2
                  = <[s := {| state_currentTurn := pricedTurn t c;
                              state_toolStartData := state_toolStartData state;
                              state_toolCounter := state_toolCounter state |}]>
                      (stateDir w)).
  { unfold w2, saveTurnState.
    cbn [setCurrentTurn withMem mem currentTurn toolStartData toolCounter].
    rewrite lookup_insert_eq. unfold w1. rewrite mem_appendRow.
    rewrite Hdata, Hcounter. cbn [default withStateDir stateDir].
    unfold id. cbn [setCurrentTurn withMem stateDir].
    rewrite stateDir_appendRow. by rewrite stateDir_ensureLoaded. }
  assert (Hfiles2 : files w2 = files w1).
  { unfold w2. by rewrite files_saveTurnState. }
  assert (Herr2 : stderr w2 = stderr w).
  { unfold w2. rewrite stderr_saveTurnState. apply stderr_ensureLoaded. }
  clearbody w2. rewrite Hturn2.
  unfold cleanupSession, updateSessionRecord. rewrite Hturn2.
  cbn [withMem mem stateDir files stderr currentTurn pricedTurn
       startTime totalSessionCost appendRow].
  rewrite stateDir_appendRow, mem_appendRow, stderr_appendRow.
  rewrite Hdir2, Herr2, Hmem2.
  repeat split.
  - apply lookup_insert_eq.
  - intros s' Hs'. by rewrite lookup_insert_ne.
  - apply lookup_delete_eq.
  - rewrite ledger_appendRow_other, Hfiles2 by done. unfold w1.
    by rewrite ledger_appendRow_same, files_ensureLoaded.
  - rewrite ledger_appendRow_same, Hfiles2. unfold w1.
    by rewrite ledger_appendRow_other, files_ensureLoaded.
  - intros f Hf1 Hf2. rewrite ledger_appendRow_other, Hfiles2 by done.
    unfold w1. by rewrite ledger_appendRow_other, files_ensureLoaded.
Qed.







(* ====================================================================== *)
(** ** Pricing of transcript entries *)
(* ====================================================================== *)

Lemma calculateTokenCost_defined u modelName :
  exists entry,
    modelPricingOf modelName = Some entry
    /\ calculateTokenCost u modelName = Some (costsAt (selectPricing entry u) u).
Proof.
  unfold calculateTokenCost.
  destruct (modelPricingOf_cases modelName) as [-> | ->]; eauto.
Qed.


(** X16.  The transcript reader yields exactly one record per assistant
    entry with usage, in transcript order: entries of other types and
    entries without usage give nothing, and no entry is skipped because of
    its model name.  The total of a record counts input and output tokens
    only, not the cache tokens that enter its cost. *)
Theorem parseTranscriptTokens_entries (env : environment) (path : jsstring) :
  Forall2 recordOf (parseTranscriptTokens env path)
    (filter (fun entry => billable entry = true) (readTranscript env path)).
Proof.
  unfold parseTranscriptTokens.
  induction (readTranscript env path) as [|entry entries IH]; [constructor|].
  cbn [flat_map]. unfold billable at 1.
  destruct (bool_decide (entry_type entry = lit "assistant")) eqn:Htype.
  - destruct (entry_usage entry) as [u|] eqn:Husage.
    + rewrite filter_cons_True
        by (unfold billable; rewrite Htype, Husage; by cbn).
      destruct (calculateTokenCost_defined u (entry_model entry))
        as (pricing & _ & Hcost).
      rewrite Hcost. cbn [app]. constructor; [|done].
      unfold recordOf. cbn. repeat split. exists u. by rewrite Hcost.
    + rewrite filter_cons_False; [done|].
      unfold billable. rewrite Htype, Husage. by cbn.
  - rewrite filter_cons_False; [done|].
    unfold billable. by rewrite Htype.
Qed.

(* ====================================================================== *)
(** ** More on the classifier *)
(* ====================================================================== *)

Lemma testFrom_app alternatives1 alternatives2 text : forall before,
  testFrom (alternatives1 ++ alternatives2) before text
  = testFrom alternatives1 before text || testFrom alternatives2 before text.
Proof.
  induction text as [|c text IH]; intros before; cbn [testFrom];
    rewrite existsb_app.
  - by rewrite !orb_false_r.
  - rewrite IH.
    destruct (existsb _ alternatives1), (existsb _ alternatives2),
      (testFrom alternatives1 _ text), (testFrom alternatives2 _ text); done.
Qed.

Lemma test_app alternatives1 alternatives2 text :
  test (alternatives1 ++ alternatives2) text
  = test alternatives1 text || test alternatives2 text.
Proof. unfold test. rewrite map_app. apply testFrom_app. Qed.

Lemma isWordChar_foldCase c : isWordChar (foldCase c) = isWordChar c.
Proof.
  unfold foldCase. destruct ((65 <=? c) && (c <=? 90)) eqn:Hupper; [|done].
  apply andb_true_iff in Hupper as [H1 H2]. apply N.leb_le in H1, H2.
  unfold isWordChar. transitivity true; [|symmetry].
  - rewrite !orb_true_iff, !andb_true_iff, !N.leb_le, N.eqb_eq. lia.
  - rewrite !orb_true_iff, !andb_true_iff, !N.leb_le, N.eqb_eq. lia.
Qed.

Lemma foldCase_foldCase c : foldCase (foldCase c) = foldCase c.
Proof.
  unfold foldCase. destruct ((65 <=? c) && (c <=? 90)) eqn:Hupper.
  - apply andb_true_iff in Hupper as [H1 H2]. apply N.leb_le in H1, H2.
    destruct (N.leb_spec (c + 32) 90); [lia|]. by rewrite andb_false_r.
  - by rewrite Hupper.
Qed.

Lemma isWordBoundary_foldCase before after :
  isWordBoundary (option_map foldCase before) (option_map foldCase after)
  = isWordBoundary before after.
Proof.
  unfold isWordBoundary, isWordCharAt.
  destruct before, after; cbn; by rewrite ?isWordChar_foldCase.
Qed.

Lemma matchLiteral_foldCase pattern : forall last text,
  matchLiteral pattern (option_map foldCase last) (map foldCase text)
  = option_map
      (fun result => (option_map foldCase result.1, map foldCase result.2))
      (matchLiteral pattern last text).
Proof.
  induction pattern as [|p pattern IH]; intros last text; [done|].
  destruct text as [|t text]; [done|]. cbn [matchLiteral map].
  rewrite foldCase_foldCase. destruct (foldCase t =? foldCase p); [|done].
  apply (IH (Some t)).
Qed.

Lemma matchWordAt_foldCase before text alternative :
  matchWordAt (option_map foldCase before) (map foldCase text) alternative
  = matchWordAt before text alternative.
Proof.
  unfold matchWordAt. rewrite matchLiteral_foldCase.
  assert (Hhead : forall l : jsstring,
            head (map foldCase l) = option_map foldCase (head l)) by (by intros []).
  rewrite Hhead, isWordBoundary_foldCase.
  destruct (matchLiteral alternative before text) as [[last rest]|]; [|done].
  cbn. by rewrite Hhead, isWordBoundary_foldCase.
Qed.

Lemma existsb_pointwise {A} (f g : A -> bool) l :
  (forall a, f a = g a) -> existsb f l = existsb g l.
Proof.
  intros Hfg. induction l as [|a l IH]; [done|]. cbn. by rewrite Hfg, IH.
Qed.

Lemma testFrom_foldCase alternatives text : forall before,
  testFrom alternatives (option_map foldCase before) (map foldCase text)
  = testFrom alternatives before text.
Proof.
  induction text as [|c text IH]; intros before; cbn [testFrom map].
  - f_equal. apply existsb_pointwise. intros alternative.
    apply (matchWordAt_foldCase before []).
  - change (Some (foldCase c)) with (option_map foldCase (Some c)).
    rewrite (IH (Some c)). f_equal. apply existsb_pointwise. intros alternative.
    apply (matchWordAt_foldCase before (c :: text)).
Qed.

Lemma test_foldCase alternatives text :
  test alternatives (map foldCase text) = test alternatives text.
Proof. apply (testFrom_foldCase _ text None). Qed.

(** X17.  The classifier does not see the case of the letters A to Z: a
    prompt and the same prompt in lower case get the same category and
    subcategory. *)
Theorem categorizePrompt_case_insensitive (promptText : jsstring) :
  categorizePrompt (map foldCase promptText) = categorizePrompt promptText.
Proof. unfold categorizePrompt. by rewrite !test_foldCase. Qed.

(** X18.  Some alternatives of the later patterns never decide, because
    an earlier pattern holds the same word: a prompt is classified as
    configuration only through config, configure, setup, set up, install
    or deploy (initialise and initialize make it feature development); as
    code review only through review, check, look at or examine (verify and
    validate make it testing, analyse and analyze code understanding); and
    as an explanation only through how does, how is or understand (explain
    makes it documentation). *)
Theorem categorizePrompt_dead_alternatives (promptText : jsstring) :
  ((categorizePrompt promptText).1 = lit "configuration" ->
   test ["config"; "configure"; "setup"; "set up"; "install"; "deploy"]%string
     promptText = true)
  /\ ((categorizePrompt promptText).1 = lit "code_review" ->
      test ["review"; "check"; "look at"; "examine"]%string promptText = true)
  /\ (categorizePrompt promptText
      = (lit "code_understanding", lit "explanation") ->
      test ["how does"; "how is"; "understand"]%string promptText = true).
Proof.
  unfold categorizePrompt.
  change PROMPT_PATTERNS.featureDev
    with (app ["add"; "create"; "implement"; "build"; "new feature";
               "develop"]%string ["initialise"; "initialize"]%string).
  change PROMPT_PATTERNS.testing
    with (app ["test"; "testing"; "spec"; "unit test"; "integration test";
               "e2e"]%string
              (app ["verify"; "validate"]%string
                   ["behaviour"; "behavior"]%string)).
  change PROMPT_PATTERNS.documentation
    with (app ["document"; "documentation"; "comment"; "readme";
               "docs"]%string
              (app ["explain"]%string
                   ["describe"; "summarise"; "summarize"]%string)).
  change PROMPT_PATTERNS.codeUnderstanding
    with (app ["what"; "how"; "why"; "where"; "when"]%string
              (app ["explain"]%string
                   (app ["understand"; "show me"; "tell me"; "can you";
                         "could you"; "would you"; "find"]%string
                        ["analyse"; "analyze"]%string))).
  change PROMPT_PATTERNS.explanation
    with (app ["how does"; "how is"]%string
              (app ["explain"]%string ["understand"]%string)).
  change PROMPT_PATTERNS.codeReview
    with (app ["review"; "check"]%string
              (app ["verify"; "validate"]%string
                   (app ["look at"; "examine"]%string
                        ["analyse"; "analyze"]%string))).
  change PROMPT_PATTERNS.configuration
    with (app ["config"; "configure"; "setup"; "set up"; "install";
               "deploy"]%string ["initialise"; "initialize"]%string).
  change ["review"; "check"; "look at"; "examine"]%string
    with (app ["review"; "check"]%string ["look at"; "examine"]%string).
  change ["how does"; "how is"; "understand"]%string
    with (app ["how does"; "how is"]%string ["understand"]%string).
  rewrite !test_app.
  destruct (test ["initialise"; "initialize"]%string promptText),
    (test ["verify"; "validate"]%string promptText),
    (test ["explain"]%string promptText),
    (test ["analyse"; "analyze"]%string promptText);
    rewrite ?orb_true_r, ?orb_false_r; cbn [orb];
    repeat match goal with
           | |- context [if ?b then _ else _] =>
               lazymatch b with
               | test _ _ => destruct b eqn:?
               | _ || _ => destruct b eqn:?
               end
           end;
    cbn [fst orb]; repeat split; intros H; try done;
    try (by vm_compute in H).
Qed.

(* ====================================================================== *)
(** ** Appending under write failures *)
(* ====================================================================== *)

(** X19.  [appendCSV] always comes to an end, after at most three calls
    of [fs.appendFile] with a pause of 100 ms between two calls.  It goes
    on to the next call only after an EBUSY error, and only twice.  It
    returns when a call is accepted, and the line, with its newline, is
    then in the file once; it throws at the first error that is not EBUSY
    and at the third EBUSY, with the message of that error, and the file
    is then as it was. *)
Theorem appendCSV_retries (attempt : Z -> option Retry.error)
    (filePath data : jsstring) (fs : filesystem) :
  exists (k : nat) (outcome : Retry.outcome) (fs' : filesystem),
    (k < 3)%nat
    /\ Retry.appendCSV attempt filePath data fs
       = Some (outcome, Retry.attempts filePath data k, fs')
    /\ (forall j : nat, (j < k)%nat -> Retry.busy (attempt (Z.of_nat j)))
    /\ match attempt (Z.of_nat k) with
       | None => outcome = Retry.Returned /\ fs' = appendCSV filePath data fs
       | Some error =>
           (k = 2%nat \/ Retry.code error <> Some (lit "EBUSY"))
           /\ outcome
              = Retry.Thrown (lit "Failed to write to " ++ filePath
                              ++ lit ": " ++ Retry.message error)
           /\ fs' = fs
       end.
Proof.
  assert (Hbusy : forall error,
            bool_decide (Retry.code error = Some (lit "EBUSY")) = true ->
            Retry.busy (Some error)).
  { intros error Hcode. exists error.
    split; [done|]. by apply bool_decide_eq_true_1 in Hcode. }
  assert (Hother : forall error,
            bool_decide (Retry.code error = Some (lit "EBUSY")) = false ->
            Retry.code error <> Some (lit "EBUSY")).
  { intros error Hcode. by apply bool_decide_eq_false_1 in Hcode. }
  unfold Retry.appendCSV.
  change (Z.to_nat Retry.MAX_RETRIES) with 3%nat.
  cbn [Retry.loop]. change (0 <? Retry.MAX_RETRIES)%Z with true.
  change (0 <? Retry.MAX_RETRIES - 1)%Z with true.
  change (0 + 1 <? Retry.MAX_RETRIES)%Z with true.
  change (0 + 1 <? Retry.MAX_RETRIES - 1)%Z with true.
  change (0 + 1 + 1 <? Retry.MAX_RETRIES)%Z with true.
  change (0 + 1 + 1 <? Retry.MAX_RETRIES - 1)%Z with false.
  change (0 + 1)%Z with 1%Z. change (1 + 1)%Z with 2%Z.
  cbn [app].
  destruct (attempt 0%Z) as [error0|] eqn:H0.
  2:{ exists 0%nat, Retry.Returned, (appendCSV filePath data fs).
      split; [lia|]. split; [done|]. split; [intros j Hj; lia|].
      change (Z.of_nat 0) with 0%Z. by rewrite H0. }
  rewrite andb_true_r.
  destruct (bool_decide (Retry.code error0 = Some (lit "EBUSY"))) eqn:Hcode0.
  2:{ eexists 0%nat, _, fs. split; [lia|]. split; [done|].
      split; [intros j Hj; lia|]. change (Z.of_nat 0) with 0%Z. rewrite H0.
      split; [right; by apply Hother|done]. }
  destruct (attempt 1%Z) as [error1|] eqn:H1.
  2:{ exists 1%nat, Retry.Returned, (appendCSV filePath data fs).
      split; [lia|]. split; [done|]. split.
      - intros j Hj. assert (j = 0%nat) as -> by lia. change (Z.of_nat 0) with 0%Z.
        rewrite H0. by apply Hbusy.
      - change (Z.of_nat 1) with 1%Z. by rewrite H1. }
  rewrite andb_true_r.
  destruct (bool_decide (Retry.code error1 = Some (lit "EBUSY"))) eqn:Hcode1.
  2:{ eexists 1%nat, _, fs. split; [lia|]. split; [done|]. split.
      - intros j Hj. assert (j = 0%nat) as -> by lia. change (Z.of_nat 0) with 0%Z.
        rewrite H0. by apply Hbusy.
      - change (Z.of_nat 1) with 1%Z. rewrite H1.
        split; [right; by apply Hother|done]. }
  assert (Hfirst : forall j : nat, (j < 2)%nat ->
            Retry.busy (attempt (Z.of_nat j))).
  { intros j Hj. assert (j = 0%nat \/ j = 1%nat) as [-> | ->] by lia.
    - change (Z.of_nat 0) with 0%Z. rewrite H0. by apply Hbusy.
    - change (Z.of_nat 1) with 1%Z. rewrite H1. by apply Hbusy. }
  destruct (attempt 2%Z) as [error2|] eqn:H2.
  - rewrite andb_false_r.
    eexists 2%nat, _, fs. split; [lia|]. split; [done|].
    split; [done|]. change (Z.of_nat 2) with 2%Z. rewrite H2.
    split; [by left|done].
  - exists 2%nat, Retry.Returned, (appendCSV filePath data fs).
    split; [lia|]. split; [done|]. split; [done|].
    change (Z.of_nat 2) with 2%Z. by rewrite H2.
Qed.

Example appendCSV_busy_once :
  Retry.appendCSV Retry.busyOnce commitsPath (lit "a,b") ∅
  = Some (Retry.Returned, Retry.attempts commitsPath (lit "a,b") 1,
          appendCSV commitsPath (lit "a,b") ∅).
Proof. reflexivity. Qed.

(* ====================================================================== *)
(** ** Identity of the user and of the repository *)
(* ====================================================================== *)

Lemma firstPresent_truthy a b fallback :
  truthy fallback = true -> truthy (firstPresent a b fallback) = true.
Proof.
  intros Hfallback. unfold firstPresent.
  destruct a as [a|]; cbn [present default].
  - destruct (truthy a) eqn:Ha; [done|].
    destruct b as [b|]; cbn [present default]; [|done].
    by destruct (truthy b) eqn:Hb.
  - destruct b as [b|]; cbn [present default]; [|done].
    by destruct (truthy b) eqn:Hb.
Qed.

Lemma getUserId_truthy (h : host) : truthy (getUserId h) = true.
Proof.
  assert (Henv : truthy (firstPresent (USER h) (USERNAME h) (lit "unknown"))
                 = true) by (by apply firstPresent_truthy).
  assert (Hgit : truthy
                   match gitConfigEmail h with
                   | Some gitEmail =>
                       if truthy (trim gitEmail) then trim gitEmail
                       else match gitConfigName h with
                            | Some gitName =>
                                if truthy (trim gitName) then trim gitName
                                else firstPresent (USER h) (USERNAME h)
                                       (lit "unknown")
                            | None =>
                                firstPresent (USER h) (USERNAME h)
                                  (lit "unknown")
                            end
                   | None => firstPresent (USER h) (USERNAME h) (lit "unknown")
                   end = true).
  { destruct (gitConfigEmail h) as [gitEmail|]; [|done].
    destruct (truthy (trim gitEmail)) eqn:Hemail; [done|].
    destruct (gitConfigName h) as [gitName|]; [|done].
    by destruct (truthy (trim gitName)) eqn:Hname. }
  unfold getUserId. cbv zeta.
  destruct (readGitCache h) as [cache|]; [|done].
  destruct (cache_userId cache) as [cached|]; cbn [present default]; [|done].
  by destruct (truthy cached) eqn:Hcached.
Qed.

(** X20.  The user identifier is never empty, whatever the cache file,
    git and the environment answer: an empty answer is passed over and the
    last resort is the word unknown.  Without a cached user, a failing
    lookup of the git email ends the attempt with git: the git name is not
    asked and the identifier comes from the environment. *)
Theorem getUserId_never_empty (h : host) :
  truthy (getUserId h) = true
  /\ (readGitCache h ≫= cache_userId = None -> gitConfigEmail h = None ->
      getUserId h = firstPresent (USER h) (USERNAME h) (lit "unknown")).
Proof.
  split; [apply getUserId_truthy|].
  intros Hcache Hemail. unfold getUserId. cbv zeta. rewrite Hemail.
  destruct (readGitCache h) as [cache|]; [|done].
  cbn in Hcache. by rewrite Hcache.
Qed.

(** X21.  The cache file never expires.  After one initialization that
    could write it, every later initialization reports the user of that
    first one, whatever git and the environment answer by then; and it
    reports the repository of the first one (address, name, branch and
    head commit) as long as none of these four was empty.  In particular
    the answer given when git failed, unknown four times, stays. *)
Theorem identity_is_cached (repoNameOf : jsstring -> jsstring) (now : Z)
    (h later : host) :
  cacheWritable h = true ->
  let result := initialize repoNameOf now h in
  let userId := result.1.1 in
  let repoInfo := result.1.2 in
  let h2 := withCache (gitCacheFile result.2) later in
  getUserId h2 = userId
  /\ (truthy (url repoInfo) = true -> truthy (name repoInfo) = true ->
      truthy (branch repoInfo) = true ->
      truthy (headCommit repoInfo) = true ->
      getRepoInfo repoNameOf h2 = repoInfo).
Proof.
  intros Hwritable. unfold initialize, writeGitCache. cbv zeta.
  rewrite Hwritable. cbn [withCache gitCacheFile fst snd]. split.
  - unfold getUserId at 1. cbv zeta.
    cbn [readGitCache withCache gitCacheFile cache_userId present default].
    by rewrite getUserId_truthy.
  - intros Hurl Hname Hbranch Hhead. unfold getRepoInfo at 1. cbv zeta.
    cbn [readGitCache withCache gitCacheFile cache_repoUrl cache_repoName
         cache_branch cache_headCommit present default].
    rewrite Hurl, Hname, Hbranch, Hhead. cbn [andb].
    by destruct (getRepoInfo repoNameOf h).
Qed.

(** X21 on a machine that had no git at the first run and has it at the
    second: the second run still reports the user of the environment and
    an unknown repository. *)
Lemma identity_is_cached_witness :
  getUserId
    (withCache (gitCacheFile (initialize (fun url => url) 5 bareHost).2)
       configuredHost)
  = lit "dev"
  /\ getRepoInfo (fun url => url)
       (withCache (gitCacheFile (initialize (fun url => url) 5 bareHost).2)
          configuredHost)
     = unknownRepo.
Proof.
  destruct (identity_is_cached (fun url => url) 5 bareHost configuredHost)
    as [Huser Hrepo]; [reflexivity|].
  split; [exact Huser | apply Hrepo; reflexivity].
Defined.

(* ====================================================================== *)
(** ** More on turns *)
(* ====================================================================== *)

Lemma turns_handleTurnStart env s eventData w :
  exists rows,
    ledger turns (files (handleTurnStart env s eventData w))
    = ledger turns (files w) ++ rows
    /\ Forall (fun r => wasInterruptedOf r = Some (CInt 0)) rows.
Proof.
  unfold handleTurnStart. cbv zeta.
  set (w0 := ensureLoaded s w).
  set (w1 := match currentTurn (mem w0) !! s with
             | Some _ => writeTurnData env s (now env) false w0
             | None => w0
             end).
  assert (H1 : exists rows,
            ledger turns (files w1) = ledger turns (files w) ++ rows
            /\ Forall (fun r => wasInterruptedOf r = Some (CInt 0)) rows).
  { rewrite <- (files_ensureLoaded s w). fold w0. unfold w1, writeTurnData.
    destruct (currentTurn (mem w0) !! s) as [t|].
    - eexists. rewrite ledger_appendRow_same. split; [done|].
      by repeat constructor.
    - exists []. by rewrite app_nil_r. }
  clearbody w1. destruct H1 as (rows & Hrows & Hshape).
  exists rows. split; [|done]. rewrite <- Hrows.
  match goal with
  | |- ledger _ (files match _ with
                       | Some _ => if _ then _ else ?x
                       | None => ?x end) = _ =>
      set (w2 := x); assert (H2 : files w2 = files w1)
        by (unfold w2; by rewrite files_saveTurnState)
  end.
  clearbody w2. rewrite <- H2.
  destruct (prompt eventData) as [p|]; [|done].
  destruct (truthy (trim p)); [|done].
  destruct (categorizePrompt p). by rewrite ledger_appendRow_other.
Qed.

Lemma turns_processHookEvent env eventData w :
  Forall (fun r => wasInterruptedOf r = Some (CInt 0))
    (ledger turns (files w)) ->
  Forall (fun r => wasInterruptedOf r = Some (CInt 0))
    (ledger turns (files (processHookEvent env eventData w))).
Proof.
  intros Hrows.
  destruct (decide (hook_event_name eventData
                    = Some (lit "UserPromptSubmit"))) as [Hkind|Hkind].
  - rewrite dispatch_UserPromptSubmit by done.
    destruct (turns_handleTurnStart env (session_id eventData) eventData w)
      as (rows & -> & Hshape).
    apply Forall_app. by split.
  - destruct (appended_processHookEvent env eventData w)
      as (fs & Happended & Hkinds).
    destruct (Happended turns) as (rows & -> & _ & Hin).
    destruct rows as [|r rows]; [by rewrite app_nil_r|].
    exfalso. apply Hkind. apply (Hkinds turns). by apply Hin.
Qed.

(** X22.  After any run of events and restarts, every Turn row has 0 in
    its last column: a Turn row is written only when the next prompt of
    the session arrives, always as not interrupted, and the interruption
    flag of a Stop event never reaches the turn ledger. *)
Theorem turn_rows_never_interrupted (actions : list action) :
  Forall (fun r => wasInterruptedOf r = Some (CInt 0))
    (ledger turns (files (run actions initialWorld))).
Proof.
  assert (Hany : forall w,
            Forall (fun r => wasInterruptedOf r = Some (CInt 0))
              (ledger turns (files w)) ->
            Forall (fun r => wasInterruptedOf r = Some (CInt 0))
              (ledger turns (files (run actions w)))).
  { induction actions as [|a actions IH]; intros w Hrows; [done|].
    cbn [run fold_left]. apply IH.
    destruct a as [env eventData|]; cbn [step]; [|done].
    by apply turns_processHookEvent. }
  apply Hany. constructor.
Qed.

Section FreshProcess.

(** A session and a world whose memory does not hold it. *)
Variable s : jsstring.
Variable w : world.
Hypothesis Hfresh : currentTurn (mem w) !! s = None.

Lemma handleTurnStart_fresh_state env eventData :
  exists n,
    turnOnFile s (handleTurnStart env s eventData w) n (now env) 0.
Proof.
  unfold handleTurnStart. cbv zeta.
  set (w0 := ensureLoaded s w).
  set (w1 := match currentTurn (mem w0) !! s with
             | Some _ => writeTurnData env s (now env) false w0
             | None => w0
             end).
  match goal with
  | |- context [setCurrentTurn s ?current w1] => set (t := current)
  end.
  set (w2 := saveTurnState s (setCurrentTurn s t w1)).
  assert (H2 : exists toolStartData toolCounter,
            stateDir w2 !! s
            = Some {| state_currentTurn := t;
                      state_toolStartData := toolStartData;
                      state_toolCounter := toolCounter |}).
  { unfold w2, saveTurnState. cbn [setCurrentTurn withMem mem currentTurn].
    rewrite lookup_insert_eq. cbn [withStateDir stateDir].
    rewrite lookup_insert_eq. eauto. }
  destruct H2 as (toolStartData & toolCounter & H2).
  assert (Hshape : startTime t = now env /\ toolCount t = 0%Z)
    by (unfold t; by destruct (currentTurn (mem w1) !! s)).
  clearbody w2 t. exists (number t). unfold turnOnFile.
  assert (Hdir : forall f data, stateDir (appendRow f data w2) = stateDir w2)
    by done.
  destruct (prompt eventData) as [p|]; [|by eauto].
  destruct (truthy (trim p)); [|by eauto].
  destruct (categorizePrompt p). rewrite Hdir. by eauto.
Qed.

Variable state : sessionState.
Hypothesis Hdisk : stateDir w !! s = Some state.

Lemma handleTurnStart_fresh_row env eventData :
  ledger turns (files (handleTurnStart env s eventData w))
  = ledger turns (files w)
    ++ [[CStr s; CStr (userId env); CInt (number (state_currentTurn state));
         CInt (startTime (state_currentTurn state)); CInt (now env);
         CInt (toolCount (state_currentTurn state));
         CUsd (orZeroQ (turnCost (state_currentTurn state)));
         boolCell false]].
Proof.
  destruct (ensureLoaded_fresh s w state Hfresh Hdisk) as (Hturn & _ & _).
  unfold handleTurnStart. cbv zeta. rewrite Hturn.
  unfold writeTurnData. rewrite Hturn.
  match goal with
  | |- ledger _ (files match _ with
                       | Some _ => if _ then _ else ?x
                       | None => ?x end) = _ =>
      set (w2 := x);
      assert (H2 : ledger turns (files w2)
                   = ledger turns (files w) ++ [[CStr s; CStr (userId env);
                       CInt (number (state_currentTurn state));
                       CInt (startTime (state_currentTurn state));
                       CInt (now env);
                       CInt (toolCount (state_currentTurn state));
                       CUsd (orZeroQ (turnCost (state_currentTurn state)));
                       boolCell false]])
  end.
  { unfold w2. rewrite files_saveTurnState. cbn [setCurrentTurn withMem files].
    by rewrite ledger_appendRow_same, files_ensureLoaded. }
  clearbody w2. rewrite <- H2.
  destruct (prompt eventData) as [p|]; [|done].
  destruct (truthy (trim p)); [|done].
  destruct (categorizePrompt p). by rewrite ledger_appendRow_other.
Qed.

Lemma handleToolStart_fresh_turn env T eventData :
  turnOnFile s (handleToolStart env s T eventData w)
    (number (state_currentTurn state)) (startTime (state_currentTurn state))
    (toolCount (state_currentTurn state) + 1).
Proof.
  destruct (ensureLoaded_fresh s w state Hfresh Hdisk) as (Hturn & _ & _).
  unfold handleToolStart. cbv zeta. rewrite Hturn.
  match goal with
  | |- turnOnFile _ (if _ then handleGitOperations _ _ _ ?x else ?x) _ _ _ =>
      set (w1 := x)
  end.
  assert (H1 : turnOnFile s w1 (number (state_currentTurn state))
                 (startTime (state_currentTurn state))
                 (toolCount (state_currentTurn state) + 1)).
  { unfold w1, saveTurnState.
    cbn [setCurrentTurn setToolCounter setToolStartData withMem mem
         currentTurn].
    rewrite lookup_insert_eq. eexists.
    cbn [withStateDir stateDir]. rewrite lookup_insert_eq. by split. }
  clearbody w1. unfold turnOnFile in *.
  destruct (bool_decide (T = lit "Bash")
            && present (tool_input_command eventData)); [|done].
  by rewrite stateDir_handleGitOperations.
Qed.

Lemma handleToolEnd_fresh_turn env T eventData :
  turnOnFile s (handleToolEnd env s T eventData w)
    (number (state_currentTurn state)) (startTime (state_currentTurn state))
    (toolCount (state_currentTurn state)).
Proof.
  destruct (ensureLoaded_fresh s w state Hfresh Hdisk) as (Hturn & Hdata & _).
  assert (Hsame : turnOnFile s (ensureLoaded s w)
                    (number (state_currentTurn state))
                    (startTime (state_currentTurn state))
                    (toolCount (state_currentTurn state))).
  { exists state. by rewrite stateDir_ensureLoaded. }
  unfold handleToolEnd. cbv zeta. rewrite Hdata.
  destruct (findMatchingKey T (state_toolStartData state)) as [key|]; [|done].
  destruct (truthy key); [|done].
  destruct (getKey key (state_toolStartData state)) as [startData|]; [|done].
  match goal with
  | |- turnOnFile _ (saveTurnState _ ?x) _ _ _ => set (w1 := x)
  end.
  assert (H1 : currentTurn (mem w1) !! s = Some (state_currentTurn state)).
  { unfold w1.
    destruct (bool_decide (T = lit "Bash")
              && negb (StartData.inputSize startData =? 0)%Z
              && present (tool_input_command eventData));
      rewrite ?mem_handleGitCommand;
      cbn [setToolStartData withMem mem currentTurn];
      by rewrite mem_appendRow. }
  clearbody w1. unfold saveTurnState. rewrite H1. eexists.
  cbn [withStateDir stateDir]. rewrite lookup_insert_eq. by split.
Qed.

Lemma handleSessionEnd_fresh_turn env eventData :
  turnOnFile s (handleSessionEnd env s eventData w)
    (number (state_currentTurn state)) (startTime (state_currentTurn state))
    (toolCount (state_currentTurn state)).
Proof.
  destruct (ensureLoaded_fresh s w state Hfresh Hdisk) as (Hturn & Hdata & _).
  assert (Hsame : turnOnFile s (ensureLoaded s w)
                    (number (state_currentTurn state))
                    (startTime (state_currentTurn state))
                    (toolCount (state_currentTurn state))).
  { exists state. by rewrite stateDir_ensureLoaded. }
  unfold handleSessionEnd. cbv zeta. unfold cleanupSession, updateSessionRecord.
  unfold turnOnFile. cbn [withMem stateDir]. rewrite stateDir_appendRow.
  rewrite Hturn.
  destruct (present (transcript_path eventData)); [|done].
  destruct (last _) as [latestRecord|]; [|done].
  unfold saveTurnState. cbn [setCurrentTurn withMem mem currentTurn].
  rewrite lookup_insert_eq. eexists.
  cbn [withStateDir stateDir]. rewrite lookup_insert_eq. by split.
Qed.

End FreshProcess.

Lemma tool_count_step env eventData w s n started count :
  session_id eventData = s -> truthy s = true ->
  hook_event_name eventData <> Some (lit "UserPromptSubmit") ->
  turnOnFile s w n started count ->
  let w' := processHookEvent env eventData (withMem emptyMemory w) in
  turnOnFile s w' n started
    (count + if isToolStart eventData then 1 else 0)
  /\ ledger turns (files w') = ledger turns (files w).
Proof.
  intros Hs Htruthy Hkind (state & Hdisk & <- & <- & <-). cbv zeta.
  set (wA := withMem emptyMemory w).
  assert (HfreshA : currentTurn (mem wA) !! s = None) by apply lookup_empty.
  assert (HdiskA : stateDir wA !! s = Some state) by done.
  split.
  - destruct (isToolStart eventData) eqn:Hstart.
    + unfold isToolStart in Hstart.
      apply andb_true_iff in Hstart as [Hpre Hpresent].
      apply bool_decide_eq_true_1 in Hpre.
      destruct (tool_name eventData) as [T|] eqn:Htool; [|done].
      cbn [present] in Hpresent.
      rewrite (dispatch_PreToolUse env eventData wA T) by done.
      rewrite Hs, Htruthy. by apply handleToolStart_fresh_turn.
    + rewrite Z.add_0_r.
      destruct (processHookEvent_cases env eventData wA)
        as [[message ->]
           | [[Hkind' _]
             | [[Hkind' (T & Htool & HT & _)]
               | [[Hkind' (T & _ & _ & ->)]
                 | [[Hkind' ->] | [Hkind' ->]]]]]].
      * by exists state.
      * done.
      * exfalso. unfold isToolStart in Hstart.
        rewrite Hkind', Htool in Hstart. cbn [present] in Hstart.
        rewrite HT in Hstart. by rewrite bool_decide_eq_true_2 in Hstart.
      * rewrite Hs. by apply handleToolEnd_fresh_turn.
      * by exists state.
      * rewrite Hs. by apply handleSessionEnd_fresh_turn.
  - destruct (appended_processHookEvent env eventData wA)
      as (fs & Happended & Hkinds).
    destruct (Happended turns) as (rows & Hrows & _ & Hin).
    rewrite Hrows.
    destruct rows as [|r rows]; [by rewrite app_nil_r|].
    exfalso. apply Hkind. apply (Hkinds turns). by apply Hin.
Qed.

Lemma tool_count_run s events : forall w n started count,
  truthy s = true ->
  Forall (fun event =>
            session_id event.2 = s
            /\ hook_event_name event.2 <> Some (lit "UserPromptSubmit"))
         events ->
  turnOnFile s w n started count ->
  turnOnFile s (run (freshRun events) w) n started
    (count + toolStartsIn events)
  /\ ledger turns (files (run (freshRun events) w)) = ledger turns (files w).
Proof.
  induction events as [|[env eventData] events IH];
    intros w n started count Htruthy Hevents Hturn.
  - unfold toolStartsIn. cbn. by rewrite Z.add_0_r.
  - apply Forall_cons in Hevents as [[Hs Hkind] Hevents]. cbn [snd] in Hs, Hkind.
    rewrite freshRun_cons.
    destruct (tool_count_step env eventData w s n started count Hs Htruthy
                Hkind Hturn) as [Hturn1 Hrows1].
    destruct (IH _ _ _ _ Htruthy Hevents Hturn1) as [Hturn2 Hrows2].
    rewrite Hrows2, Hrows1. split; [|done].
    assert (Hcount : toolStartsIn ((env, eventData) :: events)
                     = ((if isToolStart eventData then 1 else 0)
                        + toolStartsIn events)%Z).
    { unfold toolStartsIn. destruct (isToolStart eventData) eqn:Hstart.
      - rewrite filter_cons_True by done. cbn [length]. lia.
      - rewrite filter_cons_False; [done|]. cbn. by rewrite Hstart. }
    by rewrite Hcount, Z.add_assoc.
Qed.



(* ====================================================================== *)
(** ** The in-flight map of a state file *)
(* ====================================================================== *)

Lemma keyed_length s m : forall lo hi,
  keyed s lo hi m -> (lo + Z.of_nat (length m) <= hi)%Z.
Proof.
  induction m as [|[k e] m IH]; intros lo hi; cbn [keyed length].
  - lia.
  - intros (n & Hn & _ & Hrest). apply IH in Hrest. lia.
Qed.



(* ====================================================================== *)
(** ** Numbers in the ledgers *)
(* ====================================================================== *)

Lemma digits_chars d : Forall isDigit (lit (NilEmpty.string_of_uint d)).
Proof.
  induction d; cbn; try constructor; try done; unfold isDigit; lia.
Qed.

Lemma uint_chars d :
  exists c rest,
    lit (NilZero.string_of_uint d) = c :: rest /\ Forall isDigit (c :: rest).
Proof.
  pose proof (digits_chars d) as Hdigits.
  unfold NilZero.string_of_uint.
  destruct d; cbn in *; try (eexists _, _; split; [reflexivity|done]).
  eexists _, _. split; [reflexivity|]. repeat constructor; unfold isDigit; lia.
Qed.

Lemma digits_plain (str : jsstring) :
  Forall isDigit str -> needsQuoting str = false.
Proof.
  intros Hdigits. unfold needsQuoting.
  assert (Hnot : forall c, c < 48 -> includes c str = false).
  { intros c Hc. apply includes_false. intros Hin.
    rewrite Forall_forall in Hdigits.
    apply list_elem_of_In, Hdigits in Hin. unfold isDigit in Hin. lia. }
  rewrite !Hnot; [done|..]; unfold NEWLINE, QUOTE, COMMA; lia.
Qed.

Lemma String_of_Z_shape z :
  exists c rest,
    Forall isDigit (c :: rest)
    /\ String_of_Z z = if (z <? 0)%Z then 45 :: c :: rest else c :: rest.
Proof.
  unfold String_of_Z.
  destruct z as [|p|p]; cbn [Z.to_int Z.ltb Z.compare NilZero.string_of_int].
  - exists 48, []. split; [|reflexivity].
    repeat constructor; unfold isDigit; lia.
  - destruct (uint_chars (Pos.to_uint p)) as (c & rest & -> & Hdigits). eauto.
  - destruct (uint_chars (Pos.to_uint p)) as (c & rest & Heq & Hdigits).
    exists c, rest. split; [done|].
    change (lit (String "-" (NilZero.string_of_uint (Pos.to_uint p))))
      with (45 :: lit (NilZero.string_of_uint (Pos.to_uint p))).
    by rewrite Heq.
Qed.


(* ====================================================================== *)
(** ** The two git ledgers *)
(* ====================================================================== *)

Lemma appended_unchanged fs f l l' :
  appended fs l l' -> f ∉ fs -> ledger f l' = ledger f l.
Proof.
  intros Happended Hout. destruct (Happended f) as (rows & -> & _ & Hin).
  destruct rows as [|r rows]; [by rewrite app_nil_r|].
  exfalso. by apply Hout, Hin.
Qed.

(** X26.  The git operation ledger and the commit ledger are written
    only for the Bash tool, and only when the event carries a command:
    any other event leaves both as they are. *)
Theorem git_rows_need_bash_command (env : environment) (eventData : eventData)
    (w : world) :
  tool_name eventData <> Some (lit "Bash")
  \/ present (tool_input_command eventData) = false ->
  let w' := processHookEvent env eventData w in
  ledger gitOps (files w') = ledger gitOps (files w)
  /\ ledger commits (files w') = ledger commits (files w).
Proof.
  intros Hnot. cbv zeta.
  assert (Hcond : forall T, tool_name eventData = Some T ->
            bool_decide (T = lit "Bash")
            && present (tool_input_command eventData) = false).
  { intros T Htool. destruct Hnot as [Hnot | ->]; [|apply andb_false_r].
    rewrite bool_decide_eq_false_2; [done|]. intros ->. by apply Hnot. }
  destruct (processHookEvent_cases env eventData w)
    as [[message ->]
       | [[Hkind ->]
         | [[Hkind (T & Htool & _ & ->)]
           | [[Hkind (T & Htool & _ & ->)]
             | [[Hkind ->] | [Hkind ->]]]]]].
  - done.
  - split; apply (appended_unchanged _ _ _ _ (appended_handleTurnStart _ _ _ _));
      rewrite !elem_of_cons, elem_of_nil; by intros [? | [? | []]].
  - split.
    + unfold handleToolStart. cbv zeta. rewrite (Hcond T Htool).
      rewrite files_saveTurnState.
      cbn [setToolStartData setToolCounter withMem files].
      destruct (currentTurn (mem (ensureLoaded _ w)) !! _);
        cbn [setCurrentTurn withMem files]; by rewrite files_ensureLoaded.
    + apply (appended_unchanged _ _ _ _ (appended_handleToolStart _ _ _ _ _)).
      rewrite list_elem_of_singleton. done.
  - split.
    + apply (appended_unchanged _ _ _ _ (appended_handleToolEnd _ _ _ _ _)).
      rewrite !elem_of_cons, elem_of_nil. by intros [? | [? | []]].
    + unfold handleToolEnd. cbv zeta.
      set (s := session_id eventData). set (w0 := ensureLoaded s w).
      assert (H0 : files w0 = files w) by apply files_ensureLoaded.
      clearbody w0. rewrite <- H0.
      destruct (toolStartData (mem w0) !! s) as [m|]; [|done].
      destruct (findMatchingKey T m) as [key|]; [|done].
      destruct (truthy key); [|done].
      destruct (getKey key m) as [startData|]; [|done].
      rewrite files_saveTurnState.
      assert (Hcond' : bool_decide (T = lit "Bash")
                       && negb (StartData.inputSize startData =? 0)%Z
                       && present (tool_input_command eventData) = false).
      { pose proof (Hcond T Htool) as Hc.
        destruct (bool_decide (T = lit "Bash")); [|done].
        cbn [andb] in *. rewrite Hc. apply andb_false_r. }
      rewrite Hcond'. cbn [setToolStartData withMem files].
      by rewrite ledger_appendRow_other.
  - split; apply (appended_unchanged _ _ _ _ (appended_handleCompaction _ _ _ _));
      rewrite list_elem_of_singleton; done.
  - split; apply (appended_unchanged _ _ _ _ (appended_handleSessionEnd _ _ _ _));
      rewrite !elem_of_cons, elem_of_nil; by intros [? | [? | []]].
Qed.

(** X26 at a Read call of the sample history. *)
Lemma git_rows_need_bash_command_witness :
  ledger gitOps
    (files (processHookEvent (exampleEnv 1450)
              (withTool "Read" (withKind "PostToolUse" blankEvent))
              sampleWorld))
  = ledger gitOps (files sampleWorld)
  /\ ledger commits
       (files (processHookEvent (exampleEnv 1450)
                 (withTool "Read" (withKind "PostToolUse" blankEvent))
                 sampleWorld))
     = ledger commits (files sampleWorld).
Proof.
  apply (git_rows_need_bash_command (exampleEnv 1450)
           (withTool "Read" (withKind "PostToolUse" blankEvent)) sampleWorld).
  left. vm_compute. discriminate.
Defined.

(* ====================================================================== *)
(** ** The header check of a new data directory *)
(* ====================================================================== *)

Section AllHeaders.

Variable files : jsstring -> jsstring.

(** Writing the headers of [entries] into files that do not exist yet. *)
Lemma ensureCSVHeaders_absent now entries : forall fs,
  NoDup (map (fun kh => files kh.1) entries) ->
  (forall kh, In kh entries -> fs !! files kh.1 = None) ->
  fold_left (fun fs kh => ensureCSVHeader now (files kh.1) kh.2 fs) entries fs
  = fold_left (fun fs kh => <[files kh.1 := kh.2 ++ [NEWLINE]]> fs) entries fs.
Proof.
  induction entries as [|[key header] entries IH]; intros fs Hnodup Habsent;
    [done|].
  cbn [map fst snd] in Hnodup. apply NoDup_cons in Hnodup as [Hfresh Hnodup].
  cbn [fold_left fst snd].
  assert (Hstep : ensureCSVHeader now (files key) header fs
                  = <[files key := header ++ [NEWLINE]]> fs).
  { pose proof (Habsent (key, header) ltac:(by left)) as Hnone.
    cbn [fst] in Hnone. unfold ensureCSVHeader, appendCSV.
    by rewrite Hnone. }
  rewrite Hstep. apply IH; [done|].
  intros kh Hin. rewrite lookup_insert_ne.
  - apply Habsent. by right.
  - intros Heq. apply Hfresh. rewrite Heq.
    apply list_elem_of_In, in_map_iff. by exists kh.
Qed.

Lemma lookup_written entries : forall (fs : filesystem) key header,
  NoDup (map (fun kh => files kh.1) entries) ->
  In (key, header) entries ->
  fold_left (fun fs kh => <[files kh.1 := kh.2 ++ [NEWLINE]]> fs) entries fs
    !! files key
  = Some (header ++ [NEWLINE]).
Proof.
  induction entries as [|[key' header'] entries IH];
    intros fs key header Hnodup Hin; [done|].
  cbn [map fst snd] in Hnodup. apply NoDup_cons in Hnodup as [Hfresh Hnodup].
  cbn [fold_left fst snd]. destruct Hin as [[= -> ->] | Hin].
  - clear IH. revert fs.
    assert (Hkeep : forall fs : filesystem,
              fs !! files key = Some (header ++ [NEWLINE]) ->
              fold_left (fun fs kh => <[files kh.1 := kh.2 ++ [NEWLINE]]> fs)
                entries fs !! files key
              = Some (header ++ [NEWLINE])).
    { induction entries as [|[key2 header2] entries IH2]; intros fs Hfs;
        [done|].
      cbn [map fst snd] in Hnodup, Hfresh.
      apply NoDup_cons in Hnodup as [_ Hnodup].
      cbn [fold_left fst snd]. apply IH2; [|done|].
      - intros Hin. apply Hfresh. by right.
      - rewrite lookup_insert_ne; [done|].
        intros Heq. apply Hfresh. rewrite Heq. by left. }
    intros fs. apply Hkeep, lookup_insert_eq.
  - by apply IH.
Qed.

Lemma lookup_not_written entries : forall (fs : filesystem) path,
  (forall kh, In kh entries -> path <> files kh.1) ->
  fold_left (fun fs kh => <[files kh.1 := kh.2 ++ [NEWLINE]]> fs) entries fs
    !! path
  = fs !! path.
Proof.
  induction entries as [|[key header] entries IH]; intros fs path Hother;
    [done|].
  cbn [fold_left fst snd]. rewrite IH by (intros kh Hin; apply Hother; by right).
  rewrite lookup_insert_ne; [done|].
  intros Heq. by apply (Hother (key, header)); [left|].
Qed.

Lemma ensureCSVHeaders_settled now entries : forall fs,
  (forall key header, In (key, header) entries ->
     wellFormedHeader header = true
     /\ fs !! files key = Some (header ++ [NEWLINE])) ->
  fold_left (fun fs kh => ensureCSVHeader now (files kh.1) kh.2 fs) entries fs
  = fs.
Proof.
  induction entries as [|[key header] entries IH]; intros fs Hfiles; [done|].
  cbn [fold_left fst snd].
  destruct (Hfiles key header) as [Hheader Hfile]; [by left|].
  rewrite (ensureCSVHeader_settled now (files key) header fs
             (header ++ [NEWLINE]) []); [|done|by apply nonBlankLines_header].
  apply IH. intros key' header' Hin. apply Hfiles. by right.
Qed.

End AllHeaders.

(** X27.  The header check of a data directory that holds no file yet,
    with the eight ledger paths pairwise distinct: afterwards each ledger
    file holds its header and a newline and nothing else, no other file
    exists (no backup is made), and a second header check, at any later
    time, changes nothing. *)
Theorem ensureCSVHeaders_fresh (now : Z) (files : jsstring -> jsstring) :
  NoDup (map (fun kh => files kh.1) CSV_HEADERS) ->
  let fs := ensureCSVHeaders now files ∅ in
  (forall key header, In (key, header) CSV_HEADERS ->
     fs !! files key = Some (header ++ [NEWLINE]))
  /\ (forall path, (forall key header, In (key, header) CSV_HEADERS ->
                      path <> files key) ->
        fs !! path = None)
  /\ (forall now', ensureCSVHeaders now' files fs = fs).
Proof.
  intros Hnodup. cbv zeta. unfold ensureCSVHeaders.
  rewrite (ensureCSVHeaders_absent files now CSV_HEADERS ∅ Hnodup)
    by (intros kh _; apply lookup_empty).
  split; [|split].
  - intros key header Hin. by apply lookup_written.
  - intros path Hother. rewrite lookup_not_written; [apply lookup_empty|].
    intros [key header] Hin. by apply (Hother key header).
  - intros now'. apply ensureCSVHeaders_settled.
    intros key header Hin. split; [by apply (wellFormedHeader_table key)|].
    by apply lookup_written.
Qed.

(** X27 at the paths of the constructor. *)
Lemma ensureCSVHeaders_fresh_witness :
  ensureCSVHeaders 2 ledgerPath (ensureCSVHeaders 1 ledgerPath ∅)
  = ensureCSVHeaders 1 ledgerPath ∅.
Proof.
  apply (ensureCSVHeaders_fresh 1 ledgerPath).
  apply (bool_decide_unpack _). vm_compute. exact I.
Defined.

(* ====================================================================== *)
(** ** A tool call across two turns *)
(* ====================================================================== *)

Lemma handleTurnStart_fresh_file env s eventData w state :
  currentTurn (mem w) !! s = None -> stateDir w !! s = Some state ->
  let t := state_currentTurn state in
  let w' := handleTurnStart env s eventData w in
  stateDir w' !! s
  = Some {| state_currentTurn :=
              {| number := number t + 1; startTime := now env;
                 toolCount := 0; turnCost := 0;
                 totalSessionCost := totalSessionCost t |};
            state_toolStartData := state_toolStartData state;
            state_toolCounter := state_toolCounter state |}
  /\ ledger tools (files w') = ledger tools (files w).
Proof.
  intros Hfresh Hdisk. cbv zeta.
  destruct (ensureLoaded_fresh s w state Hfresh Hdisk)
    as (Hturn & Hdata & Hcounter).
  split.
  - unfold handleTurnStart. cbv zeta. rewrite Hturn.
    unfold writeTurnData. rewrite Hturn.
    rewrite mem_appendRow, Hturn.
    match goal with
    | |- stateDir match _ with
                  | Some _ => if _ then _ else ?x
                  | None => ?x end !! _ = ?rhs =>
        set (w2 := x); assert (H2 : stateDir w2 !! s = rhs)
    end.
    { unfold w2, saveTurnState.
      cbn [setCurrentTurn withMem mem currentTurn toolStartData toolCounter].
      rewrite lookup_insert_eq, mem_appendRow, Hdata, Hcounter.
      cbn [default withStateDir stateDir]. by rewrite lookup_insert_eq. }
    clearbody w2.
    destruct (prompt eventData) as [p|]; [|done].
    destruct (truthy (trim p)); [|done]. by destruct (categorizePrompt p).
  - apply (appended_unchanged _ _ _ _ (appended_handleTurnStart _ _ _ _)).
    rewrite !elem_of_cons, elem_of_nil. by intros [? | [? | []]].
Qed.


